(** * Job-shop simulation: the simulation kernel and its statistics

    A shallow embedding of [src/services/simulationEngine.ts] and of the
    records of [src/types.ts], with the pure functions of the dashboard
    ([createHistogram], [getRecommendations]) and the history update of
    the application ([runSimulation]).

    Numbers.  A JavaScript [number] that holds a time, a cost or a ratio is a
    rational ([Q]): arithmetic is exact, there is no NaN and no infinity, and
    [x / 0] is [0] (the source divides by a possibly-zero denominator only
    in [throughput], when [duration] is [0]).  Counters, seeds and server
    counts are integers ([Z]); the remainder operator [%] is [Z.rem], which
    like JavaScript's takes the sign of the dividend.  Integer arithmetic
    is exact, as the doubles' is below [2^53]; the step of the generator
    from a seed beyond that is [nextDouble].  [Math.log] and
    [Math.sqrt] are functions of the host; they are parameters of the model
    ([Math_log], [Math_sqrt]), and wherever a sign or a size matters the
    bracket [1 - 1/x <= Math_log x <= x - 1] of the natural logarithm is
    assumed, never a particular value.

    Objects.  A [Job] is a mutable object shared by the [jobs] array, the
    three waiting queues and the pending events.  The arena [jobs] owns the
    records; the queues and the events hold indices into it, and a field
    assignment is an update of the arena at that index. *)

From Stdlib Require Import ZArith QArith Qround Qminmax Qabs Lqa Lia List Bool.
From Stdlib Require Import Permutation Sorted Morphisms.
Import ListNotations.

Set Implicit Arguments.
Open Scope Q_scope.

(** ** Small library: options, numbers as JavaScript sees them *)

Notation "x <- e ;; k" :=
  (match e with Some x => k | None => None end)
  (at level 61, e at next level, right associativity).

(** [a < b] on numbers. *)
Definition Qltb (a b : Q) : bool := negb (Qle_bool b a).

(** Truthiness of an optional number: [undefined] and [0] are falsy. *)
Definition truthy (o : option Q) : bool :=
  match o with
  | Some t => negb (Qeq_bool t 0)
  | None => false
  end.

(** [d === 0 ? 0 : n / d] *)
Definition safeDiv (n d : Q) : Q := if Qeq_bool d 0 then 0 else n / d.

(** [Math.round]: the nearest integer, halves towards plus infinity. *)
Definition Math_round (x : Q) : Z := Qfloor (x + (1 # 2)).

(** [xs.reduce((a, b) => a + b, 0)] *)
Definition sumQ (xs : list Q) : Q := fold_left Qplus xs 0.

(** [Math.max(...xs)] for a non-empty [xs] (the empty call is minus infinity,
    which [Q] does not have; the aggregator never makes it). *)
Definition Math_max (xs : list Q) : Q :=
  match xs with
  | [] => 0
  | x :: t => fold_left Qmax t x
  end.

(** [items[idx]] for an integer [idx]: [undefined] outside the array. *)
Definition index {A} (items : list A) (idx : Z) : option A :=
  if (idx <? 0)%Z then None else nth_error items (Z.to_nat idx).

(** [Array.prototype.sort] with a comparator, as ECMAScript 2019 and later
    specify it: a stable sort.  [leb a b] says that the comparator does not
    put [a] after [b] ([cmp(a, b) <= 0]).  An element is inserted behind
    every element that is not after it, so equal elements keep the order
    they had in the array. *)
Section Sort.
Variable A : Type.
Variable leb : A -> A -> bool.

Fixpoint insert (x : A) (sorted : list A) : list A :=
  match sorted with
  | [] => [x]
  | y :: rest => if leb y x then y :: insert x rest else x :: y :: rest
  end.

Definition sort (xs : list A) : list A :=
  fold_left (fun acc x => insert x acc) xs [].
End Sort.

(** ** The data model ([src/types.ts]) *)

Inductive ProductType := TypeA | TypeB | TypeC | TypeD.

Record SimulationConfig := mkConfig {
  duration : Q;
  mouldingMachines : Z;
  inspectionStations : Z;
  packagingMachines : Z;
  arrivalIntervalMean : Q;
  degradationCostPerMinute : Q;
  degradationThreshold : Q;
  replications : Z;
  seed : Z
}.

(** [{ ...config, seed: s }] *)
Definition with_seed (config : SimulationConfig) (s : Z) : SimulationConfig :=
  {| duration := duration config;
     mouldingMachines := mouldingMachines config;
     inspectionStations := inspectionStations config;
     packagingMachines := packagingMachines config;
     arrivalIntervalMean := arrivalIntervalMean config;
     degradationCostPerMinute := degradationCostPerMinute config;
     degradationThreshold := degradationThreshold config;
     replications := replications config;
     seed := s |}.

(** [{ ...config, replications: n }] *)
Definition with_replications (config : SimulationConfig) (n : Z)
  : SimulationConfig :=
  {| duration := duration config;
     mouldingMachines := mouldingMachines config;
     inspectionStations := inspectionStations config;
     packagingMachines := packagingMachines config;
     arrivalIntervalMean := arrivalIntervalMean config;
     degradationCostPerMinute := degradationCostPerMinute config;
     degradationThreshold := degradationThreshold config;
     replications := n;
     seed := seed config |}.

(** A job.  [productType] is optional because [choice] indexes an array and
    an index outside it yields [undefined]; the timestamps are optional in
    the source. *)
Record Job := mkJob {
  id : Z;
  productType : option ProductType;
  arrivalTime : Q;
  mouldingStartTime : option Q;
  mouldingEndTime : option Q;
  inspectionStartTime : option Q;
  inspectionEndTime : option Q;
  packagingStartTime : option Q;
  packagingEndTime : option Q;
  finished : bool
}.

Module WaitStats.
Record t := mk { avg : Q; p90 : Q; max : Q }.
End WaitStats.

Module ConfidenceInterval.
Record t := mk { mean : Q; lower : Q; upper : Q }.
End ConfidenceInterval.

(** The three-field objects [{ moulding, inspection, packaging }]. *)
Record PerStage (A : Type) := mkPerStage {
  moulding : A;
  inspection : A;
  packaging : A
}.

Record SimulationStats := mkStats {
  totalJobs : Z;
  completedJobs : Z;
  throughput : Q;
  avgWip : Q;
  serviceLevel : Q;
  avgLeadTime : Q;
  leadTimeCI : ConfidenceInterval.t;
  totalDegradationCost : Q;
  avgDegradationCostPerPart : Q;
  costCI : ConfidenceInterval.t;
  waitTimes : PerStage (list Q);
  waitStats : PerStage WaitStats.t;
  machineUtilization : PerStage Q
}.

(** ** The random stream (class [Random]) *)

Module Random.

Record t := mk { seed : Z }.

(** [this.seed = (this.seed * 9301 + 49297) % 233280;
    return this.seed / 233280], in exact integer arithmetic: the value
    of the doubles while [|seed * 9301 + 49297| < 2^53] (see
    [nextDouble] for the step from a larger seed). *)
Definition next (r : t) : Q * t :=
  let s := Z.rem (seed r * 9301 + 49297) 233280 in
  (inject_Z s / 233280, mk s).

Section Exponential.
Variable Math_log : Q -> Q.

(** [-Math.log(1 - this.next()) * mean] *)
Definition exponential (mean : Q) (r : t) : Q * t :=
  let (u, r') := next r in
  (- Math_log (1 - u) * mean, r').
End Exponential.

(** [items[Math.floor(this.next() * items.length)]] *)
Definition choice {A} (items : list A) (r : t) : option A * t :=
  let (u, r') := next r in
  let idx := Qfloor (u * inject_Z (Z.of_nat (length items))) in
  (index items idx, r').

(** The stream after [n] draws. *)
Fixpoint after (n : nat) (r : t) : t :=
  match n with
  | O => r
  | S k => after k (snd (next r))
  end.

End Random.

(** ** Events, jobs in the arena, the scheduler *)

Inductive EventType :=
  ARRIVAL | MOULDING_FINISH | INSPECTION_FINISH | PACKAGING_FINISH.

(** [job] is the index of the job in the arena (set for finish events). *)
Record SimEvent := mkEvent {
  time : Q;
  type : EventType;
  job : option nat
}.

(** The stage argument of [getProcessTime]:
    ['moulding' | 'inspection' | 'packaging']. *)
Inductive Stage := Moulding | Inspection | Packaging.

(** The comparator [(a, b) => a.time - b.time] is not positive. *)
Definition time_leb (a b : SimEvent) : bool := Qle_bool (time a) (time b).

(** [queue.push({ type, time, job }); queue.sort((a, b) => a.time - b.time)] *)
Definition schedule (queue : list SimEvent) (ty : EventType) (t : Q)
    (j : option nat) : list SimEvent :=
  sort time_leb (queue ++ [mkEvent t ty j]).

(** Assignments to the fields of a job. *)
Definition set_mouldingStartTime (t : Q) (j : Job) : Job :=
  {| id := id j; productType := productType j; arrivalTime := arrivalTime j;
     mouldingStartTime := Some t;
     mouldingEndTime := mouldingEndTime j;
     inspectionStartTime := inspectionStartTime j;
     inspectionEndTime := inspectionEndTime j;
     packagingStartTime := packagingStartTime j;
     packagingEndTime := packagingEndTime j;
     finished := finished j |}.

Definition set_mouldingEndTime (t : Q) (j : Job) : Job :=
  {| id := id j; productType := productType j; arrivalTime := arrivalTime j;
     mouldingStartTime := mouldingStartTime j;
     mouldingEndTime := Some t;
     inspectionStartTime := inspectionStartTime j;
     inspectionEndTime := inspectionEndTime j;
     packagingStartTime := packagingStartTime j;
     packagingEndTime := packagingEndTime j;
     finished := finished j |}.

Definition set_inspectionStartTime (t : Q) (j : Job) : Job :=
  {| id := id j; productType := productType j; arrivalTime := arrivalTime j;
     mouldingStartTime := mouldingStartTime j;
     mouldingEndTime := mouldingEndTime j;
     inspectionStartTime := Some t;
     inspectionEndTime := inspectionEndTime j;
     packagingStartTime := packagingStartTime j;
     packagingEndTime := packagingEndTime j;
     finished := finished j |}.

Definition set_inspectionEndTime (t : Q) (j : Job) : Job :=
  {| id := id j; productType := productType j; arrivalTime := arrivalTime j;
     mouldingStartTime := mouldingStartTime j;
     mouldingEndTime := mouldingEndTime j;
     inspectionStartTime := inspectionStartTime j;
     inspectionEndTime := Some t;
     packagingStartTime := packagingStartTime j;
     packagingEndTime := packagingEndTime j;
     finished := finished j |}.

Definition set_packagingStartTime (t : Q) (j : Job) : Job :=
  {| id := id j; productType := productType j; arrivalTime := arrivalTime j;
     mouldingStartTime := mouldingStartTime j;
     mouldingEndTime := mouldingEndTime j;
     inspectionStartTime := inspectionStartTime j;
     inspectionEndTime := inspectionEndTime j;
     packagingStartTime := Some t;
     packagingEndTime := packagingEndTime j;
     finished := finished j |}.

(** [pJob.packagingEndTime = currentTime] *)
Definition set_packagingEndTime (t : Q) (j : Job) : Job :=
  {| id := id j; productType := productType j; arrivalTime := arrivalTime j;
     mouldingStartTime := mouldingStartTime j;
     mouldingEndTime := mouldingEndTime j;
     inspectionStartTime := inspectionStartTime j;
     inspectionEndTime := inspectionEndTime j;
     packagingStartTime := packagingStartTime j;
     packagingEndTime := Some t;
     finished := finished j |}.

(** [pJob.finished = true] *)
Definition set_finished (j : Job) : Job :=
  {| id := id j; productType := productType j; arrivalTime := arrivalTime j;
     mouldingStartTime := mouldingStartTime j;
     mouldingEndTime := mouldingEndTime j;
     inspectionStartTime := inspectionStartTime j;
     inspectionEndTime := inspectionEndTime j;
     packagingStartTime := packagingStartTime j;
     packagingEndTime := packagingEndTime j;
     finished := true |}.

(** A field assignment through a reference: the arena changes at index [n],
    and every holder of the reference sees the change. *)
Fixpoint update {A} (n : nat) (f : A -> A) (l : list A) : list A :=
  match l, n with
  | [], _ => []
  | x :: rest, O => f x :: rest
  | x :: rest, S k => x :: update k f rest
  end.

(** The local variables of [runSingleSimulation] while the loop runs. *)
Record SimState := mkState {
  random : Random.t;
  currentTime : Q;
  queue : list SimEvent;
  jobs : list Job;
  mouldingFree : Z;
  inspectionFree : Z;
  packagingFree : Z;
  mouldingQueue : list nat;
  inspectionQueue : list nat;
  packagingQueue : list nat;
  totalMouldingBusyTime : Q;
  totalInspectionBusyTime : Q;
  totalPackagingBusyTime : Q;
  lastEventTime : Q;
  wipArea : Q;
  currentWip : Z
}.

(** ** The single-run simulator ([runSingleSimulation]) *)

Section SingleRun.
Variable Math_log : Q -> Q.
Variable config : SimulationConfig.

(** [getProcessTime(stage, type)]: the base mean of the product type (10
    when no case matches), scaled for inspection and packaging, then one
    exponential draw. *)
Definition baseMean (stage : Stage) (ty : option ProductType) : Q :=
  let base :=
    match ty with
    | Some TypeA => 10
    | Some TypeB => 15
    | Some TypeC => 20
    | Some TypeD => 12
    | None => 10
    end in
  match stage with
  | Moulding => base
  | Inspection => base * (8 # 10)
  | Packaging => base * (6 # 10)
  end.

Definition getProcessTime (stage : Stage) (ty : option ProductType)
    (r : Random.t) : Q * Random.t :=
  Random.exponential Math_log (baseMean stage ty) r.

(** [if (job.xStartTime) total += (currentTime - job.xStartTime)] *)
Definition addBusyTime (total now : Q) (start : option Q) : Q :=
  match start with
  | Some t0 => if truthy (Some t0) then total + (now - t0) else total
  | None => total
  end.

(** The state before the loop: the first arrival is scheduled. *)
Definition initialState : SimState :=
  let (t0, r) :=
    Random.exponential Math_log (arrivalIntervalMean config)
      (Random.mk (seed config)) in
  {| random := r;
     currentTime := 0;
     queue := schedule [] ARRIVAL t0 None;
     jobs := [];
     mouldingFree := mouldingMachines config;
     inspectionFree := inspectionStations config;
     packagingFree := packagingMachines config;
     mouldingQueue := [];
     inspectionQueue := [];
     packagingQueue := [];
     totalMouldingBusyTime := 0;
     totalInspectionBusyTime := 0;
     totalPackagingBusyTime := 0;
     lastEventTime := 0;
     wipArea := 0;
     currentWip := 0 |}.

(** [case EventType.ARRIVAL] *)
Definition onArrival (s : SimState) : option SimState :=
  let now := currentTime s in
  let (ty, r1) := Random.choice [TypeA; TypeB; TypeC; TypeD] (random s) in
  let j := length (jobs s) in
  let newJob :=
    {| id := Z.of_nat (length (jobs s)) + 1;
       productType := ty;
       arrivalTime := now;
       mouldingStartTime := None;
       mouldingEndTime := None;
       inspectionStartTime := None;
       inspectionEndTime := None;
       packagingStartTime := None;
       packagingEndTime := None;
       finished := false |} in
  let jobs1 := jobs s ++ [newJob] in
  let (dt, r2) :=
    Random.exponential Math_log (arrivalIntervalMean config) r1 in
  let nextArrival := now + dt in
  let q1 :=
    if Qltb nextArrival (duration config)
    then schedule (queue s) ARRIVAL nextArrival None
    else queue s in
  let '(free2, mq2, jobs2, r3, q2) :=
    if (0 <? mouldingFree s)%Z then
      let (d, r') := getProcessTime Moulding ty r2 in
      ((mouldingFree s - 1)%Z, mouldingQueue s,
       update j (set_mouldingStartTime now) jobs1, r',
       schedule q1 MOULDING_FINISH (now + d) (Some j))
    else
      (mouldingFree s, mouldingQueue s ++ [j], jobs1, r2, q1) in
  Some {| random := r3;
          currentTime := now;
          queue := q2;
          jobs := jobs2;
          mouldingFree := free2;
          inspectionFree := inspectionFree s;
          packagingFree := packagingFree s;
          mouldingQueue := mq2;
          inspectionQueue := inspectionQueue s;
          packagingQueue := packagingQueue s;
          totalMouldingBusyTime := totalMouldingBusyTime s;
          totalInspectionBusyTime := totalInspectionBusyTime s;
          totalPackagingBusyTime := totalPackagingBusyTime s;
          lastEventTime := lastEventTime s;
          wipArea := wipArea s;
          currentWip := (currentWip s + 1)%Z |}.

(** [case EventType.MOULDING_FINISH] *)
Definition onMouldingFinish (s : SimState) (e : SimEvent)
  : option SimState :=
  let now := currentTime s in
  j <- job e ;;
  mJob <- nth_error (jobs s) j ;;
  let jobs1 := update j (set_mouldingEndTime now) (jobs s) in
  let busy := addBusyTime (totalMouldingBusyTime s) now (mouldingStartTime mJob) in
  let free1 := (mouldingFree s + 1)%Z in
  handed <-
    match mouldingQueue s with
    | [] => Some (free1, [], jobs1, random s, queue s)
    | n :: rest =>
        next <- nth_error jobs1 n ;;
        let (d, r') := getProcessTime Moulding (productType next) (random s) in
        Some ((free1 - 1)%Z, rest,
              update n (set_mouldingStartTime now) jobs1, r',
              schedule (queue s) MOULDING_FINISH (now + d) (Some n))
    end ;;
  let '(free2, mq2, jobs2, r2, q2) := handed in
  let '(ifree3, iq3, jobs3, r3, q3) :=
    if (0 <? inspectionFree s)%Z then
      let (d, r') := getProcessTime Inspection (productType mJob) r2 in
      ((inspectionFree s - 1)%Z, inspectionQueue s,
       update j (set_inspectionStartTime now) jobs2, r',
       schedule q2 INSPECTION_FINISH (now + d) (Some j))
    else
      (inspectionFree s, inspectionQueue s ++ [j], jobs2, r2, q2) in
  Some {| random := r3;
          currentTime := now;
          queue := q3;
          jobs := jobs3;
          mouldingFree := free2;
          inspectionFree := ifree3;
          packagingFree := packagingFree s;
          mouldingQueue := mq2;
          inspectionQueue := iq3;
          packagingQueue := packagingQueue s;
          totalMouldingBusyTime := busy;
          totalInspectionBusyTime := totalInspectionBusyTime s;
          totalPackagingBusyTime := totalPackagingBusyTime s;
          lastEventTime := lastEventTime s;
          wipArea := wipArea s;
          currentWip := currentWip s |}.

(** [case EventType.INSPECTION_FINISH] *)
Definition onInspectionFinish (s : SimState) (e : SimEvent)
  : option SimState :=
  let now := currentTime s in
  j <- job e ;;
  iJob <- nth_error (jobs s) j ;;
  let jobs1 := update j (set_inspectionEndTime now) (jobs s) in
  let busy := addBusyTime (totalInspectionBusyTime s) now (inspectionStartTime iJob) in
  let free1 := (inspectionFree s + 1)%Z in
  handed <-
    match inspectionQueue s with
    | [] => Some (free1, [], jobs1, random s, queue s)
    | n :: rest =>
        next <- nth_error jobs1 n ;;
        let (d, r') :=
          getProcessTime Inspection (productType next) (random s) in
        Some ((free1 - 1)%Z, rest,
              update n (set_inspectionStartTime now) jobs1, r',
              schedule (queue s) INSPECTION_FINISH (now + d) (Some n))
    end ;;
  let '(free2, iq2, jobs2, r2, q2) := handed in
  let '(pfree3, pq3, jobs3, r3, q3) :=
    if (0 <? packagingFree s)%Z then
      let (d, r') := getProcessTime Packaging (productType iJob) r2 in
      ((packagingFree s - 1)%Z, packagingQueue s,
       update j (set_packagingStartTime now) jobs2, r',
       schedule q2 PACKAGING_FINISH (now + d) (Some j))
    else
      (packagingFree s, packagingQueue s ++ [j], jobs2, r2, q2) in
  Some {| random := r3;
          currentTime := now;
          queue := q3;
          jobs := jobs3;
          mouldingFree := mouldingFree s;
          inspectionFree := free2;
          packagingFree := pfree3;
          mouldingQueue := mouldingQueue s;
          inspectionQueue := iq2;
          packagingQueue := pq3;
          totalMouldingBusyTime := totalMouldingBusyTime s;
          totalInspectionBusyTime := busy;
          totalPackagingBusyTime := totalPackagingBusyTime s;
          lastEventTime := lastEventTime s;
          wipArea := wipArea s;
          currentWip := currentWip s |}.

(** [case EventType.PACKAGING_FINISH] *)
Definition onPackagingFinish (s : SimState) (e : SimEvent)
  : option SimState :=
  let now := currentTime s in
  j <- job e ;;
  pJob <- nth_error (jobs s) j ;;
  let jobs1 :=
    update j (fun x => set_finished (set_packagingEndTime now x)) (jobs s) in
  let busy := addBusyTime (totalPackagingBusyTime s) now (packagingStartTime pJob) in
  let free1 := (packagingFree s + 1)%Z in
  handed <-
    match packagingQueue s with
    | [] => Some (free1, [], jobs1, random s, queue s)
    | n :: rest =>
        next <- nth_error jobs1 n ;;
        let (d, r') :=
          getProcessTime Packaging (productType next) (random s) in
        Some ((free1 - 1)%Z, rest,
              update n (set_packagingStartTime now) jobs1, r',
              schedule (queue s) PACKAGING_FINISH (now + d) (Some n))
    end ;;
  let '(free2, pq2, jobs2, r2, q2) := handed in
  Some {| random := r2;
          currentTime := now;
          queue := q2;
          jobs := jobs2;
          mouldingFree := mouldingFree s;
          inspectionFree := inspectionFree s;
          packagingFree := free2;
          mouldingQueue := mouldingQueue s;
          inspectionQueue := inspectionQueue s;
          packagingQueue := pq2;
          totalMouldingBusyTime := totalMouldingBusyTime s;
          totalInspectionBusyTime := totalInspectionBusyTime s;
          totalPackagingBusyTime := busy;
          lastEventTime := lastEventTime s;
          wipArea := wipArea s;
          currentWip := (currentWip s - 1)%Z |}.

(** The loop condition:
    [queue.length > 0 && currentTime < config.duration]. *)
Definition running (s : SimState) : bool :=
  match queue s with
  | [] => false
  | _ :: _ => Qltb (currentTime s) (duration config)
  end.

(** One iteration of the loop body: take the head of the queue, add the
    elapsed interval to the WIP area, move the clock, handle the event. *)
Definition step (s : SimState) : option SimState :=
  match queue s with
  | [] => None
  | event :: rest =>
      let s1 :=
        {| random := random s;
           currentTime := time event;
           queue := rest;
           jobs := jobs s;
           mouldingFree := mouldingFree s;
           inspectionFree := inspectionFree s;
           packagingFree := packagingFree s;
           mouldingQueue := mouldingQueue s;
           inspectionQueue := inspectionQueue s;
           packagingQueue := packagingQueue s;
           totalMouldingBusyTime := totalMouldingBusyTime s;
           totalInspectionBusyTime := totalInspectionBusyTime s;
           totalPackagingBusyTime := totalPackagingBusyTime s;
           lastEventTime := time event;
           wipArea :=
             wipArea s
             + inject_Z (currentWip s) * (time event - lastEventTime s);
           currentWip := currentWip s |} in
      match type event with
      | ARRIVAL => onArrival s1
      | MOULDING_FINISH => onMouldingFinish s1 event
      | INSPECTION_FINISH => onInspectionFinish s1 event
      | PACKAGING_FINISH => onPackagingFinish s1 event
      end
  end.

(** The [while] loop.  [None]: the fuel ran out before the loop condition
    failed, or a handler followed a missing job reference. *)
Fixpoint loop (fuel : nat) (s : SimState) : option SimState :=
  if running s then
    match fuel with
    | O => None
    | S fuel' => s' <- step s ;; loop fuel' s'
    end
  else Some s.

(** The events the loop takes from the queue, in the order it handles
    them, within [fuel] iterations. *)
Fixpoint processed (fuel : nat) (s : SimState) : list SimEvent :=
  match fuel with
  | O => []
  | S fuel' =>
      if running s then
        match queue s, step s with
        | event :: _, Some s' => event :: processed fuel' s'
        | event :: _, None => [event]
        | [], _ => []
        end
      else []
  end.

(** *** Statistics of the run *)

(** The accumulators of the [jobs.forEach] pass. *)
Record Tally := mkTally {
  waits_m : list Q;
  waits_i : list Q;
  waits_p : list Q;
  totalLeadTime : Q;
  totalDegradation : Q
}.

(** The degradation cost of one inspection wait:
    [Math.max(0, wait - threshold) * costPerMinute]. *)
Definition degradationOf (wait : Q) : Q :=
  Qmax 0 (wait - degradationThreshold config)
  * degradationCostPerMinute config.

(** The body of [jobs.forEach(job => ...)]. *)
Definition tally (acc : Tally) (j : Job) : Tally :=
  let wm :=
    match mouldingStartTime j with
    | Some ms =>
        if truthy (Some ms) then waits_m acc ++ [ms - arrivalTime j]
        else waits_m acc
    | None => waits_m acc
    end in
  let '(wi, deg) :=
    match inspectionStartTime j, mouldingEndTime j with
    | Some is_, Some me =>
        if truthy (Some is_) && truthy (Some me) then
          let wait := is_ - me in
          (waits_i acc ++ [wait], totalDegradation acc + degradationOf wait)
        else (waits_i acc, totalDegradation acc)
    | _, _ => (waits_i acc, totalDegradation acc)
    end in
  let wp :=
    match packagingStartTime j, inspectionEndTime j with
    | Some ps, Some ie =>
        if truthy (Some ps) && truthy (Some ie)
        then waits_p acc ++ [ps - ie]
        else waits_p acc
    | _, _ => waits_p acc
    end in
  let lead :=
    match packagingEndTime j with
    | Some pe =>
        if finished j && truthy (Some pe)
        then totalLeadTime acc + (pe - arrivalTime j)
        else totalLeadTime acc
    | None => totalLeadTime acc
    end in
  {| waits_m := wm; waits_i := wi; waits_p := wp;
     totalLeadTime := lead; totalDegradation := deg |}.

Definition tallyJobs (js : list Job) : Tally :=
  fold_left tally js
    {| waits_m := []; waits_i := []; waits_p := [];
       totalLeadTime := 0; totalDegradation := 0 |}.

(** [arr.sort((a, b) => a - b)]: the array is sorted in place, so the
    [waitTimes] of the result, which hold the same arrays, are sorted
    too. *)
Definition sortNumbers (arr : list Q) : list Q := sort Qle_bool arr.

(** [calcStats(arr)], on the array as sorted. *)
Definition calcStats (arr : list Q) : WaitStats.t :=
  match arr with
  | [] => WaitStats.mk 0 0 0
  | _ :: _ =>
      let sorted := sortNumbers arr in
      let len := inject_Z (Z.of_nat (length sorted)) in
      let p90Idx := Qfloor (len * (9 # 10)) in
      WaitStats.mk (sumQ sorted / len)
                   (nth (Z.to_nat p90Idx) sorted 0)
                   (last sorted 0)
  end.

(** The statistics computed after the loop. *)
Definition statistics (s : SimState) : SimulationStats :=
  let completed := filter finished (jobs s) in
  let nJobs := inject_Z (Z.of_nat (length (jobs s))) in
  let nCompleted := inject_Z (Z.of_nat (length completed)) in
  let t := tallyJobs (jobs s) in
  let avgLead := safeDiv (totalLeadTime t) nCompleted in
  let avgCost := safeDiv (totalDegradation t) nJobs in
  let serviceThreshold := 5 in
  let goodServiceCount :=
    length (filter (fun w => Qltb w serviceThreshold) (waits_i t)) in
  {| totalJobs := Z.of_nat (length (jobs s));
     completedJobs := Z.of_nat (length completed);
     throughput := nCompleted / (duration config / 60);
     avgWip := safeDiv (wipArea s) (duration config);
     serviceLevel :=
       safeDiv (inject_Z (Z.of_nat goodServiceCount))
               (inject_Z (Z.of_nat (length (waits_i t))));
     avgLeadTime := avgLead;
     leadTimeCI := ConfidenceInterval.mk avgLead avgLead avgLead;
     totalDegradationCost := totalDegradation t;
     avgDegradationCostPerPart := avgCost;
     costCI := ConfidenceInterval.mk avgCost avgCost avgCost;
     waitTimes :=
       {| moulding := sortNumbers (waits_m t);
          inspection := sortNumbers (waits_i t);
          packaging := sortNumbers (waits_p t) |};
     waitStats :=
       {| moulding := calcStats (waits_m t);
          inspection := calcStats (waits_i t);
          packaging := calcStats (waits_p t) |};
     machineUtilization :=
       {| moulding :=
            safeDiv (totalMouldingBusyTime s)
                    (duration config * inject_Z (mouldingMachines config));
          inspection :=
            safeDiv (totalInspectionBusyTime s)
                    (duration config * inject_Z (inspectionStations config));
          packaging :=
            safeDiv (totalPackagingBusyTime s)
                    (duration config * inject_Z (packagingMachines config))
       |} |}.

Definition runSingleSimulation (fuel : nat) : option SimulationStats :=
  s <- loop fuel initialState ;; Some (statistics s).

End SingleRun.

(** ** The replication aggregator ([run], [aggregateResults]) *)

Definition stageOf {A} (key : Stage) (p : PerStage A) : A :=
  match key with
  | Moulding => moulding p
  | Inspection => inspection p
  | Packaging => packaging p
  end.

(** All the results, or none when one of the runs gave none. *)
Fixpoint collect {A} (xs : list (option A)) : option (list A) :=
  match xs with
  | [] => Some []
  | x :: rest => v <- x ;; vs <- collect rest ;; Some (v :: vs)
  end.

(** The values of [i] in [for (let i = 0; i < runs; i++)]. *)
Definition indices (runs : Z) : list Z :=
  map Z.of_nat (seq 0 (Z.to_nat runs)).

Section Engine.
Variable Math_log : Q -> Q.
Variable Math_sqrt : Q -> Q.

(** [aggregateResults(runs)].  The empty array (never passed by [run])
    would give NaN statistics, which [Q] does not have: [None]. *)
Definition aggregateResults (runs : list SimulationStats)
  : option SimulationStats :=
  match runs with
  | [] => None
  | [only] => Some only
  | _ :: _ :: _ =>
      let count := inject_Z (Z.of_nat (length runs)) in
      let avg (extractor : SimulationStats -> Q) : Q :=
        fold_left (fun sum s => sum + extractor s) runs 0 / count in
      let calcCI (extractor : SimulationStats -> Q) :=
        let values := map extractor runs in
        let mean := sumQ values / count in
        let variance :=
          fold_left (fun sum v => sum + (v - mean) ^ 2) values 0
          / (if Qeq_bool (count - 1) 0 then 1 else count - 1) in
        let stdDev := Math_sqrt variance in
        let margin := (196 # 100) * (stdDev / Math_sqrt count) in
        ConfidenceInterval.mk mean (mean - margin) (mean + margin) in
      let combineWaits (key : Stage) : list Q :=
        fold_left (fun arr s => arr ++ stageOf key (waitTimes s)) runs [] in
      let avgWaitStat (key : Stage) : WaitStats.t :=
        WaitStats.mk
          (avg (fun s => WaitStats.avg (stageOf key (waitStats s))))
          (avg (fun s => WaitStats.p90 (stageOf key (waitStats s))))
          (Math_max
             (map (fun s => WaitStats.max (stageOf key (waitStats s))) runs))
      in
      Some
        {| totalJobs := Math_round (avg (fun s => inject_Z (totalJobs s)));
           completedJobs :=
             Math_round (avg (fun s => inject_Z (completedJobs s)));
           throughput := avg throughput;
           avgWip := avg avgWip;
           serviceLevel := avg serviceLevel;
           avgLeadTime := avg avgLeadTime;
           leadTimeCI := calcCI avgLeadTime;
           totalDegradationCost := avg totalDegradationCost;
           avgDegradationCostPerPart := avg avgDegradationCostPerPart;
           costCI := calcCI avgDegradationCostPerPart;
           waitTimes :=
             {| moulding := combineWaits Moulding;
                inspection := combineWaits Inspection;
                packaging := combineWaits Packaging |};
           waitStats :=
             {| moulding := avgWaitStat Moulding;
                inspection := avgWaitStat Inspection;
                packaging := avgWaitStat Packaging |};
           machineUtilization :=
             {| moulding :=
                  avg (fun s => moulding (machineUtilization s));
                inspection :=
                  avg (fun s => inspection (machineUtilization s));
                packaging :=
                  avg (fun s => packaging (machineUtilization s)) |} |}
  end.

(** The per-replication results of [run], in the order of the loop:
    replication [i] runs [{ ...config, seed: config.seed + i }]. *)
Definition replicationResults (fuel : nat) (config : SimulationConfig)
  : list (option SimulationStats) :=
  let runs := Z.max 1 (replications config) in
  map (fun i =>
         runSingleSimulation Math_log
           (with_seed config (seed config + i)%Z) fuel)
      (indices runs).

(** [run()] *)
Definition run (fuel : nat) (config : SimulationConfig)
  : option SimulationStats :=
  results <- collect (replicationResults fuel config) ;;
  aggregateResults results.

End Engine.

(** ** A computable stand-in for the host's logarithm and square root

    [ln_pade x = 2 (x - 1) / (x + 1)] lies inside the bracket
    [1 - 1/x <= . <= x - 1] on [(0, 1]], like the natural logarithm; it is
    used only to execute the model on concrete configurations. *)
Definition ln_pade (x : Q) : Q := 2 * (x - 1) / (x + 1).

(** A rational lower approximation of the square root (Newton steps are
    not needed by any statement; the integer square root of the scaled
    argument suffices to execute the aggregator). *)
Definition sqrt_floor (x : Q) : Q :=
  inject_Z (Z.sqrt (Qfloor (x * 1000000))) / 1000.

(** ** The scheduler as a sequence of calls

    The loop touches [queue] in two ways only: [schedule(...)] and
    [queue.shift()].  To speak of the order of the calls, the second model
    numbers them: an event carries the number of the [schedule] call that
    inserted it, and the comparator still reads the time alone. *)

Inductive QueueOp :=
| Schedule (ty : EventType) (t : Q) (j : option nat)
| Shift.

(** The queue as the code keeps it. *)
Definition applyOp (queue : list SimEvent) (op : QueueOp) : list SimEvent :=
  match op with
  | Schedule ty t j => schedule queue ty t j
  | Shift => tl queue
  end.

Definition stamped_leb (a b : (nat * SimEvent)) : bool := time_leb (snd a) (snd b).

(** The numbered queue: the next call number and the pending events. *)
Definition applyStamped (st : nat * list (nat * SimEvent)) (op : QueueOp)
  : nat * list (nat * SimEvent) :=
  match op with
  | Schedule ty t j =>
      (S (fst st), sort stamped_leb (snd st ++ [(fst st, mkEvent t ty j)]))
  | Shift => (fst st, tl (snd st))
  end.

(** [a] is handled before [b]: earlier in time, or at the same time and
    scheduled by an earlier call. *)
Definition handledBefore (a b : (nat * SimEvent)) : Prop :=
  time (snd a) < time (snd b)
  \/ (time (snd a) == time (snd b) /\ (fst a < fst b)%nat).

(** ** What is assumed of the host's logarithm

    On [(0, 1]] the natural logarithm satisfies
    [1 - 1/x <= ln x <= x - 1]; the lower bound is written without the
    division.  Every faithful [Math.log] is within this bracket (up to its
    last bit). *)
Definition log_bracket (L : Q -> Q) : Prop :=
  forall x, 0 < x -> x <= 1 -> x - 1 <= x * L x /\ L x <= x - 1.

(** ** The integral of the WIP curve, from the spec's words

    Instantaneous WIP starts at 0, goes up by one at each Arrival and down
    by one at each PackagingFinish.  Over the window [[0, horizon]] an
    event at time [t <= horizon] therefore contributes its jump times the
    rest of the window, [horizon - t], and an event after the window
    contributes nothing. *)
Definition wipJump (e : SimEvent) : Q :=
  match type e with
  | ARRIVAL => 1
  | PACKAGING_FINISH => -1
  | MOULDING_FINISH | INSPECTION_FINISH => 0
  end.

Definition wipIntegral (horizon : Q) (events : list SimEvent) : Q :=
  sumQ (map (fun e => wipJump e * Qmax 0 (horizon - time e)) events).

(** ** The degradation cost, from the spec's words

    The cost of one job that reached Inspection is
    [max(0, (inspectionStart - mouldingEnd) - degradationThreshold)
     * degradationCostPerMinute]; the total is the sum over the jobs whose
    inspection start timestamp is set. *)
Definition reachedInspection (j : Job) : bool :=
  match inspectionStartTime j with
  | Some _ => true
  | None => false
  end.

Definition jobDegradationCost (config : SimulationConfig) (j : Job) : Q :=
  match inspectionStartTime j, mouldingEndTime j with
  | Some inspectionStart, Some mouldingEnd =>
      Qmax 0 ((inspectionStart - mouldingEnd) - degradationThreshold config)
      * degradationCostPerMinute config
  | _, _ => 0
  end.

Definition degradationCostSpec (config : SimulationConfig) (js : list Job)
  : Q :=
  sumQ (map (jobDegradationCost config) (filter reachedInspection js)).

(** ** Invariants of the loop on a valid configuration *)

(** The moulding end of the job is stamped, with a positive time. *)
Definition mouldingEnded (j : Job) : Prop :=
  exists t, mouldingEndTime j = Some t /\ 0 < t.

(** A stamped inspection start is positive and comes with a stamped,
    positive moulding end. *)
Definition inspectionSound (j : Job) : Prop :=
  forall t, inspectionStartTime j = Some t -> 0 < t /\ mouldingEnded j.

(** The state before the loop when the first draw is exactly 0: the
    first arrival is at time 0 and the generator is in state 0. *)
Definition zeroStart (s : SimState) : Prop :=
  random s = Random.mk 0
  /\ jobs s = []
  /\ inspectionQueue s = []
  /\ exists t, queue s = [mkEvent t ARRIVAL None] /\ 0 <= t.

(** The reference [n] leads to a job whose moulding has ended. *)
Definition endedAt (js : list Job) (n : nat) : Prop :=
  exists j, nth_error js n = Some j /\ mouldingEnded j.

Record Sound (s : SimState) : Prop := mkSound {
  sound_random : (0 <= Random.seed (random s) < 233280)%Z;
  sound_jobs : Forall inspectionSound (jobs s);
  sound_waiting : Forall (endedAt (jobs s)) (inspectionQueue s);
  sound_queue : Forall (fun e => 0 < time e) (queue s) \/ zeroStart s
}.

(** ** Concrete configurations

    [shiftConfig] is a short shift on one machine per stage;
    [overshootConfig] is the same line observed for two minutes only. *)
Definition shiftConfig : SimulationConfig :=
  {| duration := 30;
     mouldingMachines := 1;
     inspectionStations := 1;
     packagingMachines := 1;
     arrivalIntervalMean := 5;
     degradationCostPerMinute := 25 # 10;
     degradationThreshold := 0;
     replications := 1;
     seed := 42 |}.

Definition overshootConfig : SimulationConfig :=
  {| duration := 2;
     mouldingMachines := 1;
     inspectionStations := 1;
     packagingMachines := 1;
     arrivalIntervalMean := 5;
     degradationCostPerMinute := 25 # 10;
     degradationThreshold := 0;
     replications := 1;
     seed := 0 |}.

(** ** States the loop reaches, and what an event does to the counters *)

(** The states at the head of an iteration of the [while] loop. *)
Inductive Reachable (Math_log : Q -> Q) (config : SimulationConfig)
  : SimState -> Prop :=
| reach_initial : Reachable Math_log config (initialState Math_log config)
| reach_step (s s' : SimState) :
    Reachable Math_log config s ->
    running config s = true ->
    step Math_log config s = Some s' ->
    Reachable Math_log config s'.

(** [currentWip++] on an arrival, [currentWip--] on a packaging finish. *)
Definition wipDelta (e : SimEvent) : Z :=
  match type e with
  | ARRIVAL => 1
  | PACKAGING_FINISH => -1
  | MOULDING_FINISH | INSPECTION_FINISH => 0
  end.

Definition isType (ty : EventType) (e : SimEvent) : bool :=
  match ty, type e with
  | ARRIVAL, ARRIVAL => true
  | MOULDING_FINISH, MOULDING_FINISH => true
  | INSPECTION_FINISH, INSPECTION_FINISH => true
  | PACKAGING_FINISH, PACKAGING_FINISH => true
  | _, _ => false
  end.

(** The number of pending events of one type. *)
Definition pending (ty : EventType) (q : list SimEvent) : Z :=
  Z.of_nat (length (filter (isType ty) q)).

(** The bookkeeping of servers and jobs: a server is either free or has a
    finish event pending; a job in the system is waiting or in service;
    nobody waits while a server is free. *)
Record Accounted (config : SimulationConfig) (s : SimState) : Prop :=
  mkAccounted {
  acc_moulding :
    (mouldingFree s + pending MOULDING_FINISH (queue s)
     = mouldingMachines config)%Z;
  acc_inspection :
    (inspectionFree s + pending INSPECTION_FINISH (queue s)
     = inspectionStations config)%Z;
  acc_packaging :
    (packagingFree s + pending PACKAGING_FINISH (queue s)
     = packagingMachines config)%Z;
  acc_wip :
    (currentWip s
     = Z.of_nat (length (mouldingQueue s))
       + Z.of_nat (length (inspectionQueue s))
       + Z.of_nat (length (packagingQueue s))
       + pending MOULDING_FINISH (queue s)
       + pending INSPECTION_FINISH (queue s)
       + pending PACKAGING_FINISH (queue s))%Z;
  acc_moulding_wait : mouldingQueue s <> [] -> (mouldingFree s <= 0)%Z;
  acc_inspection_wait : inspectionQueue s <> [] -> (inspectionFree s <= 0)%Z;
  acc_packaging_wait : packagingQueue s <> [] -> (packagingFree s <= 0)%Z;
  acc_arrivals : (0 <= pending ARRIVAL (queue s) <= 1)%Z;
  acc_moulding_free :
    (0 <= mouldingMachines config)%Z -> (0 <= mouldingFree s)%Z;
  acc_inspection_free :
    (0 <= inspectionStations config)%Z -> (0 <= inspectionFree s)%Z;
  acc_packaging_free :
    (0 <= packagingMachines config)%Z -> (0 <= packagingFree s)%Z
}.

(** The state after at most [n] iterations of the loop. *)
Fixpoint advance (Math_log : Q -> Q) (config : SimulationConfig) (n : nat)
    (s : SimState) : SimState :=
  match n with
  | O => s
  | S k =>
      if running config s then
        match step Math_log config s with
        | Some s' => advance Math_log config k s'
        | None => s
        end
      else s
  end.

(** Job identifiers are the positions in the [jobs] array, counted from 1. *)
Definition idsSequential (js : list Job) : Prop :=
  forall k x, nth_error js k = Some x -> id x = (Z.of_nat k + 1)%Z.

(** Every job has one of the four product types ([choice] never yielded
    [undefined]). *)
Definition typed (j : Job) : Prop := exists ty, productType j = Some ty.

(** The clock and the queue on a valid configuration: the generator is in
    range, the clock is not negative and is the time of the last event,
    nothing pending lies in the past, and the queue is in time order. *)
Record Timed (s : SimState) : Prop := mkTimed {
  timed_random : (0 <= Random.seed (random s) < 233280)%Z;
  timed_clock : 0 <= currentTime s;
  timed_last : lastEventTime s = currentTime s;
  timed_pending : Forall (fun e => currentTime s <= time e) (queue s);
  timed_sorted : StronglySorted (fun a b => time a <= time b) (queue s)
}.

(** The history of a state: the events handled so far explain the area
    and the counter. *)
Definition explains (past : list SimEvent) (s : SimState) : Prop :=
  wipArea s
    == sumQ (map (fun e => wipJump e * (lastEventTime s - time e)) past)
  /\ inject_Z (currentWip s) == sumQ (map wipJump past)
  /\ Forall (fun e => time e <= lastEventTime s) past.

(** ** The generator's first step in double arithmetic

    [this.seed * 9301 + 49297] is computed on IEEE-754 doubles.  On an
    integer the product and the sum are the exact results rounded to 53
    significant bits (to nearest, ties to even), or an infinity from
    [2^1024] on; the remainder of an infinity is NaN.  [roundDouble] is
    that rounding on integers ([None]: an infinity), and [nextDouble] the
    step of the generator with it, from the double nearest to the seed
    ([None]: the state, and with it every later draw, is NaN).
    [Random.next] is the same step in exact arithmetic; the two agree
    while [|seed * 9301 + 49297| < 2^53], which covers every state the
    generator takes after one draw. *)
Definition roundDouble (z : Z) : option Z :=
  let a := Z.abs z in
  let e := (Z.log2 a - 52)%Z in
  if (e <=? 0)%Z then Some z
  else
    let q := (a / 2 ^ e)%Z in
    let r := (a mod 2 ^ e)%Z in
    let half := (2 ^ (e - 1))%Z in
    let q' :=
      if (r <? half)%Z then q
      else if (half <? r)%Z then (q + 1)%Z
      else if Z.even q then q else (q + 1)%Z in
    let m := (q' * 2 ^ e)%Z in
    if (2 ^ 1024 <=? m)%Z then None else Some (Z.sgn z * m)%Z.

Definition nextDouble (seed0 : Z) : option (Q * Z) :=
  d <- roundDouble seed0 ;;
  p <- roundDouble (d * 9301) ;;
  s <- roundDouble (p + 49297) ;;
  let r := Z.rem s 233280 in
  Some (inject_Z r / 233280, r).

(** ** Configurations that describe the same line *)

(** Every field but [seed] and [replications] is the same. *)
Definition sameLine (a b : SimulationConfig) : Prop :=
  duration a = duration b
  /\ mouldingMachines a = mouldingMachines b
  /\ inspectionStations a = inspectionStations b
  /\ packagingMachines a = packagingMachines b
  /\ arrivalIntervalMean a = arrivalIntervalMean b
  /\ degradationCostPerMinute a = degradationCostPerMinute b
  /\ degradationThreshold a = degradationThreshold b.


Definition isSchedule (op : QueueOp) : bool :=
  match op with
  | Schedule _ _ _ => true
  | Shift => false
  end.

(** ** The calls of a run

    [History s ops handled]: the loop has reached [s]; [ops] are the calls
    of [schedule] and [queue.shift()] made so far, in order (the first
    arrival, then for each iteration its [shift] and the calls of its
    handler); [handled] are the events taken from the queue so far, each
    with the number of the call of [schedule] that inserted it. *)
Inductive History (Math_log : Q -> Q) (config : SimulationConfig)
  : SimState -> list QueueOp -> list (nat * SimEvent) -> Prop :=
| history_initial (t0 : Q) :
    queue (initialState Math_log config) = schedule [] ARRIVAL t0 None ->
    History Math_log config (initialState Math_log config)
            [Schedule ARRIVAL t0 None] []
| history_step (s s' : SimState) (ops scheduled : list QueueOp)
    (handled rest : list (nat * SimEvent)) (first : nat * SimEvent) :
    History Math_log config s ops handled ->
    running config s = true ->
    step Math_log config s = Some s' ->
    snd (fold_left applyStamped ops (O, [])) = first :: rest ->
    Forall (fun op => isSchedule op = true) scheduled ->
    queue s' = fold_left applyOp (Shift :: scheduled) (queue s) ->
    History Math_log config s'
            (ops ++ Shift :: scheduled) (handled ++ [first]).

(** Of two events with the same timestamp, [a] was scheduled first. *)
Definition tiesInCallOrder (a b : nat * SimEvent) : Prop :=
  time (snd a) == time (snd b) -> (fst a < fst b)%nat.

(** The line of [shiftConfig] observed for no time at all. *)
Definition idleConfig : SimulationConfig :=
  {| duration := 0;
     mouldingMachines := 1;
     inspectionStations := 1;
     packagingMachines := 1;
     arrivalIntervalMean := 5;
     degradationCostPerMinute := 25 # 10;
     degradationThreshold := 0;
     replications := 1;
     seed := 42 |}.

(** ** The dashboard's histogram ([createHistogram])

    A bin of the chart; its [range] label, a string made with [toFixed],
    is left out. *)
Module Bin.
Record t := mk { min : Q; count : Z }.
End Bin.

(** [Math.ceil(Math.max(...data, 1))] *)
Definition histogramMax (data : list Q) : Q :=
  inject_Z (Qceiling (Math_max (data ++ [1]))).

(** [(max - min) / binCount], with [min = 0] and [binCount = 15]. *)
Definition binWidth (data : list Q) : Q := (histogramMax data - 0) / 15.

(** [Math.min(Math.floor((v - min) / binWidth), binCount - 1)] *)
Definition binIndex (data : list Q) (v : Q) : Z :=
  Z.min (Qfloor ((v - 0) / binWidth data)) (15 - 1).

(** [if (binIndex >= 0) bins[binIndex].count++] *)
Definition countValue (data : list Q) (bins : list Bin.t) (v : Q)
  : list Bin.t :=
  if (0 <=? binIndex data v)%Z
  then update (Z.to_nat (binIndex data v))
              (fun b => Bin.mk (Bin.min b) (Bin.count b + 1)) bins
  else bins.

Definition createHistogram (data : list Q) : list Bin.t :=
  match data with
  | [] => []
  | _ :: _ =>
      let bins :=
        map (fun i => Bin.mk (0 + inject_Z (Z.of_nat i) * binWidth data) 0)
            (seq 0 15) in
      fold_left (countValue data) data bins
  end.

(** The number of values the chart shows. *)
Definition totalCount (bins : list Bin.t) : Z :=
  fold_right (fun b n => (Bin.count b + n)%Z) 0%Z bins.

(** ** The dashboard's advice ([getRecommendations])

    A recommendation is a text and a type.  The texts are fixed sentences
    (one quotes [p90] with [toFixed(1)]); each is named here by what it
    says. *)
Inductive RecText :=
| InspectionBottleneck
| PackagingMaxedOut
| TailRisk (p90 : Q)
| ExcessCapacity
| SystemBalanced.

Inductive RecType := critical | warning | info | success.

Module Recommendation.
Record t := mk { text : RecText; type : RecType }.
End Recommendation.

Definition getRecommendations (stats : SimulationStats)
  : list Recommendation.t :=
  let recs := [] in
  let recs :=
    if Qltb (9 # 10) (inspection (machineUtilization stats))
    then recs ++ [Recommendation.mk InspectionBottleneck critical]
    else if Qltb (95 # 100) (packaging (machineUtilization stats))
    then recs ++ [Recommendation.mk PackagingMaxedOut warning]
    else recs in
  let recs :=
    if Qltb 15 (WaitStats.p90 (inspection (waitStats stats)))
    then recs ++ [Recommendation.mk
                    (TailRisk (WaitStats.p90 (inspection (waitStats stats))))
                    warning]
    else recs in
  let recs :=
    if Qltb (packaging (machineUtilization stats)) (3 # 10)
       && Qltb (moulding (machineUtilization stats)) (3 # 10)
    then recs ++ [Recommendation.mk ExcessCapacity info]
    else recs in
  if (length recs =? 0)%nat
  then recs ++ [Recommendation.mk SystemBalanced success]
  else recs.

(** ** The scenario history of the application ([runSimulation])

    [id] and [timestamp] come from the clock ([Date.now()], [new Date()]);
    the two readings of the clock are the arguments [now] and [date]. *)
Module ScenarioResult.
Record t := mk {
  id : Z;
  timestamp : Z;
  config : SimulationConfig;
  stats : SimulationStats;
  isBest : option bool
}.
End ScenarioResult.



(** ** The life of a job

    The stage a job has reached, read off its stamps: 0 waiting for a
    moulding machine, 1 in moulding, 2 waiting for inspection, 3 in
    inspection, 4 past inspection. *)
Definition phase (j : Job) : nat :=
  match inspectionEndTime j, inspectionStartTime j,
        mouldingEndTime j, mouldingStartTime j with
  | Some _, _, _, _ => 4
  | None, Some _, _, _ => 3
  | None, None, Some _, _ => 2
  | None, None, None, Some _ => 1
  | None, None, None, None => 0
  end.

(** The jobs that the pending events of one type refer to. *)
Definition eventRefs (ty : EventType) (q : list SimEvent) : list nat :=
  flat_map (fun e =>
              if isType ty e
              then match job e with Some n => [n] | None => [] end
              else [])
           q.

(** Every reference of [refs] leads to a job in phase [p]. *)
Definition Held (p : nat) (js : list Job) (refs : list nat) : Prop :=
  Forall (fun n => exists j, nth_error js n = Some j /\ phase j = p) refs.

(** The stamps of a job at time [now]: none lies in the future of the
    stage it ends, and each stage starts after the one before has
    ended. *)
Record Ordered (now : Q) (j : Job) : Prop := mkOrdered {
  ord_arrival : arrivalTime j <= now;
  ord_mouldingEnd : forall t, mouldingEndTime j = Some t -> t <= now;
  ord_inspectionEnd : forall t, inspectionEndTime j = Some t -> t <= now;
  ord_moulding :
    forall t, mouldingStartTime j = Some t -> arrivalTime j <= t;
  ord_inspection :
    forall t0 t1,
      mouldingEndTime j = Some t0 -> inspectionStartTime j = Some t1 ->
      t0 <= t1;
  ord_packaging :
    forall t0 t1,
      inspectionEndTime j = Some t0 -> packagingStartTime j = Some t1 ->
      t0 <= t1;
  ord_lead : forall t, packagingEndTime j = Some t -> arrivalTime j <= t;
  ord_packaged :
    packagingStartTime j <> None -> inspectionEndTime j <> None
}.

(** Where the jobs of a state are: each queue and each kind of pending
    event holds jobs of its own phase, and no job twice. *)
Record Staged (s : SimState) : Prop := mkStaged {
  staged_jobs : Forall (Ordered (currentTime s)) (jobs s);
  staged_waitM : Held 0 (jobs s) (mouldingQueue s);
  staged_inM : Held 1 (jobs s) (eventRefs MOULDING_FINISH (queue s));
  staged_waitI : Held 2 (jobs s) (inspectionQueue s);
  staged_inI : Held 3 (jobs s) (eventRefs INSPECTION_FINISH (queue s));
  staged_waitP : Held 4 (jobs s) (packagingQueue s);
  staged_inP : Held 4 (jobs s) (eventRefs PACKAGING_FINISH (queue s));
  staged_waitM_once : NoDup (mouldingQueue s);
  staged_inM_once : NoDup (eventRefs MOULDING_FINISH (queue s));
  staged_waitI_once : NoDup (inspectionQueue s);
  staged_inI_once : NoDup (eventRefs INSPECTION_FINISH (queue s))
}.

(** A statement on references does not depend on their order. *)
#[export] Instance Held_Permutation (p : nat) (js : list Job) :
  Proper (@Permutation nat ==> iff) (Held p js).
Proof.
  intros l l' H. unfold Held.
  split; apply Permutation_Forall; [exact H|symmetry; exact H].
Qed.

(** * Properties *)

Unset Implicit Arguments.

(** ** The loop and its fuel *)

Section LoopFacts.
Variable Math_log : Q -> Q.
Variable config : SimulationConfig.

Lemma loop_stopped (fuel : nat) (s : SimState) :
  running config s = false -> loop Math_log config fuel s = Some s.
Proof. destruct fuel; simpl; intros ->; reflexivity. Qed.

Lemma loop_step (fuel : nat) (s : SimState) :
  running config s = true ->
  loop Math_log config (S fuel) s =
  (s' <- step Math_log config s ;; loop Math_log config fuel s').
Proof. simpl; intros ->; reflexivity. Qed.

Lemma processed_step (fuel : nat) (s s' : SimState) (e : SimEvent)
    (rest : list SimEvent) :
  running config s = true -> queue s = e :: rest ->
  step Math_log config s = Some s' ->
  processed Math_log config (S fuel) s =
  e :: processed Math_log config fuel s'.
Proof. intros R Eq Es. cbn [processed]. rewrite R, Eq, Es. reflexivity. Qed.

Lemma processed_stopped (fuel : nat) (s : SimState) :
  running config s = false -> processed Math_log config fuel s = [].
Proof.
  intros R. destruct fuel; cbn [processed]; [reflexivity|].
  rewrite R. reflexivity.
Qed.

(** A run that ends within [fuel] iterations ends in the same state with
    any larger fuel: the result does not depend on the fuel. *)
Lemma loop_more_fuel (fuel extra : nat) (s s' : SimState) :
  loop Math_log config fuel s = Some s' ->
  loop Math_log config (fuel + extra) s = Some s'.
Proof.
  revert s; induction fuel as [|fuel IH]; intros s H.
  - simpl in H. destruct (running config s) eqn:R; [discriminate|].
    rewrite loop_stopped by assumption. exact H.
  - destruct (running config s) eqn:R.
    + rewrite loop_step in H by assumption.
      change (S fuel + extra)%nat with (S (fuel + extra)).
      rewrite loop_step by assumption.
      destruct (step Math_log config s) as [s1|]; [|discriminate].
      apply IH; exact H.
    + rewrite loop_stopped in H by assumption.
      rewrite loop_stopped by assumption. exact H.
Qed.

Lemma runSingleSimulation_more_fuel (fuel extra : nat)
    (stats : SimulationStats) :
  runSingleSimulation Math_log config fuel = Some stats ->
  runSingleSimulation Math_log config (fuel + extra) = Some stats.
Proof.
  unfold runSingleSimulation; intros H.
  destruct (loop Math_log config fuel (initialState Math_log config))
    as [s|] eqn:E; [|discriminate].
  rewrite (loop_more_fuel _ extra _ _ E). exact H.
Qed.

(** The single run never reads [config.replications]. *)
Lemma loop_ignores_replications (n : Z) (fuel : nat) (s : SimState) :
  loop Math_log (with_replications config n) fuel s =
  loop Math_log config fuel s.
Proof.
  revert s; induction fuel as [|fuel IH]; intros s; [reflexivity|].
  simpl.
  change (running (with_replications config n) s) with (running config s).
  destruct (running config s); [|reflexivity].
  change (step Math_log (with_replications config n) s)
    with (step Math_log config s).
  destruct (step Math_log config s) as [s1|]; [apply IH|reflexivity].
Qed.

Lemma runSingleSimulation_ignores_replications (n : Z) (fuel : nat) :
  runSingleSimulation Math_log (with_replications config n) fuel =
  runSingleSimulation Math_log config fuel.
Proof.
  unfold runSingleSimulation.
  change (initialState Math_log (with_replications config n))
    with (initialState Math_log config).
  rewrite loop_ignores_replications. reflexivity.
Qed.

End LoopFacts.

Lemma with_seed_same (config : SimulationConfig) :
  with_seed config (seed config + 0)%Z = config.
Proof. destruct config; unfold with_seed; simpl. rewrite Z.add_0_r. reflexivity. Qed.

Lemma collect_more {A} (f g : Z -> option A) (l : list Z) (rs : list A) :
  (forall i r, f i = Some r -> g i = Some r) ->
  collect (map f l) = Some rs -> collect (map g l) = Some rs.
Proof.
  intros Hfg; revert rs; induction l as [|i l IH]; intros rs H; [exact H|].
  simpl in *.
  destruct (f i) as [r|] eqn:Ef; [|discriminate].
  rewrite (Hfg _ _ Ef).
  destruct (collect (map f l)) as [vs|]; [|discriminate].
  rewrite (IH vs eq_refl). exact H.
Qed.

Section EngineFacts.
Variable Math_log : Q -> Q.
Variable Math_sqrt : Q -> Q.

Lemma run_more_fuel (fuel extra : nat) (config : SimulationConfig)
    (stats : SimulationStats) :
  run Math_log Math_sqrt fuel config = Some stats ->
  run Math_log Math_sqrt (fuel + extra) config = Some stats.
Proof.
  unfold run, replicationResults; intros H.
  destruct (collect _) as [rs|] eqn:E in H; [|discriminate].
  erewrite collect_more; [exact H| |exact E].
  intros i r Hr. apply runSingleSimulation_more_fuel; exact Hr.
Qed.

(** With one replication (or a count clamped to one) [run] is the single
    run on the configuration itself. *)
Lemma run_one (fuel : nat) (config : SimulationConfig) :
  (replications config <= 1)%Z ->
  replicationResults Math_log fuel config =
    [runSingleSimulation Math_log config fuel]
  /\ run Math_log Math_sqrt fuel config =
     runSingleSimulation Math_log config fuel.
Proof.
  intros H.
  assert (R : replicationResults Math_log fuel config =
              [runSingleSimulation Math_log config fuel]).
  { unfold replicationResults. rewrite Z.max_l by lia.
    simpl. rewrite with_seed_same. reflexivity. }
  split; [exact R|].
  unfold run. rewrite R. simpl.
  destruct (runSingleSimulation Math_log config fuel); reflexivity.
Qed.

End EngineFacts.

(** ** The indices of the replications *)

Section Replications.
Variable Math_log : Q -> Q.
Variable Math_sqrt : Q -> Q.


End Replications.

(** ** The random stream *)

Lemma next_seed_range (r : Random.t) :
  (0 <= Random.seed r)%Z ->
  (0 <= Random.seed (snd (Random.next r)) < 233280)%Z.
Proof.
  intros H. unfold Random.next; simpl.
  apply Z.rem_bound_pos; lia.
Qed.

Lemma next_value (r : Random.t) :
  fst (Random.next r) == Random.seed (snd (Random.next r)) # 233280.
Proof. unfold Random.next; simpl. symmetry; apply Qmake_Qdiv. Qed.

Lemma next_unit_interval (r : Random.t) :
  (0 <= Random.seed r)%Z ->
  0 <= fst (Random.next r) /\ fst (Random.next r) < 1.
Proof.
  intros H. pose proof (next_seed_range r H) as B.
  rewrite next_value.
  generalize dependent (Random.seed (snd (Random.next r))).
  intros s B. unfold Qle, Qlt; simpl. lia.
Qed.

Lemma after_seed_nonneg (n : nat) (r : Random.t) :
  (0 <= Random.seed r)%Z -> (0 <= Random.seed (Random.after n r))%Z.
Proof.
  revert r; induction n as [|n IH]; intros r H; [exact H|].
  simpl. apply IH. apply next_seed_range; exact H.
Qed.

Lemma floor_scaled_in_range (u : Q) (len : Z) :
  0 <= u -> u < 1 -> (0 < len)%Z ->
  (0 <= Qfloor (u * inject_Z len) < len)%Z.
Proof.
  intros U0 U1 L.
  assert (L' : inject_Z 0 < inject_Z len) by (rewrite <- Zlt_Qlt; exact L).
  change (inject_Z 0) with 0 in L'.
  split.
  - change 0%Z with (Qfloor 0). apply Qfloor_resp_le. nra.
  - rewrite Zlt_Qlt.
    apply Qle_lt_trans with (u * inject_Z len); [apply Qfloor_le|]. nra.
Qed.

Lemma choice_in_bounds {A} (items : list A) (r : Random.t) :
  (0 <= Random.seed r)%Z -> items <> [] ->
  exists x, fst (Random.choice items r) = Some x /\ In x items.
Proof.
  intros H NE. unfold Random.choice.
  destruct (next_unit_interval r H) as [U0 U1].
  destruct (Random.next r) as [u r']. cbn [fst snd] in *.
  assert (L : (0 < Z.of_nat (length items))%Z)
    by (destruct items; [congruence|simpl; lia]).
  pose proof (floor_scaled_in_range _ _ U0 U1 L) as [I0 I1].
  set (idx := Qfloor (u * inject_Z (Z.of_nat (length items)))) in *.
  unfold index.
  destruct (Z.ltb_spec idx 0) as [N|_]; [lia|].
  destruct (nth_error items (Z.to_nat idx)) as [x|] eqn:En.
  - exists x. split; [reflexivity|]. eapply nth_error_In; exact En.
  - apply nth_error_None in En. lia.
Qed.

(** ** The scheduler: a stable queue *)

Section SortFacts.
Variable A : Type.
Variable leb : A -> A -> bool.

Lemma sort_snoc (l : list A) (x : A) :
  sort leb (l ++ [x]) = insert leb x (sort leb l).
Proof. unfold sort. rewrite fold_left_app. reflexivity. Qed.

(** An element that is not before any element of the list goes last. *)
Lemma insert_last (x : A) (l : list A) :
  Forall (fun y => leb y x = true) l -> insert leb x l = l ++ [x].
Proof.
  induction 1 as [|y l Hy _ IH]; [reflexivity|].
  simpl. rewrite Hy, IH. reflexivity.
Qed.

(** [insert] splits the list where the comparator first puts an element
    after the new one. *)
Lemma insert_split (x : A) (l : list A) :
  exists front back,
    l = front ++ back
    /\ insert leb x l = front ++ x :: back
    /\ Forall (fun y => leb y x = true) front
    /\ match back with
       | [] => True
       | z :: _ => leb z x = false
       end.
Proof.
  induction l as [|y l IH].
  - exists [], []. repeat split; constructor.
  - simpl. destruct (leb y x) eqn:E.
    + destruct IH as (front & back & -> & -> & F & B).
      exists (y :: front), back. repeat split; [constructor|]; assumption.
    + exists [], (y :: l). repeat split; [constructor|exact E].
Qed.

Lemma sort_fold_sorted (l acc : list A) :
  StronglySorted (fun a b => leb a b = true) (acc ++ l) ->
  fold_left (fun acc x => insert leb x acc) l acc = acc ++ l.
Proof.
  revert acc; induction l as [|x l IH]; intros acc S.
  - simpl. rewrite app_nil_r. reflexivity.
  - simpl. rewrite insert_last.
    + rewrite IH; rewrite <- app_assoc; [reflexivity|exact S].
    + clear IH. induction acc as [|y acc IHa]; [constructor|].
      simpl in S. inversion S as [|? ? S' F]; subst.
      constructor.
      * rewrite Forall_app in F. destruct F as [_ F].
        inversion F; assumption.
      * apply IHa; exact S'.
Qed.

(** Sorting a sorted array leaves it as it is. *)
Lemma sort_sorted (l : list A) :
  StronglySorted (fun a b => leb a b = true) l -> sort leb l = l.
Proof. intros S. unfold sort. rewrite sort_fold_sorted; [reflexivity|exact S]. Qed.

End SortFacts.

Lemma insert_erase (x : (nat * SimEvent)) (l : list (nat * SimEvent)) :
  map snd (insert stamped_leb x l) = insert time_leb (snd x) (map snd l).
Proof.
  induction l as [|y l IH]; [reflexivity|].
  simpl. unfold stamped_leb at 1.
  destruct (time_leb (snd y) (snd x)); simpl; [rewrite IH|]; reflexivity.
Qed.

Lemma sort_erase (l : list (nat * SimEvent)) :
  map snd (sort stamped_leb l) = sort time_leb (map snd l).
Proof.
  unfold sort.
  assert (G : forall acc,
             map snd (fold_left (fun acc x => insert stamped_leb x acc) l acc)
             = fold_left (fun acc x => insert time_leb x acc) (map snd l)
                 (map snd acc)).
  { induction l as [|x l IH]; intros acc; [reflexivity|].
    simpl. rewrite IH, insert_erase. reflexivity. }
  apply (G []).
Qed.

Lemma handledBefore_leb (a b : (nat * SimEvent)) :
  handledBefore a b -> stamped_leb a b = true.
Proof.
  unfold handledBefore, stamped_leb, time_leb. intros H.
  apply Qle_bool_iff. destruct H as [H|[H _]]; lra.
Qed.

Lemma handledBefore_sorted_leb (q : list (nat * SimEvent)) :
  StronglySorted handledBefore q ->
  StronglySorted (fun a b => stamped_leb a b = true) q.
Proof.
  induction 1 as [|a q S IH F]; constructor; [exact IH|].
  eapply Forall_impl; [|exact F]. intros b; apply handledBefore_leb.
Qed.

(** Scheduling into a queue in handling order, with a call number above
    every pending one, keeps the handling order. *)
Lemma insert_handledBefore (n : nat) (e : SimEvent) (q : list (nat * SimEvent)) :
  StronglySorted handledBefore q ->
  Forall (fun a => (fst a < n)%nat) q ->
  StronglySorted handledBefore (insert stamped_leb (n, e) q)
  /\ Forall (fun a => (fst a < S n)%nat) (insert stamped_leb (n, e) q).
Proof.
  intros Hs; induction Hs as [|a q Hs IH F]; intros B.
  - simpl. split; repeat constructor.
  - inversion B as [|? ? Ba Bq]; subst.
    destruct (IH Bq) as [IS IB]. simpl.
    destruct (stamped_leb a (n, e)) eqn:E.
    + split; [|constructor; [simpl in *; lia|exact IB]].
      constructor; [exact IS|].
      destruct (insert_split _ stamped_leb (n, e) q)
        as (front & back & -> & -> & _ & _).
      rewrite Forall_app in F. destruct F as [Ff Fb].
      rewrite Forall_app. split; [exact Ff|].
      constructor; [|exact Fb].
      unfold stamped_leb, time_leb in E. apply Qle_bool_iff in E.
      simpl in E. unfold handledBefore; simpl.
      destruct (Qlt_le_dec (time (snd a)) (time e)) as [L|G];
        [left; exact L|right; split; [lra|exact Ba]].
    + assert (L : time e < time (snd a)).
      { unfold stamped_leb, time_leb in E. simpl in E.
        destruct (Qlt_le_dec (time e) (time (snd a))) as [L|G]; [exact L|].
        apply Qle_bool_iff in G. congruence. }
      split.
      * constructor; [constructor; assumption|].
        constructor; [left; exact L|].
        eapply Forall_impl; [|exact F].
        intros b Hb. left; simpl.
        destruct Hb as [Hb|[Hb _]]; lra.
      * constructor; [simpl; lia|].
        constructor; [simpl in *; lia|].
        eapply Forall_impl; [|exact Bq]. intros b; simpl; lia.
Qed.

Lemma stamped_invariant (ops : list QueueOp) :
  let st := fold_left applyStamped ops (O, []) in
  StronglySorted handledBefore (snd st)
  /\ Forall (fun a => (fst a < fst st)%nat) (snd st)
  /\ map snd (snd st) = fold_left applyOp ops [].
Proof.
  induction ops as [|op ops IH] using rev_ind.
  - simpl. repeat split; constructor.
  - rewrite !fold_left_app. cbn [fold_left].
    destruct (fold_left applyStamped ops (O, [])) as [n q].
    cbn [fst snd] in IH. destruct IH as (Hs & B & E).
    destruct op as [ty t j|]; cbn [applyStamped applyOp fst snd].
    + rewrite sort_snoc.
      rewrite (sort_sorted _ _ _ (handledBefore_sorted_leb _ Hs)).
      destruct (insert_handledBefore n (mkEvent t ty j) q Hs B) as [IS IB].
      repeat split; [exact IS|exact IB|].
      rewrite insert_erase, E. unfold schedule.
      rewrite sort_snoc. f_equal.
      rewrite <- E, <- sort_erase.
      rewrite (sort_sorted _ _ _ (handledBefore_sorted_leb _ Hs)). reflexivity.
    + repeat split.
      * destruct q; [constructor|]. inversion Hs; assumption.
      * destruct q; [constructor|]. inversion B; assumption.
      * rewrite <- E. destruct q; reflexivity.
Qed.

(** ** Tests on numbers *)

Lemma Qltb_true (a b : Q) : a < b -> Qltb a b = true.
Proof.
  intros H. unfold Qltb.
  destruct (Qle_bool b a) eqn:E; [|reflexivity].
  apply Qle_bool_iff in E. lra.
Qed.

Lemma Qltb_false (a b : Q) : b <= a -> Qltb a b = false.
Proof.
  intros H. unfold Qltb. apply Qle_bool_iff in H. rewrite H. reflexivity.
Qed.

Lemma Qltb_lt (a b : Q) : Qltb a b = true -> a < b.
Proof.
  intros H. destruct (Qlt_le_dec a b) as [L|G]; [exact L|].
  rewrite (Qltb_false _ _ G) in H. discriminate.
Qed.

Lemma Qltb_ge (a b : Q) : Qltb a b = false -> b <= a.
Proof.
  intros H. destruct (Qlt_le_dec a b) as [L|G]; [|exact G].
  rewrite (Qltb_true _ _ L) in H. discriminate.
Qed.

Lemma Qle_bool_true (a b : Q) : a <= b -> Qle_bool a b = true.
Proof. apply Qle_bool_iff. Qed.

Lemma Qle_bool_false (a b : Q) : b < a -> Qle_bool a b = false.
Proof.
  intros H. destruct (Qle_bool a b) eqn:E; [|reflexivity].
  apply Qle_bool_iff in E. lra.
Qed.

Lemma Qeq_bool_false (a b : Q) : ~ a == b -> Qeq_bool a b = false.
Proof.
  intros H. destruct (Qeq_bool a b) eqn:E; [|reflexivity].
  apply Qeq_bool_iff in E. contradiction.
Qed.

Lemma safeDiv_nonzero (n d : Q) : ~ d == 0 -> safeDiv n d = n / d.
Proof. intros H. unfold safeDiv. rewrite Qeq_bool_false by exact H. reflexivity. Qed.

(** The bracket at an argument whose value is the constant [c]. *)
Lemma bracket_at (L : Q -> Q) (x c : Q) :
  log_bracket L -> x == c -> 0 < c -> c <= 1 ->
  c - 1 <= c * L x /\ L x <= c - 1.
Proof.
  intros HL E P U.
  assert (Px : 0 < x) by (rewrite E; exact P).
  assert (Ux : x <= 1) by (rewrite E; exact U).
  destruct (HL x Px Ux) as [A B].
  rewrite E in A at 1 2. rewrite E in B at 2. split; assumption.
Qed.

(** The stand-in logarithm is inside the bracket. *)
Lemma ln_pade_bracket : log_bracket ln_pade.
Proof.
  intros x P U. unfold ln_pade.
  assert (D : ~ x + 1 == 0) by lra.
  set (d := (x - 1) / (x + 1)).
  assert (E : d * (x + 1) == x - 1) by (unfold d; field; exact D).
  assert (R : 2 * (x - 1) / (x + 1) == 2 * d) by (unfold d; field; exact D).
  rewrite R. split; nra.
Qed.

(** ** The run on [overshootConfig]

    Seed 0 draws the states 49297, 165494, 127551, 172348: the first part
    arrives at [t0 = -5 ln(1 - 49297/233280)], about 1.19 minutes, is of
    type C, and its moulding ends at [t1 = t0 - 20 ln(1 - 172348/233280)],
    about 28 minutes; no second arrival falls within the two minutes. *)

Section Overshoot.
Variable L : Q -> Q.
Hypothesis HL : log_bracket L.

Local Arguments Qplus : simpl never.
Local Arguments Qmult : simpl never.
Local Arguments Qminus : simpl never.
Local Arguments Qopp : simpl never.
Local Arguments Qdiv : simpl never.
Local Arguments Qle_bool : simpl never.
Local Arguments Qeq_bool : simpl never.
Local Arguments Qltb : simpl never.
Local Arguments inject_Z : simpl never.
Local Arguments Qfloor : simpl never.

(** Settle the next test on numbers that blocks the evaluation. *)
Ltac settle_test :=
  match goal with
  | |- context [Qltb ?a ?b] =>
      first [rewrite (Qltb_true a b) by lra
            |rewrite (Qltb_false a b) by lra]
  | |- context [Qle_bool ?a ?b] =>
      first [rewrite (Qle_bool_true a b) by lra
            |rewrite (Qle_bool_false a b) by lra]
  | |- context [Qeq_bool ?a ?b] => rewrite (Qeq_bool_false a b) by lra
  | |- context [index ?l (Qfloor ?x)] =>
      let v := eval vm_compute in (index l (Qfloor x)) in
      change (index l (Qfloor x)) with v
  end.

Ltac evaluate := cbn; repeat (settle_test; cbn).

Lemma overshoot_draws :
  let a1 := L (1 - inject_Z 49297 / 233280) in
  let a3 := L (1 - inject_Z 127551 / 233280) in
  let a4 := L (1 - inject_Z 172348 / 233280) in
  ((183983 # 233280) - 1 <= (183983 # 233280) * a1
   /\ a1 <= (183983 # 233280) - 1)
  /\ ((105729 # 233280) - 1 <= (105729 # 233280) * a3
      /\ a3 <= (105729 # 233280) - 1)
  /\ ((60932 # 233280) - 1 <= (60932 # 233280) * a4
      /\ a4 <= (60932 # 233280) - 1).
Proof.
  repeat split;
    apply (bracket_at L _ _ HL (Qeq_refl _));
    solve [reflexivity | discriminate].
Qed.

Lemma overshoot_loop :
  exists t0 t1 s,
    loop L overshootConfig 5 (initialState L overshootConfig) = Some s
    /\ processed L overshootConfig 5 (initialState L overshootConfig) =
         [mkEvent t0 ARRIVAL None; mkEvent t1 MOULDING_FINISH (Some 0%nat)]
    /\ (1 <= t0 /\ t0 < 2 /\ 15 <= t1)
    /\ currentTime s = t1
    /\ totalMouldingBusyTime s == t1 - t0
    /\ wipArea s == t1 - t0
    /\ length (jobs s) = 1%nat.
Proof.
  destruct overshoot_draws as ((A1 & B1) & (A3 & B3) & (A4 & B4)).
  eassert (E0 : initialState L overshootConfig = _) by (cbn; reflexivity).
  rewrite E0.
  match type of E0 with
  | _ = ?s0 =>
      eassert (E1 : step L overshootConfig s0 = Some _)
        by (evaluate; reflexivity);
      assert (R0 : running overshootConfig s0 = true)
        by (evaluate; reflexivity)
  end.
  match type of E1 with
  | _ = Some ?s1 =>
      eassert (E2 : step L overshootConfig s1 = Some _)
        by (evaluate; reflexivity);
      assert (R1 : running overshootConfig s1 = true)
        by (evaluate; reflexivity)
  end.
  match type of E2 with
  | _ = Some ?s2 =>
      assert (R2 : running overshootConfig s2 = false)
        by (evaluate; reflexivity)
  end.
  do 3 eexists.
  split.
  { rewrite (loop_step L _ _ _ R0), E1. cbn beta iota.
    rewrite (loop_step L _ _ _ R1), E2. cbn beta iota.
    apply loop_stopped. exact R2. }
  split.
  { rewrite (processed_step L _ _ _ _ _ _ R0 eq_refl E1).
    rewrite (processed_step L _ _ _ _ _ _ R1 eq_refl E2).
    rewrite (processed_stopped L _ _ _ R2). reflexivity. }
  split; [lra|].
  split; [reflexivity|].
  cbn. change (inject_Z 0) with 0. change (inject_Z 1) with 1.
  split; [ring|]. split; [ring|reflexivity].
Qed.

Lemma overshoot_stats (extra : nat) :
  exists t0 t1 s,
    runSingleSimulation L overshootConfig (5 + extra) =
      Some (statistics overshootConfig s)
    /\ processed L overshootConfig 5 (initialState L overshootConfig) =
         [mkEvent t0 ARRIVAL None; mkEvent t1 MOULDING_FINISH (Some 0%nat)]
    /\ (1 <= t0 /\ t0 < 2 /\ 15 <= t1)
    /\ totalMouldingBusyTime s == t1 - t0
    /\ wipArea s == t1 - t0.
Proof.
  destruct overshoot_loop as (t0 & t1 & s & Hl & Hp & Ht & _ & Hb & Hw & _).
  exists t0, t1, s. repeat split; try tauto; try assumption.
  unfold runSingleSimulation.
  rewrite (loop_more_fuel L overshootConfig 5 extra _ _ Hl). reflexivity.
Qed.

(** C1 (the code on [overshootConfig]). The loop takes the moulding-finish
    event from the queue although its timestamp is past [duration], and
    the clock ends past [duration]. *)
Theorem overshoot_event_past_duration_is_processed :
  exists t0 t1 s,
    processed L overshootConfig 5 (initialState L overshootConfig) =
      [mkEvent t0 ARRIVAL None; mkEvent t1 MOULDING_FINISH (Some 0%nat)]
    /\ loop L overshootConfig 5 (initialState L overshootConfig) = Some s
    /\ t0 < duration overshootConfig
    /\ duration overshootConfig < t1
    /\ duration overshootConfig < currentTime s.
Proof.
  destruct overshoot_loop as (t0 & t1 & s & Hl & Hp & Ht & Hc & _).
  exists t0, t1, s. rewrite Hc. cbn [duration overshootConfig].
  repeat split; try assumption; lra.
Qed.

(** C2 (the code on [overshootConfig]). One part arrives and none leaves,
    so the WIP is at most one throughout; yet [avgWip * duration] is more
    than the integral of the WIP over [[0, duration]], and [avgWip] is
    above one: the area of the interval up to the late event is counted
    in full. *)
Theorem overshoot_avgWip_exceeds_wip_integral (extra : nat) :
  exists stats,
    runSingleSimulation L overshootConfig (5 + extra) = Some stats
    /\ wipIntegral (duration overshootConfig)
         (processed L overshootConfig 5 (initialState L overshootConfig))
       < avgWip stats * duration overshootConfig
    /\ 1 < avgWip stats.
Proof.
  destruct (overshoot_stats extra) as (t0 & t1 & s & Hr & Hp & Ht & _ & Hw).
  exists (statistics overshootConfig s). split; [exact Hr|].
  rewrite Hp.
  cbn [avgWip statistics duration overshootConfig].
  rewrite safeDiv_nonzero by lra. rewrite Hw.
  unfold wipIntegral, sumQ, wipJump; cbn [map fold_left type time].
  rewrite (Q.max_r 0 (2 - t0)) by lra.
  rewrite (Q.max_l 0 (2 - t1)) by lra.
  unfold Qdiv. change (/ 2) with (1 # 2). split; lra.
Qed.

(** C3 (the code on [overshootConfig]). With one moulding machine and a
    positive duration the reported moulding utilization is above 1. *)
Theorem overshoot_utilization_above_one (extra : nat) :
  exists stats,
    runSingleSimulation L overshootConfig (5 + extra) = Some stats
    /\ 0 < duration overshootConfig
    /\ (0 < mouldingMachines overshootConfig)%Z
    /\ 1 < moulding (machineUtilization stats).
Proof.
  destruct (overshoot_stats extra) as (t0 & t1 & s & Hr & _ & Ht & Hb & _).
  exists (statistics overshootConfig s). split; [exact Hr|].
  split; [reflexivity|]. split; [reflexivity|].
  cbn [moulding machineUtilization statistics duration mouldingMachines
       overshootConfig].
  change (2 * inject_Z 1) with 2.
  rewrite safeDiv_nonzero by lra. rewrite Hb.
  unfold Qdiv. change (/ 2) with (1 # 2). lra.
Qed.

End Overshoot.

Lemma overshoot_event_past_duration_is_processed_witness :
  log_bracket ln_pade
  /\ exists t0 t1 s,
      processed ln_pade overshootConfig 5
        (initialState ln_pade overshootConfig) =
        [mkEvent t0 ARRIVAL None; mkEvent t1 MOULDING_FINISH (Some 0%nat)]
      /\ loop ln_pade overshootConfig 5
           (initialState ln_pade overshootConfig) = Some s
      /\ t0 < duration overshootConfig
      /\ duration overshootConfig < t1
      /\ duration overshootConfig < currentTime s.
Proof.
  split; [exact ln_pade_bracket|].
  apply (overshoot_event_past_duration_is_processed ln_pade ln_pade_bracket).
Defined.

Lemma overshoot_avgWip_exceeds_wip_integral_witness :
  log_bracket ln_pade
  /\ exists stats,
      runSingleSimulation ln_pade overshootConfig (5 + 0) = Some stats
      /\ wipIntegral (duration overshootConfig)
           (processed ln_pade overshootConfig 5
              (initialState ln_pade overshootConfig))
         < avgWip stats * duration overshootConfig
      /\ 1 < avgWip stats.
Proof.
  split; [exact ln_pade_bracket|].
  apply (overshoot_avgWip_exceeds_wip_integral ln_pade ln_pade_bracket 0).
Defined.

Lemma overshoot_utilization_above_one_witness :
  log_bracket ln_pade
  /\ exists stats,
      runSingleSimulation ln_pade overshootConfig (5 + 0) = Some stats
      /\ 0 < duration overshootConfig
      /\ (0 < mouldingMachines overshootConfig)%Z
      /\ 1 < moulding (machineUtilization stats).
Proof.
  split; [exact ln_pade_bracket|].
  apply (overshoot_utilization_above_one ln_pade ln_pade_bracket 0).
Defined.

(** ** Lists: the arena and the sorted queue *)

Lemma nth_error_update {A} (n k : nat) (f : A -> A) (l : list A) :
  nth_error (update n f l) k =
  option_map (fun x => if Nat.eqb n k then f x else x) (nth_error l k).
Proof.
  revert n k; induction l as [|x l IH]; intros n k.
  - destruct n, k; reflexivity.
  - destruct n, k; simpl; try reflexivity.
    + clear IH. destruct (nth_error l k); reflexivity.
    + apply IH.
Qed.

Lemma length_update {A} (n : nat) (f : A -> A) (l : list A) :
  length (update n f l) = length l.
Proof.
  revert n; induction l as [|x l IH]; intros [|n]; simpl; auto.
Qed.

Lemma Forall_update {A} (P : A -> Prop) (n : nat) (f : A -> A) (l : list A) :
  Forall P l ->
  (forall x, nth_error l n = Some x -> P x -> P (f x)) ->
  Forall P (update n f l).
Proof.
  intros H; revert n; induction H as [|x l Px Pl IH]; intros n Hf.
  - destruct n; constructor.
  - destruct n; simpl; constructor; auto.
Qed.

Lemma Forall_insert {A} (P : A -> Prop) (leb : A -> A -> bool) (x : A)
    (l : list A) :
  P x -> Forall P l -> Forall P (insert leb x l).
Proof.
  intros Px H; induction H as [|y l Py Pl IH]; simpl.
  - constructor; [exact Px|constructor].
  - destruct (leb y x); repeat constructor; assumption.
Qed.

Lemma Forall_sort {A} (P : A -> Prop) (leb : A -> A -> bool) (l : list A) :
  Forall P l -> Forall P (sort leb l).
Proof.
  unfold sort.
  assert (G : forall acc, Forall P acc -> Forall P l ->
              Forall P (fold_left (fun acc x => insert leb x acc) l acc)).
  { induction l as [|x l IH]; intros acc Ha Hl; [exact Ha|].
    inversion Hl; subst. simpl. apply IH; [|assumption].
    apply Forall_insert; assumption. }
  intros H. apply G; [constructor|exact H].
Qed.

Lemma Forall_schedule (P : SimEvent -> Prop) (q : list SimEvent)
    (ty : EventType) (t : Q) (j : option nat) :
  Forall P q -> P (mkEvent t ty j) -> Forall P (schedule q ty t j).
Proof.
  intros Hq He. unfold schedule. apply Forall_sort.
  rewrite Forall_app. split; [exact Hq|]. constructor; [exact He|constructor].
Qed.

(** ** Draws are non-negative durations *)

Section Draws.
Variable L : Q -> Q.
Hypothesis HL : log_bracket L.

Lemma exponential_seed (mean : Q) (r : Random.t) :
  snd (Random.exponential L mean r) = snd (Random.next r).
Proof. unfold Random.exponential. destruct (Random.next r); reflexivity. Qed.

Lemma choice_seed {A} (items : list A) (r : Random.t) :
  snd (Random.choice items r) = snd (Random.next r).
Proof. unfold Random.choice. destruct (Random.next r); reflexivity. Qed.

Lemma exponential_nonneg (mean : Q) (r : Random.t) :
  (0 <= Random.seed r)%Z -> 0 <= mean ->
  0 <= fst (Random.exponential L mean r).
Proof.
  intros Hr Hm. unfold Random.exponential.
  destruct (next_unit_interval r Hr) as [U0 U1].
  destruct (Random.next r) as [u r']; cbn [fst snd] in *.
  destruct (HL (1 - u)) as [_ B]; [lra|lra|]. nra.
Qed.

(** The draw is strictly positive unless the uniform draw was exactly 0,
    that is unless the generator moved to state 0. *)
Lemma exponential_pos (mean : Q) (r : Random.t) :
  (0 <= Random.seed r)%Z -> 0 < mean ->
  Random.seed (snd (Random.next r)) <> 0%Z ->
  0 < fst (Random.exponential L mean r).
Proof.
  intros Hr Hm Hs. unfold Random.exponential.
  pose proof (next_seed_range r Hr) as R.
  pose proof (next_value r) as V.
  destruct (Random.next r) as [u r']; cbn [fst snd] in *.
  assert (U0 : 0 < u).
  { rewrite V. unfold Qlt; simpl. lia. }
  assert (U1 : u < 1).
  { rewrite V. unfold Qlt; simpl. lia. }
  destruct (HL (1 - u)) as [_ B]; [lra|lra|]. nra.
Qed.

Lemma baseMean_pos (stage : Stage) (ty : option ProductType) :
  0 < baseMean stage ty.
Proof. destruct stage, ty as [[]|]; reflexivity. Qed.

End Draws.

(** ** Field assignments and the job invariants *)

Lemma ended_set_mouldingEndTime (t : Q) (j : Job) :
  0 < t -> mouldingEnded (set_mouldingEndTime t j).
Proof. intros H. exists t. split; [reflexivity|exact H]. Qed.

Lemma sound_set_mouldingEndTime (t : Q) (j : Job) :
  0 < t -> inspectionSound j -> inspectionSound (set_mouldingEndTime t j).
Proof.
  intros H S u Hu. destruct (S u Hu) as [P _].
  split; [exact P|apply ended_set_mouldingEndTime; exact H].
Qed.

Lemma sound_set_inspectionStartTime (t : Q) (j : Job) :
  0 < t -> mouldingEnded j -> inspectionSound (set_inspectionStartTime t j).
Proof.
  intros H E u Hu. simpl in Hu. injection Hu as <-. split; [exact H|exact E].
Qed.

(** The assignments that leave both [mouldingEndTime] and
    [inspectionStartTime] alone. *)
Definition neutral (f : Job -> Job) : Prop :=
  forall j, mouldingEndTime (f j) = mouldingEndTime j
            /\ inspectionStartTime (f j) = inspectionStartTime j.

Lemma neutral_ended (f : Job -> Job) (j : Job) :
  neutral f -> mouldingEnded j -> mouldingEnded (f j).
Proof.
  intros N (t & E & P). exists t. destruct (N j) as [-> _]. split; assumption.
Qed.

Lemma neutral_sound (f : Job -> Job) (j : Job) :
  neutral f -> inspectionSound j -> inspectionSound (f j).
Proof.
  intros N S u Hu. destruct (N j) as [_ Ei]. rewrite Ei in Hu.
  destruct (S u Hu) as [P E]. split; [exact P|].
  apply neutral_ended; assumption.
Qed.

Lemma neutral_set_mouldingStartTime (t : Q) :
  neutral (set_mouldingStartTime t).
Proof. intros j; split; reflexivity. Qed.

Lemma neutral_set_inspectionEndTime (t : Q) :
  neutral (set_inspectionEndTime t).
Proof. intros j; split; reflexivity. Qed.

Lemma neutral_set_packagingStartTime (t : Q) :
  neutral (set_packagingStartTime t).
Proof. intros j; split; reflexivity. Qed.

Lemma neutral_set_packagingEnd (t : Q) :
  neutral (fun x => set_finished (set_packagingEndTime t x)).
Proof. intros j; split; reflexivity. Qed.

Lemma ended_set_inspectionStartTime (t : Q) (j : Job) :
  mouldingEnded j -> mouldingEnded (set_inspectionStartTime t j).
Proof. intros (u & E & P). exists u. split; [exact E|exact P]. Qed.

Lemma endedAt_update (js : list Job) (n k : nat) (f : Job -> Job) :
  (forall x, mouldingEnded x -> mouldingEnded (f x)) ->
  endedAt js k -> endedAt (update n f js) k.
Proof.
  intros Hf (x & E & M). unfold endedAt.
  rewrite nth_error_update, E. simpl.
  destruct (Nat.eqb n k); eexists; split; try reflexivity; auto.
Qed.

Lemma endedAt_update_here (js : list Job) (n : nat) (f : Job -> Job)
    (x : Job) :
  nth_error js n = Some x -> mouldingEnded (f x) ->
  endedAt (update n f js) n.
Proof.
  intros E M. unfold endedAt. rewrite nth_error_update, E. simpl.
  rewrite Nat.eqb_refl. eexists; split; [reflexivity|exact M].
Qed.

Lemma endedAt_app (js : list Job) (k : nat) (x : Job) :
  endedAt js k -> endedAt (js ++ [x]) k.
Proof.
  intros (y & E & M). exists y. split; [|exact M].
  rewrite nth_error_app1; [exact E|].
  apply nth_error_Some. congruence.
Qed.

Lemma Forall_endedAt_update (js : list Job) (n : nat) (f : Job -> Job)
    (ks : list nat) :
  (forall x, mouldingEnded x -> mouldingEnded (f x)) ->
  Forall (endedAt js) ks -> Forall (endedAt (update n f js)) ks.
Proof.
  intros Hf H. eapply Forall_impl; [|exact H].
  intros k. apply endedAt_update. exact Hf.
Qed.

(** ** The handlers keep the invariant *)

Section Soundness.
Variable L : Q -> Q.
Hypothesis HL : log_bracket L.
Variable config : SimulationConfig.
Hypothesis mean_pos : 0 < arrivalIntervalMean config.

Lemma exponential_spec (mean : Q) (r r' : Random.t) (d : Q) :
  (0 <= Random.seed r)%Z -> 0 < mean ->
  Random.exponential L mean r = (d, r') ->
  0 <= d
  /\ (0 <= Random.seed r' < 233280)%Z
  /\ r' = snd (Random.next r)
  /\ (Random.seed r' <> 0%Z -> 0 < d).
Proof.
  intros Hr Hm E.
  pose proof (exponential_nonneg L HL mean r Hr) as N.
  pose proof (exponential_pos L HL mean r Hr Hm) as P.
  pose proof (exponential_seed L mean r) as Es.
  rewrite E in N, P, Es. cbn [fst snd] in N, P, Es. subst r'.
  split; [apply N; lra|].
  split; [apply next_seed_range; exact Hr|].
  split; [reflexivity|exact P].
Qed.

Lemma getProcessTime_spec (stage : Stage) (ty : option ProductType)
    (r r' : Random.t) (d : Q) :
  (0 <= Random.seed r)%Z ->
  getProcessTime L stage ty r = (d, r') ->
  0 <= d
  /\ (0 <= Random.seed r' < 233280)%Z
  /\ r' = snd (Random.next r)
  /\ (Random.seed r' <> 0%Z -> 0 < d).
Proof.
  intros Hr E. unfold getProcessTime in E.
  eapply exponential_spec; [exact Hr|apply baseMean_pos|exact E].
Qed.

(** The server of a finished job is handed to the head of the waiting
    queue: the shape shared by the three finish handlers. *)
Lemma handover_spec (waiting : list nat) (free1 : Z) (jobs1 : list Job)
    (r : Random.t) (q : list SimEvent) (now : Q) (stage : Stage)
    (setter : Q -> Job -> Job) (ty : EventType)
    (free2 : Z) (waiting2 : list nat) (jobs2 : list Job) (r2 : Random.t)
    (q2 : list SimEvent) :
  0 < now ->
  (0 <= Random.seed r < 233280)%Z ->
  Forall (fun e => 0 < time e) q ->
  match waiting with
  | [] => Some (free1, [], jobs1, r, q)
  | n :: rest =>
      next <- nth_error jobs1 n ;;
      (let (d, r') := getProcessTime L stage (productType next) r in
       Some ((free1 - 1)%Z, rest, update n (setter now) jobs1, r',
             schedule q ty (now + d) (Some n)))
  end = Some (free2, waiting2, jobs2, r2, q2) ->
  (0 <= Random.seed r2 < 233280)%Z
  /\ Forall (fun e => 0 < time e) q2
  /\ waiting2 = tl waiting
  /\ (jobs2 = jobs1
      \/ exists n, hd_error waiting = Some n
                   /\ jobs2 = update n (setter now) jobs1).
Proof.
  intros Hnow Hr Hq H.
  destruct waiting as [|n rest].
  - injection H as <- <- <- <- <-.
    split; [exact Hr|]. split; [exact Hq|]. split; [reflexivity|].
    left; reflexivity.
  - destruct (nth_error jobs1 n) as [next|]; [|discriminate].
    destruct (getProcessTime L stage (productType next) r) as [d r'] eqn:E.
    injection H as <- <- <- <- <-.
    destruct (getProcessTime_spec _ _ _ _ _ (proj1 Hr) E) as (D & R & _).
    split; [exact R|]. split.
    + apply Forall_schedule; [exact Hq|]. simpl. lra.
    + split; [reflexivity|]. right. exists n. split; reflexivity.
Qed.

Lemma neutral_jobs (f : Job -> Job) (n : nat) (js : list Job)
    (ks : list nat) :
  neutral f ->
  Forall inspectionSound js -> Forall (endedAt js) ks ->
  Forall inspectionSound (update n f js)
  /\ Forall (endedAt (update n f js)) ks.
Proof.
  intros N Hj Hk. split.
  - apply Forall_update; [exact Hj|].
    intros x _. apply neutral_sound; exact N.
  - apply Forall_endedAt_update; [|exact Hk].
    intros x. apply neutral_ended; exact N.
Qed.

Lemma onMouldingFinish_sound (s s' : SimState) (e : SimEvent) :
  0 < currentTime s ->
  (0 <= Random.seed (random s) < 233280)%Z ->
  Forall inspectionSound (jobs s) ->
  Forall (endedAt (jobs s)) (inspectionQueue s) ->
  Forall (fun e => 0 < time e) (queue s) ->
  onMouldingFinish L s e = Some s' ->
  Sound s'.
Proof.
  intros Hnow Hr Hj Hw Hq H.
  unfold onMouldingFinish in H.
  destruct (job e) as [j|]; [|discriminate].
  destruct (nth_error (jobs s) j) as [mJob|] eqn:Ej; [|discriminate].
  set (now := currentTime s) in *.
  set (jobs1 := update j (set_mouldingEndTime now) (jobs s)) in *.
  assert (J1 : Forall inspectionSound jobs1).
  { apply Forall_update; [exact Hj|].
    intros x _. apply sound_set_mouldingEndTime; exact Hnow. }
  assert (W1 : Forall (endedAt jobs1) (inspectionQueue s)).
  { apply Forall_endedAt_update; [|exact Hw].
    intros x _. apply ended_set_mouldingEndTime; exact Hnow. }
  assert (E1 : endedAt jobs1 j).
  { eapply endedAt_update_here; [exact Ej|].
    apply ended_set_mouldingEndTime; exact Hnow. }
  match type of H with
  | match ?m with _ => _ end = _ =>
      destruct m as [[[[[free2 mq2] jobs2] r2] q2]|] eqn:Eh; [|discriminate]
  end.
  apply handover_spec in Eh; [|assumption..].
  destruct Eh as (R2 & Q2 & _ & Hjobs2).
  assert (J2 : Forall inspectionSound jobs2
               /\ Forall (endedAt jobs2) (j :: inspectionQueue s)).
  { destruct Hjobs2 as [->|(n & _ & ->)].
    - split; [exact J1|constructor; assumption].
    - apply neutral_jobs;
        [apply neutral_set_mouldingStartTime|exact J1|constructor; assumption].
  }
  destruct J2 as [J2 W2]. inversion W2 as [|? ? E2 W2']; subst.
  destruct (0 <? inspectionFree s)%Z.
  - destruct (getProcessTime L Inspection (productType mJob) r2)
      as [d r3] eqn:Ed.
    destruct (getProcessTime_spec _ _ _ _ _ (proj1 R2) Ed) as (D & R3 & _).
    injection H as <-. constructor; cbn.
    + exact R3.
    + apply Forall_update; [exact J2|].
      intros x Ex _. apply sound_set_inspectionStartTime; [exact Hnow|].
      destruct E2 as (y & Ey & My). congruence.
    + apply Forall_endedAt_update; [|exact W2'].
      intros x. apply ended_set_inspectionStartTime.
    + left. apply Forall_schedule; [exact Q2|]. simpl. lra.
  - injection H as <-. constructor; cbn.
    + exact R2.
    + exact J2.
    + rewrite Forall_app. split; [exact W2'|constructor; [exact E2|constructor]].
    + left. exact Q2.
Qed.

Lemma onInspectionFinish_sound (s s' : SimState) (e : SimEvent) :
  0 < currentTime s ->
  (0 <= Random.seed (random s) < 233280)%Z ->
  Forall inspectionSound (jobs s) ->
  Forall (endedAt (jobs s)) (inspectionQueue s) ->
  Forall (fun e => 0 < time e) (queue s) ->
  onInspectionFinish L s e = Some s' ->
  Sound s'.
Proof.
  intros Hnow Hr Hj Hw Hq H.
  unfold onInspectionFinish in H.
  destruct (job e) as [j|]; [|discriminate].
  destruct (nth_error (jobs s) j) as [iJob|] eqn:Ej; [|discriminate].
  set (now := currentTime s) in *.
  set (jobs1 := update j (set_inspectionEndTime now) (jobs s)) in *.
  destruct (neutral_jobs _ j _ _ (neutral_set_inspectionEndTime now) Hj Hw)
    as [J1 W1].
  fold jobs1 in J1, W1.
  match type of H with
  | match ?m with _ => _ end = _ =>
      destruct m as [[[[[free2 iq2] jobs2] r2] q2]|] eqn:Eh; [|discriminate]
  end.
  apply handover_spec in Eh; [|assumption..].
  destruct Eh as (R2 & Q2 & -> & Hjobs2).
  assert (J2 : Forall inspectionSound jobs2
               /\ Forall (endedAt jobs2) (tl (inspectionQueue s))).
  { destruct Hjobs2 as [->|(n & Hn & ->)].
    - split; [exact J1|].
      destruct (inspectionQueue s); [constructor|]. inversion W1; assumption.
    - destruct (inspectionQueue s) as [|n' rest]; [discriminate|].
      injection Hn as ->. inversion W1 as [|? ? En Wr]; subst. split.
      + apply Forall_update; [exact J1|].
        intros x Ex _. apply sound_set_inspectionStartTime; [exact Hnow|].
        destruct En as (y & Ey & My). congruence.
      + apply Forall_endedAt_update; [|exact Wr].
        intros x. apply ended_set_inspectionStartTime. }
  destruct J2 as [J2 W2].
  destruct (0 <? packagingFree s)%Z.
  - destruct (getProcessTime L Packaging (productType iJob) r2)
      as [d r3] eqn:Ed.
    destruct (getProcessTime_spec _ _ _ _ _ (proj1 R2) Ed) as (D & R3 & _).
    destruct (neutral_jobs _ j _ _ (neutral_set_packagingStartTime now) J2 W2)
      as [J3 W3].
    injection H as <-. constructor; cbn.
    + exact R3.
    + exact J3.
    + exact W3.
    + left. apply Forall_schedule; [exact Q2|]. simpl. lra.
  - injection H as <-. constructor; cbn.
    + exact R2.
    + exact J2.
    + exact W2.
    + left. exact Q2.
Qed.

Lemma onPackagingFinish_sound (s s' : SimState) (e : SimEvent) :
  0 < currentTime s ->
  (0 <= Random.seed (random s) < 233280)%Z ->
  Forall inspectionSound (jobs s) ->
  Forall (endedAt (jobs s)) (inspectionQueue s) ->
  Forall (fun e => 0 < time e) (queue s) ->
  onPackagingFinish L s e = Some s' ->
  Sound s'.
Proof.
  intros Hnow Hr Hj Hw Hq H.
  unfold onPackagingFinish in H.
  destruct (job e) as [j|]; [|discriminate].
  destruct (nth_error (jobs s) j) as [pJob|] eqn:Ej; [|discriminate].
  set (now := currentTime s) in *.
  set (jobs1 := update j _ (jobs s)) in *.
  destruct (neutral_jobs _ j _ _ (neutral_set_packagingEnd now) Hj Hw)
    as [J1 W1].
  fold jobs1 in J1, W1.
  match type of H with
  | match ?m with _ => _ end = _ =>
      destruct m as [[[[[free2 pq2] jobs2] r2] q2]|] eqn:Eh; [|discriminate]
  end.
  apply handover_spec in Eh; [|assumption..].
  destruct Eh as (R2 & Q2 & _ & Hjobs2).
  assert (J2 : Forall inspectionSound jobs2
               /\ Forall (endedAt jobs2) (inspectionQueue s)).
  { destruct Hjobs2 as [->|(n & _ & ->)].
    - split; assumption.
    - apply neutral_jobs;
        [apply neutral_set_packagingStartTime|exact J1|exact W1]. }
  destruct J2 as [J2 W2].
  injection H as <-. constructor; cbn.
  - exact R2.
  - exact J2.
  - exact W2.
  - left. exact Q2.
Qed.

Lemma onArrival_sound (s s' : SimState) :
  0 <= currentTime s ->
  0 < currentTime s \/ random s = Random.mk 0 ->
  (0 <= Random.seed (random s) < 233280)%Z ->
  Forall inspectionSound (jobs s) ->
  Forall (endedAt (jobs s)) (inspectionQueue s) ->
  Forall (fun e => 0 < time e) (queue s) ->
  onArrival L config s = Some s' ->
  Sound s'.
Proof.
  intros Hnow0 Hnow Hr Hj Hw Hq H.
  unfold onArrival in H.
  set (now := currentTime s) in *.
  pose proof (choice_seed [TypeA; TypeB; TypeC; TypeD] (random s)) as E1.
  destruct (Random.choice [TypeA; TypeB; TypeC; TypeD] (random s))
    as [ty r1].
  cbn [snd] in E1.
  assert (R1 : (0 <= Random.seed r1 < 233280)%Z)
    by (subst r1; apply next_seed_range; lia).
  destruct (Random.exponential L (arrivalIntervalMean config) r1)
    as [dt r2] eqn:Edt.
  destruct (exponential_spec _ _ _ _ (proj1 R1) mean_pos Edt)
    as (Dt & R2 & E2 & Pt).
  assert (Pdt : 0 < now + dt).
  { destruct Hnow as [P|Z]; [lra|].
    assert (0 < dt); [|lra]. apply Pt.
    rewrite E2, E1, Z. vm_compute. discriminate. }
  set (newJob := mkJob _ ty now None None None None None None false) in *.
  assert (J1 : Forall inspectionSound (jobs s ++ [newJob])).
  { rewrite Forall_app. split; [exact Hj|].
    constructor; [|constructor]. intros t Ht. discriminate. }
  assert (W1 : Forall (endedAt (jobs s ++ [newJob])) (inspectionQueue s)).
  { eapply Forall_impl; [|exact Hw]. intros k. apply endedAt_app. }
  set (q1 := if Qltb (now + dt) (duration config) then _ else _) in *.
  assert (Q1 : Forall (fun e => 0 < time e) q1).
  { unfold q1. destruct (Qltb (now + dt) (duration config)); [|exact Hq].
    apply Forall_schedule; [exact Hq|exact Pdt]. }
  destruct (0 <? mouldingFree s)%Z.
  - destruct (getProcessTime L Moulding ty r2) as [d r3] eqn:Ed.
    destruct (getProcessTime_spec _ _ _ _ _ (proj1 R2) Ed)
      as (D & R3 & E3 & Pd).
    assert (Pnd : 0 < now + d).
    { destruct Hnow as [P|Z]; [lra|].
      assert (0 < d); [|lra]. apply Pd.
      rewrite E3, E2, E1, Z. vm_compute. discriminate. }
    destruct (neutral_jobs _ (length (jobs s)) _ _
                (neutral_set_mouldingStartTime now) J1 W1) as [J2 W2].
    injection H as <-. constructor; cbn.
    + exact R3.
    + exact J2.
    + exact W2.
    + left. apply Forall_schedule; [exact Q1|exact Pnd].
  - injection H as <-. constructor; cbn.
    + exact R2.
    + exact J1.
    + exact W1.
    + left. exact Q1.
Qed.

(** One iteration of the loop keeps the invariant. *)
Lemma step_sound (s s' : SimState) :
  Sound s -> step L config s = Some s' -> Sound s'.
Proof.
  intros [Hr Hj Hw Hq] H. unfold step in H.
  destruct (queue s) as [|event rest] eqn:Eq; [discriminate|].
  destruct Hq as [Hq|(Zr & Zj & Zi & t & Zq & Zt)].
  - inversion Hq as [|? ? Pe Prest]; subst.
    destruct (type event).
    + eapply onArrival_sound; [| | | | | |exact H]; cbn;
        try assumption; [lra|left; exact Pe].
    + eapply onMouldingFinish_sound; [| | | | |exact H]; cbn; assumption.
    + eapply onInspectionFinish_sound; [| | | | |exact H]; cbn; assumption.
    + eapply onPackagingFinish_sound; [| | | | |exact H]; cbn; assumption.
  - rewrite Eq in Zq. injection Zq as -> ->. cbn [type] in H.
    eapply onArrival_sound; [| | | | | |exact H]; cbn;
      try assumption; [right; exact Zr|constructor].
Qed.

Lemma initialState_sound :
  (0 <= seed config)%Z -> Sound (initialState L config).
Proof.
  intros Hs. unfold initialState.
  destruct (Random.exponential L (arrivalIntervalMean config)
              (Random.mk (seed config))) as [t0 r] eqn:E.
  destruct (exponential_spec _ (Random.mk (seed config)) _ _ Hs mean_pos E)
    as (T0 & R & _ & P).
  constructor; cbn.
  - exact R.
  - constructor.
  - constructor.
  - destruct (Z.eq_dec (Random.seed r) 0) as [Z|N].
    + right. unfold zeroStart; cbn.
      split; [destruct r; simpl in Z; subst; reflexivity|].
      split; [reflexivity|]. split; [reflexivity|].
      exists t0. split; [reflexivity|exact T0].
    + left. constructor; [exact (P N)|constructor].
Qed.

Lemma loop_sound (fuel : nat) (s s' : SimState) :
  Sound s -> loop L config fuel s = Some s' -> Sound s'.
Proof.
  revert s; induction fuel as [|fuel IH]; intros s S H; simpl in H.
  - destruct (running config s); [discriminate|]. congruence.
  - destruct (running config s); [|congruence].
    destruct (step L config s) as [s1|] eqn:E; [|discriminate].
    eapply IH; [|exact H]. eapply step_sound; eassumption.
Qed.

End Soundness.

(** ** The degradation cost of a run *)

Lemma fold_left_Qplus (l : list Q) (a : Q) :
  fold_left Qplus l a == a + sumQ l.
Proof.
  unfold sumQ. revert a; induction l as [|x l IH]; intros a; simpl.
  - ring.
  - rewrite (IH (a + x)), (IH (0 + x)). ring.
Qed.

Lemma sumQ_cons (x : Q) (l : list Q) : sumQ (x :: l) == x + sumQ l.
Proof. unfold sumQ at 1. simpl. rewrite fold_left_Qplus. ring. Qed.

Lemma truthy_pos (t : Q) : 0 < t -> truthy (Some t) = true.
Proof.
  intros H. unfold truthy. rewrite Qeq_bool_false; [reflexivity|lra].
Qed.

(** On a job of the invariant the [forEach] body adds the job's cost when
    its inspection start is stamped, and nothing otherwise. *)
Lemma tally_degradation (config : SimulationConfig) (acc : Tally) (j : Job) :
  inspectionSound j ->
  totalDegradation (tally config acc j) =
  if reachedInspection j
  then totalDegradation acc + jobDegradationCost config j
  else totalDegradation acc.
Proof.
  intros S. unfold tally, reachedInspection, jobDegradationCost.
  destruct (inspectionStartTime j) as [t|] eqn:Ei.
  - destruct (S t Ei) as (Pt & me & -> & Pm).
    rewrite (truthy_pos _ Pt), (truthy_pos _ Pm). reflexivity.
  - reflexivity.
Qed.

Lemma tallyJobs_degradation (config : SimulationConfig) (js : list Job) :
  Forall inspectionSound js ->
  totalDegradation (tallyJobs config js) == degradationCostSpec config js.
Proof.
  unfold tallyJobs, degradationCostSpec.
  assert (G : forall acc,
             Forall inspectionSound js ->
             totalDegradation (fold_left (tally config) js acc) ==
             totalDegradation acc
             + sumQ (map (jobDegradationCost config)
                       (filter reachedInspection js))).
  { induction js as [|j js IH]; intros acc H.
    - simpl. unfold sumQ; simpl. ring.
    - inversion H as [|? ? Sj Sjs]; subst. simpl.
      rewrite (IH _ Sjs), (tally_degradation config acc j Sj).
      destruct (reachedInspection j); simpl; [|reflexivity].
      rewrite sumQ_cons. ring. }
  intros H. rewrite (G _ H). simpl. ring.
Qed.

(** C6. On a valid configuration (positive arrival mean, non-negative
    seed, a logarithm inside its bracket) a completed run reports as
    [totalDegradationCost] the sum, over exactly the jobs whose inspection
    start is stamped, of
    [max(0, (inspectionStart - mouldingEnd) - threshold) * costPerMinute];
    each such job has its moulding end stamped; and
    [avgDegradationCostPerPart] is that total divided by the number of jobs
    created, or 0 when there is none. *)
Theorem degradation_cost_over_jobs_that_reached_inspection
    (L : Q -> Q) (config : SimulationConfig) (fuel : nat) (s : SimState) :
  log_bracket L ->
  0 < arrivalIntervalMean config ->
  (0 <= seed config)%Z ->
  loop L config fuel (initialState L config) = Some s ->
  let stats := statistics config s in
  runSingleSimulation L config fuel = Some stats
  /\ (forall j, In j (jobs s) -> reachedInspection j = true ->
       exists t0 t1, inspectionStartTime j = Some t1
                     /\ mouldingEndTime j = Some t0)
  /\ totalDegradationCost stats == degradationCostSpec config (jobs s)
  /\ totalJobs stats = Z.of_nat (length (jobs s))
  /\ avgDegradationCostPerPart stats ==
     if (totalJobs stats =? 0)%Z then 0
     else totalDegradationCost stats / inject_Z (totalJobs stats).
Proof.
  intros HL Hm Hs Hl stats.
  assert (S : Sound s).
  { eapply loop_sound; [exact HL|exact Hm| |exact Hl].
    apply initialState_sound; assumption. }
  destruct S as [_ Sj _ _].
  split; [unfold runSingleSimulation; rewrite Hl; reflexivity|].
  split.
  { intros j Hin Hr. rewrite Forall_forall in Sj. specialize (Sj j Hin).
    unfold reachedInspection in Hr.
    destruct (inspectionStartTime j) as [t1|] eqn:E; [|discriminate].
    destruct (Sj t1 E) as (_ & t0 & E0 & _).
    exists t0, t1. split; [reflexivity|exact E0]. }
  split; [apply tallyJobs_degradation; exact Sj|].
  split; [reflexivity|].
  cbn [stats avgDegradationCostPerPart totalDegradationCost totalJobs
       statistics].
  unfold safeDiv.
  destruct (Z.eqb_spec (Z.of_nat (length (jobs s))) 0) as [Z|N].
  - rewrite Z. reflexivity.
  - rewrite Qeq_bool_false; [reflexivity|].
    unfold Qeq; simpl. lia.
Qed.

Lemma degradation_cost_over_jobs_that_reached_inspection_witness :
  exists s,
    log_bracket ln_pade
    /\ 0 < arrivalIntervalMean shiftConfig
    /\ (0 <= seed shiftConfig)%Z
    /\ loop ln_pade shiftConfig 12 (initialState ln_pade shiftConfig) = Some s
    /\ let stats := statistics shiftConfig s in
       runSingleSimulation ln_pade shiftConfig 12 = Some stats
       /\ (forall j, In j (jobs s) -> reachedInspection j = true ->
            exists t0 t1, inspectionStartTime j = Some t1
                          /\ mouldingEndTime j = Some t0)
       /\ totalDegradationCost stats == degradationCostSpec shiftConfig (jobs s)
       /\ totalJobs stats = Z.of_nat (length (jobs s))
       /\ avgDegradationCostPerPart stats ==
          if (totalJobs stats =? 0)%Z then 0
          else totalDegradationCost stats / inject_Z (totalJobs stats).
Proof.
  eexists.
  split; [exact ln_pade_bracket|].
  split; [reflexivity|].
  split; [simpl; lia|].
  split; [vm_compute; reflexivity|].
  apply (degradation_cost_over_jobs_that_reached_inspection
           ln_pade shiftConfig 12 _ ln_pade_bracket);
    [reflexivity|simpl; lia|vm_compute; reflexivity].
Defined.

(** * Further properties of the engine *)

(** ** Case analysis of one iteration *)

(** Split every test and every draw in the result of a handler. *)
Ltac crack H :=
  repeat match type of H with
  | context [match ?x with _ => _ end] =>
      lazymatch x with
      | context [match _ with _ => _ end] => fail
      | _ => destruct x eqn:?; try discriminate H
      end
  end.

Ltac crack_step H :=
  unfold onArrival, onMouldingFinish, onInspectionFinish,
    onPackagingFinish in H;
  cbn [currentTime jobs random queue mouldingFree inspectionFree
       packagingFree mouldingQueue inspectionQueue packagingQueue
       totalMouldingBusyTime totalInspectionBusyTime totalPackagingBusyTime
       lastEventTime wipArea currentWip] in H;
  crack H; injection H as <-.

Ltac tests_to_props :=
  repeat match goal with
  | H : (_ <? _)%Z = true |- _ => apply Z.ltb_lt in H
  | H : (_ <? _)%Z = false |- _ => apply Z.ltb_ge in H
  end.

(** ** What one iteration does to the clock, the WIP and the job list *)

Lemma step_accounting (L : Q -> Q) (config : SimulationConfig)
    (s s' : SimState) :
  step L config s = Some s' ->
  exists e rest,
    queue s = e :: rest
    /\ currentTime s' = time e
    /\ lastEventTime s' = time e
    /\ wipArea s' =
       wipArea s + inject_Z (currentWip s) * (time e - lastEventTime s)
    /\ currentWip s' = (currentWip s + wipDelta e)%Z
    /\ length (jobs s') =
       (length (jobs s) + if isType ARRIVAL e then 1 else 0)%nat.
Proof.
  intros H. unfold step in H.
  destruct (queue s) as [|e rest]; [discriminate|].
  exists e, rest. split; [reflexivity|].
  unfold wipDelta, isType.
  destruct (type e); crack_step H;
    cbn [currentTime lastEventTime wipArea currentWip jobs];
    rewrite ?length_update, ?length_app; cbn [length];
    repeat split; try reflexivity; lia.
Qed.

Lemma step_accounting_at (L : Q -> Q) (config : SimulationConfig)
    (s s' : SimState) (e : SimEvent) (rest : list SimEvent) :
  queue s = e :: rest ->
  step L config s = Some s' ->
  currentTime s' = time e
  /\ lastEventTime s' = time e
  /\ wipArea s' =
     wipArea s + inject_Z (currentWip s) * (time e - lastEventTime s)
  /\ currentWip s' = (currentWip s + wipDelta e)%Z.
Proof.
  intros Hq H.
  destruct (step_accounting L config s s' H)
    as (e' & rest' & Hq' & Hc & Hl & Ha & Hw & _).
  rewrite Hq in Hq'. injection Hq' as <- <-.
  repeat split; assumption.
Qed.

(** X1. One iteration of the loop moves the clock to the time of the
    event it takes, adds to the WIP area the elapsed interval weighted with
    the WIP count as it was before the event, changes the count by +1 on an
    arrival, -1 on a packaging finish and 0 otherwise, and appends one job
    exactly on an arrival. *)
Theorem iteration_accounting (L : Q -> Q) (config : SimulationConfig)
    (s s' : SimState) (e : SimEvent) (rest : list SimEvent) :
  queue s = e :: rest ->
  step L config s = Some s' ->
  currentTime s' = time e
  /\ lastEventTime s' = time e
  /\ wipArea s' =
     wipArea s + inject_Z (currentWip s) * (time e - lastEventTime s)
  /\ currentWip s' = (currentWip s + wipDelta e)%Z
  /\ length (jobs s') =
     (length (jobs s) + if isType ARRIVAL e then 1 else 0)%nat.
Proof.
  intros Hq H.
  destruct (step_accounting L config s s' H) as (e' & rest' & Hq' & R).
  rewrite Hq in Hq'. injection Hq' as <- <-. exact R.
Qed.

Lemma iteration_accounting_witness :
  exists s' e,
    queue (initialState ln_pade shiftConfig) = e :: []
    /\ step ln_pade shiftConfig (initialState ln_pade shiftConfig) = Some s'
    /\ (currentTime s' = time e
        /\ lastEventTime s' = time e
        /\ wipArea s' =
           wipArea (initialState ln_pade shiftConfig)
           + inject_Z (currentWip (initialState ln_pade shiftConfig))
             * (time e - lastEventTime (initialState ln_pade shiftConfig))
        /\ currentWip s' =
           (currentWip (initialState ln_pade shiftConfig) + wipDelta e)%Z
        /\ length (jobs s') =
           (length (jobs (initialState ln_pade shiftConfig))
            + if isType ARRIVAL e then 1 else 0)%nat).
Proof.
  eexists; eexists.
  split; [vm_compute; reflexivity|].
  split; [vm_compute; reflexivity|].
  apply (iteration_accounting ln_pade shiftConfig _ _ _ []);
    vm_compute; reflexivity.
Defined.

(** X2. The loop overshoots by at most one event: every event it handles,
    except possibly the last one, has a timestamp before [duration]. *)
Theorem only_last_event_can_pass_duration (L : Q -> Q)
    (config : SimulationConfig) (fuel : nat) (s : SimState) :
  Forall (fun e => time e < duration config)
         (removelast (processed L config fuel s)).
Proof.
  revert s; induction fuel as [|fuel IH]; intros s; [constructor|].
  cbn [processed].
  destruct (running config s); [|constructor].
  destruct (queue s) as [|e rest] eqn:Eq; [constructor|].
  destruct (step L config s) as [s'|] eqn:Es; [|constructor].
  destruct (step_accounting_at L config s s' e rest Eq Es) as (Hc & _).
  specialize (IH s').
  destruct fuel as [|fuel]; [constructor|].
  cbn [processed] in *.
  destruct (running config s') eqn:R; [|constructor].
  destruct (queue s') as [|e' rest']; [constructor|].
  assert (T : time e < duration config).
  { unfold running in R. destruct (queue s'); [discriminate|].
    apply Qltb_lt in R. rewrite Hc in R. exact R. }
  destruct (step L config s'); cbn [removelast] in *;
    constructor; assumption.
Qed.

(** ** Servers and jobs are accounted for *)

Lemma pending_cons (ty : EventType) (e : SimEvent) (q : list SimEvent) :
  pending ty (e :: q) = (pending ty q + if isType ty e then 1 else 0)%Z.
Proof.
  unfold pending. cbn [filter]. destruct (isType ty e); cbn [length]; lia.
Qed.

Lemma filter_length_insert {A} (f : A -> bool) (leb : A -> A -> bool)
    (x : A) (l : list A) :
  length (filter f (insert leb x l)) = length (filter f (x :: l)).
Proof.
  induction l as [|y l IH]; [reflexivity|].
  cbn [insert]. destruct (leb y x); [|reflexivity].
  cbn [filter] in *. destruct (f y), (f x); cbn [length] in *; lia.
Qed.

Lemma filter_length_sort {A} (f : A -> bool) (leb : A -> A -> bool)
    (l : list A) :
  length (filter f (sort leb l)) = length (filter f l).
Proof.
  induction l as [|x l IH] using rev_ind; [reflexivity|].
  rewrite sort_snoc, filter_length_insert. cbn [filter].
  rewrite filter_app, length_app. cbn [filter].
  destruct (f x); cbn [length]; lia.
Qed.

Lemma pending_schedule (ty ty' : EventType) (q : list SimEvent) (t : Q)
    (j : option nat) :
  pending ty (schedule q ty' t j) =
  (pending ty q + if isType ty (mkEvent t ty' j) then 1 else 0)%Z.
Proof.
  unfold pending, schedule.
  rewrite filter_length_sort, filter_app, length_app. cbn [filter].
  destruct (isType ty (mkEvent t ty' j)); cbn [length]; lia.
Qed.

Lemma initialState_accounted (L : Q -> Q) (config : SimulationConfig) :
  Accounted config (initialState L config).
Proof.
  unfold initialState.
  destruct (Random.exponential L (arrivalIntervalMean config)
              (Random.mk (seed config))) as [t0 r].
  constructor; cbn [mouldingFree inspectionFree packagingFree queue
                    currentWip mouldingQueue inspectionQueue packagingQueue];
    rewrite ?pending_schedule; cbn; try lia; congruence.
Qed.

Lemma step_accounted (L : Q -> Q) (config : SimulationConfig)
    (s s' : SimState) :
  Accounted config s -> step L config s = Some s' -> Accounted config s'.
Proof.
  intros [Am Ai Ap Aw Wm Wi Wp Aa Fm Fi Fp] H. unfold step in H.
  destruct (queue s) as [|e rest] eqn:Eq; [discriminate|].
  repeat rewrite pending_cons in Am.
  repeat rewrite pending_cons in Ai.
  repeat rewrite pending_cons in Ap.
  repeat rewrite pending_cons in Aw.
  repeat rewrite pending_cons in Aa.
  unfold isType in *.
  destruct (type e) eqn:Ety; crack_step H; tests_to_props;
    constructor;
    cbn [mouldingFree inspectionFree packagingFree queue currentWip
         mouldingQueue inspectionQueue packagingQueue];
    repeat rewrite pending_schedule; rewrite ?length_app; unfold isType;
    cbn [type length] in *; unfold pending in *;
    try (intros; lia);
    try (intros N; first [contradiction N; reflexivity
                         |specialize (Wm ltac:(congruence)); lia
                         |specialize (Wi ltac:(congruence)); lia
                         |specialize (Wp ltac:(congruence)); lia]).
Qed.

Lemma reachable_accounted (L : Q -> Q) (config : SimulationConfig)
    (s : SimState) :
  Reachable L config s -> Accounted config s.
Proof.
  induction 1 as [|s s' _ IH _ Hs].
  - apply initialState_accounted.
  - eapply step_accounted; eassumption.
Qed.

Lemma loop_reachable (L : Q -> Q) (config : SimulationConfig) (fuel : nat)
    (s s' : SimState) :
  Reachable L config s -> loop L config fuel s = Some s' ->
  Reachable L config s'.
Proof.
  revert s; induction fuel as [|fuel IH]; intros s R H; cbn [loop] in H.
  - destruct (running config s); [discriminate|]. congruence.
  - destruct (running config s) eqn:Er; [|congruence].
    destruct (step L config s) as [s1|] eqn:Es; [|discriminate].
    apply (IH s1); [|exact H]. eapply reach_step; eassumption.
Qed.

(** X3. In every state the loop reaches, the WIP counter is the number of
    jobs waiting in the three queues plus the number of jobs in service
    (pending finish events); so it is never negative.  At most one arrival
    is pending. *)
Theorem wip_counts_jobs_in_system (L : Q -> Q) (config : SimulationConfig)
    (s : SimState) :
  Reachable L config s ->
  (currentWip s
   = Z.of_nat (length (mouldingQueue s))
     + Z.of_nat (length (inspectionQueue s))
     + Z.of_nat (length (packagingQueue s))
     + pending MOULDING_FINISH (queue s)
     + pending INSPECTION_FINISH (queue s)
     + pending PACKAGING_FINISH (queue s))%Z
  /\ (0 <= currentWip s)%Z
  /\ (pending ARRIVAL (queue s) <= 1)%Z.
Proof.
  intros R. destruct (reachable_accounted L config s R).
  split; [assumption|]. split; [|lia].
  unfold pending in *. lia.
Qed.

Lemma wip_counts_jobs_in_system_witness :
  exists s,
    Reachable ln_pade shiftConfig s
    /\ currentWip s = 1%Z
    /\ ((currentWip s
         = Z.of_nat (length (mouldingQueue s))
           + Z.of_nat (length (inspectionQueue s))
           + Z.of_nat (length (packagingQueue s))
           + pending MOULDING_FINISH (queue s)
           + pending INSPECTION_FINISH (queue s)
           + pending PACKAGING_FINISH (queue s))%Z
        /\ (0 <= currentWip s)%Z
        /\ (pending ARRIVAL (queue s) <= 1)%Z).
Proof.
  eexists.
  assert (R : Reachable ln_pade shiftConfig
                (match step ln_pade shiftConfig
                         (initialState ln_pade shiftConfig) with
                 | Some s' => s'
                 | None => initialState ln_pade shiftConfig
                 end)).
  { apply (reach_step (reach_initial ln_pade shiftConfig));
      [vm_compute; reflexivity|].
    destruct (step ln_pade shiftConfig (initialState ln_pade shiftConfig))
      eqn:E; [reflexivity|].
    vm_compute in E. discriminate E. }
  split; [exact R|].
  split; [vm_compute; reflexivity|].
  apply (wip_counts_jobs_in_system ln_pade shiftConfig _ R).
Defined.

(** X4. Servers are conserved: at each stage the free servers plus the
    jobs in service make up the configured count; with a non-negative
    count the free servers stay between 0 and the count; and no job waits
    at a stage while one of its servers is free. *)
Theorem servers_are_conserved (L : Q -> Q) (config : SimulationConfig)
    (s : SimState) :
  Reachable L config s ->
  ((mouldingFree s + pending MOULDING_FINISH (queue s)
    = mouldingMachines config)%Z
   /\ ((0 <= mouldingMachines config)%Z ->
       (0 <= mouldingFree s <= mouldingMachines config)%Z)
   /\ (mouldingQueue s <> [] -> (mouldingFree s <= 0)%Z))
  /\ ((inspectionFree s + pending INSPECTION_FINISH (queue s)
       = inspectionStations config)%Z
      /\ ((0 <= inspectionStations config)%Z ->
          (0 <= inspectionFree s <= inspectionStations config)%Z)
      /\ (inspectionQueue s <> [] -> (inspectionFree s <= 0)%Z))
  /\ ((packagingFree s + pending PACKAGING_FINISH (queue s)
       = packagingMachines config)%Z
      /\ ((0 <= packagingMachines config)%Z ->
          (0 <= packagingFree s <= packagingMachines config)%Z)
      /\ (packagingQueue s <> [] -> (packagingFree s <= 0)%Z)).
Proof.
  intros R. destruct (reachable_accounted L config s R).
  unfold pending in *.
  repeat split; try assumption; try (intros; lia); auto.
Qed.

Lemma servers_are_conserved_witness :
  Reachable ln_pade shiftConfig (initialState ln_pade shiftConfig)
  /\ (((mouldingFree (initialState ln_pade shiftConfig)
        + pending MOULDING_FINISH (queue (initialState ln_pade shiftConfig))
        = mouldingMachines shiftConfig)%Z
       /\ ((0 <= mouldingMachines shiftConfig)%Z ->
           (0 <= mouldingFree (initialState ln_pade shiftConfig)
            <= mouldingMachines shiftConfig)%Z)
       /\ (mouldingQueue (initialState ln_pade shiftConfig) <> [] ->
           (mouldingFree (initialState ln_pade shiftConfig) <= 0)%Z))
      /\ ((inspectionFree (initialState ln_pade shiftConfig)
           + pending INSPECTION_FINISH
               (queue (initialState ln_pade shiftConfig))
           = inspectionStations shiftConfig)%Z
          /\ ((0 <= inspectionStations shiftConfig)%Z ->
              (0 <= inspectionFree (initialState ln_pade shiftConfig)
               <= inspectionStations shiftConfig)%Z)
          /\ (inspectionQueue (initialState ln_pade shiftConfig) <> [] ->
              (inspectionFree (initialState ln_pade shiftConfig) <= 0)%Z))
      /\ ((packagingFree (initialState ln_pade shiftConfig)
           + pending PACKAGING_FINISH
               (queue (initialState ln_pade shiftConfig))
           = packagingMachines shiftConfig)%Z
          /\ ((0 <= packagingMachines shiftConfig)%Z ->
              (0 <= packagingFree (initialState ln_pade shiftConfig)
               <= packagingMachines shiftConfig)%Z)
          /\ (packagingQueue (initialState ln_pade shiftConfig) <> [] ->
              (packagingFree (initialState ln_pade shiftConfig) <= 0)%Z))).
Proof.
  split; [apply reach_initial|].
  apply (servers_are_conserved ln_pade shiftConfig _
           (reach_initial ln_pade shiftConfig)).
Defined.

Lemma advance_reachable (L : Q -> Q) (config : SimulationConfig) (n : nat)
    (s : SimState) :
  Reachable L config s -> Reachable L config (advance L config n s).
Proof.
  revert s; induction n as [|n IH]; intros s R; [exact R|].
  cbn [advance]. destruct (running config s) eqn:Er; [|exact R].
  destruct (step L config s) as [s'|] eqn:Es; [|exact R].
  apply IH. eapply reach_step; eassumption.
Qed.

(** ** Job identifiers and the number of jobs *)

Lemma idsSequential_update (n : nat) (f : Job -> Job) (js : list Job) :
  (forall x, id (f x) = id x) ->
  idsSequential js -> idsSequential (update n f js).
Proof.
  intros Hf H k x E. rewrite nth_error_update in E.
  destruct (nth_error js k) as [y|] eqn:Ey; [|discriminate].
  cbn [option_map] in E. injection E as <-.
  destruct (Nat.eqb n k); [rewrite Hf|]; apply H; exact Ey.
Qed.

Lemma idsSequential_snoc (js : list Job) (x : Job) :
  id x = (Z.of_nat (length js) + 1)%Z ->
  idsSequential js -> idsSequential (js ++ [x]).
Proof.
  intros Hx H k y E.
  destruct (Nat.lt_ge_cases k (length js)) as [Lt|Ge].
  - rewrite nth_error_app1 in E by exact Lt. apply H; exact E.
  - rewrite nth_error_app2 in E by exact Ge.
    destruct (k - length js)%nat as [|m] eqn:Ek.
    + cbn in E. injection E as <-. rewrite Hx. f_equal. lia.
    + cbn in E. destruct m; discriminate.
Qed.

Lemma step_ids (L : Q -> Q) (config : SimulationConfig) (s s' : SimState) :
  idsSequential (jobs s) -> step L config s = Some s' ->
  idsSequential (jobs s').
Proof.
  intros I H. unfold step in H.
  destruct (queue s) as [|e rest]; [discriminate|].
  destruct (type e); crack_step H; cbn [jobs];
    repeat (apply idsSequential_update; [intros x; reflexivity|]);
    try assumption;
    (apply idsSequential_snoc; [reflexivity|assumption]).
Qed.

Lemma initialState_jobs (L : Q -> Q) (config : SimulationConfig) :
  jobs (initialState L config) = [].
Proof.
  unfold initialState.
  destruct (Random.exponential L (arrivalIntervalMean config)
              (Random.mk (seed config))); reflexivity.
Qed.

(** X5. In every state the loop reaches, the job at position [k] of the
    [jobs] array has identifier [k + 1]: identifiers are unique and count
    the jobs in the order of their arrival. *)
Theorem job_ids_are_positions (L : Q -> Q) (config : SimulationConfig)
    (s : SimState) (k : nat) (x : Job) :
  Reachable L config s ->
  nth_error (jobs s) k = Some x ->
  id x = (Z.of_nat k + 1)%Z.
Proof.
  intros R. revert k x. change (idsSequential (jobs s)).
  induction R as [|s s' _ IH _ Hs].
  - rewrite initialState_jobs. intros [|k] x E; discriminate E.
  - eapply step_ids; eassumption.
Qed.

Lemma job_ids_are_positions_witness :
  exists x,
    Reachable ln_pade shiftConfig
      (advance ln_pade shiftConfig 3 (initialState ln_pade shiftConfig))
    /\ nth_error
         (jobs (advance ln_pade shiftConfig 3
                  (initialState ln_pade shiftConfig))) 1 = Some x
    /\ id x = (Z.of_nat 1 + 1)%Z.
Proof.
  eexists.
  split; [apply advance_reachable; apply reach_initial|].
  split; [vm_compute; reflexivity|].
  apply (job_ids_are_positions ln_pade shiftConfig
           (advance ln_pade shiftConfig 3 (initialState ln_pade shiftConfig))
           1);
    [apply advance_reachable; apply reach_initial|vm_compute; reflexivity].
Defined.

Lemma loop_jobs_count (L : Q -> Q) (config : SimulationConfig) (fuel : nat)
    (s s' : SimState) :
  loop L config fuel s = Some s' ->
  length (jobs s') =
  (length (jobs s)
   + length (filter (isType ARRIVAL) (processed L config fuel s)))%nat.
Proof.
  revert s; induction fuel as [|fuel IH]; intros s H;
    cbn [loop processed] in *.
  - destruct (running config s); [discriminate|].
    injection H as <-. cbn. lia.
  - destruct (running config s); [|injection H as <-; cbn; lia].
    destruct (step L config s) as [s1|] eqn:Es; [|discriminate].
    destruct (step_accounting L config s s1 Es) as (e & rest & Eq & A).
    rewrite Eq. destruct A as (_ & _ & _ & _ & Hl).
    rewrite (IH s1 H), Hl. cbn [filter].
    destruct (isType ARRIVAL e); cbn [length]; lia.
Qed.

(** X6. A completed run reports as [totalJobs] the number of arrival
    events the loop handled, and [completedJobs] never exceeds it. *)
Theorem total_jobs_counts_arrivals (L : Q -> Q) (config : SimulationConfig)
    (fuel : nat) (stats : SimulationStats) :
  runSingleSimulation L config fuel = Some stats ->
  totalJobs stats =
    Z.of_nat (length (filter (isType ARRIVAL)
                        (processed L config fuel (initialState L config))))
  /\ (0 <= completedJobs stats <= totalJobs stats)%Z.
Proof.
  unfold runSingleSimulation. intros H.
  destruct (loop L config fuel (initialState L config)) as [s|] eqn:El;
    [|discriminate].
  injection H as <-. cbn [totalJobs completedJobs statistics].
  rewrite (loop_jobs_count L config fuel _ _ El), initialState_jobs.
  split; [reflexivity|].
  pose proof (filter_length_le finished (jobs s)) as Hf.
  rewrite (loop_jobs_count L config fuel _ _ El), initialState_jobs in Hf.
  cbn [length Nat.add] in *. lia.
Qed.

Lemma total_jobs_counts_arrivals_witness :
  exists stats,
    runSingleSimulation ln_pade shiftConfig 12 = Some stats
    /\ (totalJobs stats =
          Z.of_nat (length (filter (isType ARRIVAL)
                              (processed ln_pade shiftConfig 12
                                 (initialState ln_pade shiftConfig))))
        /\ (0 <= completedJobs stats <= totalJobs stats)%Z).
Proof.
  eexists. split; [vm_compute; reflexivity|].
  apply (total_jobs_counts_arrivals ln_pade shiftConfig 12).
  vm_compute; reflexivity.
Defined.

(** ** The clock never runs backwards *)

Lemma insert_time_sorted (e : SimEvent) (q : list SimEvent) :
  StronglySorted (fun a b => time a <= time b) q ->
  StronglySorted (fun a b => time a <= time b) (insert time_leb e q).
Proof.
  induction 1 as [|y q Sq IH F]; cbn [insert].
  - repeat constructor.
  - unfold time_leb at 1. destruct (Qle_bool (time y) (time e)) eqn:E.
    + apply Qle_bool_iff in E. constructor; [exact IH|].
      apply Forall_insert; assumption.
    + assert (Lt : time e < time y).
      { destruct (Qlt_le_dec (time e) (time y)) as [Lt|Ge]; [exact Lt|].
        apply Qle_bool_iff in Ge. congruence. }
      constructor; [constructor; assumption|].
      constructor; [lra|].
      eapply Forall_impl; [|exact F]. intros z Hz. cbn beta in *. lra.
Qed.

Lemma time_sorted_leb (q : list SimEvent) :
  StronglySorted (fun a b => time a <= time b) q ->
  StronglySorted (fun a b => time_leb a b = true) q.
Proof.
  induction 1 as [|a q Sq IH F]; constructor; [exact IH|].
  eapply Forall_impl; [|exact F].
  intros b Hb. apply Qle_bool_iff. exact Hb.
Qed.

(** On a queue in time order [schedule] is an insertion. *)
Lemma schedule_is_insert (q : list SimEvent) (ty : EventType) (t : Q)
    (j : option nat) :
  StronglySorted (fun a b => time a <= time b) q ->
  schedule q ty t j = insert time_leb (mkEvent t ty j) q.
Proof.
  intros Sq. unfold schedule.
  rewrite sort_snoc, (sort_sorted _ _ _ (time_sorted_leb q Sq)). reflexivity.
Qed.

Lemma schedule_time_sorted (q : list SimEvent) (ty : EventType) (t : Q)
    (j : option nat) :
  StronglySorted (fun a b => time a <= time b) q ->
  StronglySorted (fun a b => time a <= time b) (schedule q ty t j).
Proof.
  intros Sq. rewrite schedule_is_insert by exact Sq.
  apply insert_time_sorted; exact Sq.
Qed.

Section Clock.
Variable L : Q -> Q.
Hypothesis HL : log_bracket L.
Variable config : SimulationConfig.
Hypothesis mean_nonneg : 0 <= arrivalIntervalMean config.
Hypothesis seed_nonneg : (0 <= seed config)%Z.

Lemma choice_draw {A} (items : list A) (r r' : Random.t) (o : option A) :
  (0 <= Random.seed r < 233280)%Z ->
  Random.choice items r = (o, r') ->
  (0 <= Random.seed r' < 233280)%Z.
Proof.
  intros R E. pose proof (choice_seed items r) as S.
  rewrite E in S. cbn [snd] in S. subst r'.
  apply next_seed_range. lia.
Qed.

Lemma exponential_draw (mean : Q) (r r' : Random.t) (d : Q) :
  (0 <= Random.seed r < 233280)%Z -> 0 <= mean ->
  Random.exponential L mean r = (d, r') ->
  0 <= d /\ (0 <= Random.seed r' < 233280)%Z.
Proof.
  intros R M E.
  pose proof (exponential_nonneg L HL mean r (proj1 R) M) as N.
  pose proof (exponential_seed L mean r) as S.
  rewrite E in N, S. cbn [fst snd] in N, S. subst r'.
  split; [exact N|apply next_seed_range; lia].
Qed.

Lemma getProcessTime_draw (stage : Stage) (ty : option ProductType)
    (r r' : Random.t) (d : Q) :
  (0 <= Random.seed r < 233280)%Z ->
  getProcessTime L stage ty r = (d, r') ->
  0 <= d /\ (0 <= Random.seed r' < 233280)%Z.
Proof.
  intros R E. unfold getProcessTime in E.
  eapply exponential_draw; [exact R| |exact E].
  pose proof (baseMean_pos stage ty). lra.
Qed.

(** Collect what is known of every draw in the context. *)
Ltac learn_draws :=
  repeat match goal with
  | H : Random.choice _ ?r = (_, ?r'),
    R : (0 <= Random.seed ?r < 233280)%Z |- _ =>
      lazymatch goal with
      | _ : (0 <= Random.seed r' < 233280)%Z |- _ => fail
      | _ => pose proof (choice_draw _ _ _ _ R H)
      end
  | H : Random.exponential L _ ?r = (_, ?r'),
    R : (0 <= Random.seed ?r < 233280)%Z |- _ =>
      lazymatch goal with
      | _ : (0 <= Random.seed r' < 233280)%Z |- _ => fail
      | _ => destruct (exponential_draw _ _ _ _ R mean_nonneg H)
      end
  | H : getProcessTime L _ _ ?r = (_, ?r'),
    R : (0 <= Random.seed ?r < 233280)%Z |- _ =>
      lazymatch goal with
      | _ : (0 <= Random.seed r' < 233280)%Z |- _ => fail
      | _ => destruct (getProcessTime_draw _ _ _ _ _ R H)
      end
  end.

Lemma initialState_timed : Timed (initialState L config).
Proof.
  unfold initialState.
  destruct (Random.exponential L (arrivalIntervalMean config)
              (Random.mk (seed config))) as [t0 r] eqn:E.
  pose proof (exponential_nonneg L HL _ (Random.mk (seed config))
                seed_nonneg mean_nonneg) as N.
  pose proof (exponential_seed L (arrivalIntervalMean config)
                (Random.mk (seed config))) as S.
  rewrite E in N, S. cbn [fst snd] in N, S.
  constructor; cbn.
  - subst r. apply next_seed_range. exact seed_nonneg.
  - lra.
  - reflexivity.
  - repeat constructor. exact N.
  - repeat constructor.
Qed.

Lemma step_timed (s s' : SimState) :
  Timed s -> step L config s = Some s' -> Timed s'.
Proof.
  intros [R C Hl P Sq] H. unfold step in H.
  destruct (queue s) as [|e rest] eqn:Eq; [discriminate|].
  inversion P as [|? ? Pe Prest]; subst.
  inversion Sq as [|? ? Srest Fe]; subst.
  destruct (type e); crack_step H; learn_draws;
    constructor;
    cbn [random currentTime lastEventTime queue];
    try assumption; try reflexivity; try lra;
    repeat first
      [ apply Forall_schedule; [|cbn [time]; lra]
      | apply schedule_time_sorted ];
    assumption.
Qed.

Lemma reachable_timed (s : SimState) : Reachable L config s -> Timed s.
Proof.
  induction 1 as [|s s' _ IH _ Hs].
  - apply initialState_timed.
  - eapply step_timed; eassumption.
Qed.

Lemma timed_processed_later (fuel : nat) (s : SimState) :
  Timed s ->
  Forall (fun e => currentTime s <= time e) (processed L config fuel s)
  /\ StronglySorted (fun a b => time a <= time b)
       (processed L config fuel s).
Proof.
  revert s; induction fuel as [|fuel IH]; intros s T;
    [split; constructor|].
  cbn [processed].
  destruct (running config s); [|split; constructor].
  destruct (queue s) as [|e rest] eqn:Eq; [split; constructor|].
  assert (Pe : currentTime s <= time e).
  { destruct T as [_ _ _ P _]. rewrite Eq in P. inversion P; assumption. }
  destruct (step L config s) as [s'|] eqn:Es;
    [|split; repeat constructor; exact Pe].
  destruct (step_accounting_at L config s s' e rest Eq Es) as (Hc & _).
  destruct (IH s' (step_timed s s' T Es)) as [F S].
  rewrite Hc in F. split.
  - constructor; [exact Pe|].
    eapply Forall_impl; [|exact F]. intros x Hx. cbn beta in *. lra.
  - constructor; [exact S|exact F].
Qed.

(** X7. On a valid configuration (a logarithm inside its bracket, a
    non-negative arrival mean and seed) simulated time never runs
    backwards: the events are handled in non-decreasing order of their
    timestamps, none before time 0, and in every state the loop reaches
    the queue is in time order with nothing pending in the past. *)
Theorem events_handled_in_time_order (fuel : nat) (s : SimState) :
  Reachable L config s ->
  0 <= currentTime s
  /\ Forall (fun e => currentTime s <= time e) (queue s)
  /\ StronglySorted (fun a b => time a <= time b) (queue s)
  /\ Forall (fun e => currentTime s <= time e) (processed L config fuel s)
  /\ StronglySorted (fun a b => time a <= time b)
       (processed L config fuel s).
Proof.
  intros R. pose proof (reachable_timed s R) as T.
  destruct (timed_processed_later fuel s T) as [F S].
  destruct T as [_ C _ P Sq]. repeat split; assumption.
Qed.

End Clock.

(** ** The WIP area is the integral of the WIP curve up to the last event *)

Lemma sumQ_snoc (l : list Q) (x : Q) : sumQ (l ++ [x]) = sumQ l + x.
Proof. unfold sumQ. rewrite fold_left_app. reflexivity. Qed.

Lemma sumQ_shift (h h' : Q) (past : list SimEvent) :
  sumQ (map (fun e => wipJump e * (h' - time e)) past) ==
  sumQ (map (fun e => wipJump e * (h - time e)) past)
  + sumQ (map wipJump past) * (h' - h).
Proof.
  induction past as [|e past IH]; cbn [map].
  - unfold sumQ; cbn. ring.
  - rewrite !sumQ_cons, IH. ring.
Qed.

Lemma wipIntegral_past (h : Q) (past : list SimEvent) :
  Forall (fun e => time e <= h) past ->
  wipIntegral h past == sumQ (map (fun e => wipJump e * (h - time e)) past).
Proof.
  unfold wipIntegral. induction 1 as [|e past He _ IH]; cbn [map].
  - reflexivity.
  - rewrite !sumQ_cons, IH, (Q.max_r 0 (h - time e)) by lra. reflexivity.
Qed.

Lemma wipDelta_jump (e : SimEvent) : inject_Z (wipDelta e) = wipJump e.
Proof. unfold wipDelta, wipJump. destruct (type e); reflexivity. Qed.

Lemma step_explains (L : Q -> Q) (config : SimulationConfig)
    (past : list SimEvent) (s s' : SimState) (e : SimEvent)
    (rest : list SimEvent) :
  lastEventTime s <= time e ->
  queue s = e :: rest ->
  step L config s = Some s' ->
  explains past s -> explains (past ++ [e]) s'.
Proof.
  intros Hle Eq Es (A & W & F).
  destruct (step_accounting_at L config s s' e rest Eq Es)
    as (_ & Hl & Ha & Hw).
  unfold explains. rewrite Hl, Ha, Hw, !map_app. cbn [map].
  rewrite !sumQ_snoc. split; [|split].
  - rewrite (sumQ_shift (lastEventTime s) (time e) past), A, W. ring.
  - rewrite inject_Z_plus, wipDelta_jump, W. reflexivity.
  - rewrite Forall_app. split.
    + eapply Forall_impl; [|exact F]. intros x Hx. cbn beta in *. lra.
    + repeat constructor. lra.
Qed.

Section WipArea.
Variable L : Q -> Q.
Hypothesis HL : log_bracket L.
Variable config : SimulationConfig.
Hypothesis mean_nonneg : 0 <= arrivalIntervalMean config.
Hypothesis seed_nonneg : (0 <= seed config)%Z.

Lemma loop_explains (fuel : nat) (past : list SimEvent) (s s' : SimState) :
  Timed s -> explains past s ->
  loop L config fuel s = Some s' ->
  explains (past ++ processed L config fuel s) s'.
Proof.
  revert past s; induction fuel as [|fuel IH]; intros past s T X H;
    cbn [loop processed] in *.
  - destruct (running config s); [discriminate|].
    injection H as <-. rewrite app_nil_r. exact X.
  - destruct (running config s);
      [|injection H as <-; rewrite app_nil_r; exact X].
    destruct (step L config s) as [s1|] eqn:Es; [|discriminate].
    destruct (step_accounting L config s s1 Es) as (e & rest & Eq & _).
    rewrite Eq.
    assert (Hle : lastEventTime s <= time e).
    { destruct T as [_ _ Hl P _]. rewrite Hl. rewrite Eq in P.
      inversion P; assumption. }
    change (e :: processed L config fuel s1)
      with ([e] ++ processed L config fuel s1).
    rewrite app_assoc.
    apply (IH (past ++ [e]) s1); [| |exact H].
    + eapply step_timed; eassumption.
    + eapply step_explains; eassumption.
Qed.

(** X8. On a valid configuration a completed run has accumulated as WIP
    area the integral of the WIP curve of the handled events from time 0
    to the time of the last handled event; so with a non-zero [duration],
    [avgWip * duration] is that integral (and not the integral over
    [[0, duration]] when the last event lies past [duration]). *)
Theorem wip_area_is_integral_to_last_event (fuel : nat) (s : SimState) :
  loop L config fuel (initialState L config) = Some s ->
  wipArea s ==
    wipIntegral (currentTime s)
      (processed L config fuel (initialState L config))
  /\ (~ duration config == 0 ->
      avgWip (statistics config s) * duration config ==
        wipIntegral (currentTime s)
          (processed L config fuel (initialState L config))).
Proof.
  intros H.
  assert (T0 : Timed (initialState L config))
    by (apply initialState_timed; assumption).
  assert (X0 : explains [] (initialState L config)).
  { unfold explains, initialState.
    destruct (Random.exponential L (arrivalIntervalMean config)
                (Random.mk (seed config))).
    cbn. repeat split; [reflexivity..|constructor]. }
  pose proof (loop_explains fuel [] _ s T0 X0 H) as (A & _ & F).
  cbn [app] in A, F.
  assert (Tl : lastEventTime s = currentTime s).
  { apply timed_last. apply (reachable_timed L HL config mean_nonneg
                               seed_nonneg).
    eapply loop_reachable; [apply reach_initial|exact H]. }
  rewrite Tl in A, F.
  assert (E : wipArea s ==
              wipIntegral (currentTime s)
                (processed L config fuel (initialState L config))).
  { rewrite A. symmetry. apply wipIntegral_past. exact F. }
  split; [exact E|].
  intros D. cbn [avgWip statistics].
  rewrite safeDiv_nonzero by exact D. rewrite E. field. exact D.
Qed.

End WipArea.

Lemma events_handled_in_time_order_witness :
  log_bracket ln_pade
  /\ 0 <= arrivalIntervalMean shiftConfig
  /\ (0 <= seed shiftConfig)%Z
  /\ Reachable ln_pade shiftConfig
       (advance ln_pade shiftConfig 2 (initialState ln_pade shiftConfig))
  /\ (let s := advance ln_pade shiftConfig 2
                 (initialState ln_pade shiftConfig) in
      0 <= currentTime s
      /\ Forall (fun e => currentTime s <= time e) (queue s)
      /\ StronglySorted (fun a b => time a <= time b) (queue s)
      /\ Forall (fun e => currentTime s <= time e)
           (processed ln_pade shiftConfig 4 s)
      /\ StronglySorted (fun a b => time a <= time b)
           (processed ln_pade shiftConfig 4 s)).
Proof.
  split; [exact ln_pade_bracket|].
  split; [discriminate|].
  split; [simpl; lia|].
  split; [apply advance_reachable; apply reach_initial|].
  apply (events_handled_in_time_order ln_pade ln_pade_bracket shiftConfig);
    [discriminate|simpl; lia|].
  apply advance_reachable; apply reach_initial.
Defined.

Lemma wip_area_is_integral_to_last_event_witness :
  exists s,
    log_bracket ln_pade
    /\ 0 <= arrivalIntervalMean shiftConfig
    /\ (0 <= seed shiftConfig)%Z
    /\ loop ln_pade shiftConfig 12 (initialState ln_pade shiftConfig)
       = Some s
    /\ (wipArea s ==
          wipIntegral (currentTime s)
            (processed ln_pade shiftConfig 12
               (initialState ln_pade shiftConfig))
        /\ (~ duration shiftConfig == 0 ->
            avgWip (statistics shiftConfig s) * duration shiftConfig ==
              wipIntegral (currentTime s)
                (processed ln_pade shiftConfig 12
                   (initialState ln_pade shiftConfig)))).
Proof.
  eexists.
  split; [exact ln_pade_bracket|].
  split; [discriminate|].
  split; [simpl; lia|].
  split; [vm_compute; reflexivity|].
  apply (wip_area_is_integral_to_last_event ln_pade ln_pade_bracket
           shiftConfig);
    [discriminate|simpl; lia|vm_compute; reflexivity].
Defined.

(** ** Sorting: a sorted rearrangement *)

Section SortCorrect.
Variable A : Type.
Variable leb : A -> A -> bool.
Hypothesis leb_total : forall a b, leb a b = false -> leb b a = true.
Hypothesis leb_trans :
  forall a b c, leb a b = true -> leb b c = true -> leb a c = true.

Lemma insert_permutation (x : A) (l : list A) :
  Permutation (insert leb x l) (x :: l).
Proof.
  induction l as [|y l IH]; cbn [insert]; [reflexivity|].
  destruct (leb y x); [|reflexivity].
  rewrite IH. apply perm_swap.
Qed.

Lemma sort_permutation (l : list A) : Permutation (sort leb l) l.
Proof.
  induction l as [|x l IH] using rev_ind; [reflexivity|].
  rewrite sort_snoc, insert_permutation, IH.
  apply Permutation_cons_append.
Qed.

Lemma insert_sorted (x : A) (l : list A) :
  StronglySorted (fun a b => leb a b = true) l ->
  StronglySorted (fun a b => leb a b = true) (insert leb x l).
Proof.
  induction 1 as [|y l Sl IH F]; cbn [insert].
  - repeat constructor.
  - destruct (leb y x) eqn:E.
    + constructor; [exact IH|]. apply Forall_insert; assumption.
    + apply leb_total in E.
      constructor; [constructor; assumption|].
      constructor; [exact E|].
      eapply Forall_impl; [|exact F].
      intros z Hz. eapply leb_trans; eassumption.
Qed.

Lemma sort_is_sorted (l : list A) :
  StronglySorted (fun a b => leb a b = true) (sort leb l).
Proof.
  induction l as [|x l IH] using rev_ind; [constructor|].
  rewrite sort_snoc. apply insert_sorted. exact IH.
Qed.

End SortCorrect.

Lemma Qle_bool_total (a b : Q) : Qle_bool a b = false -> Qle_bool b a = true.
Proof.
  intros H. apply Qle_bool_iff.
  destruct (Qlt_le_dec b a) as [Lt|Ge]; [lra|].
  apply Qle_bool_iff in Ge. congruence.
Qed.

Lemma Qle_bool_trans (a b c : Q) :
  Qle_bool a b = true -> Qle_bool b c = true -> Qle_bool a c = true.
Proof. rewrite !Qle_bool_iff. intros; lra. Qed.

Lemma sortNumbers_sorted (arr : list Q) :
  StronglySorted Qle (sortNumbers arr).
Proof.
  pose proof (sort_is_sorted Q Qle_bool Qle_bool_total Qle_bool_trans arr)
    as S.
  unfold sortNumbers.
  induction S as [|a l Sl IH F]; constructor; [exact IH|].
  eapply Forall_impl; [|exact F]. intros b Hb. apply Qle_bool_iff. exact Hb.
Qed.

Lemma sortNumbers_permutation (arr : list Q) :
  Permutation (sortNumbers arr) arr.
Proof. apply sort_permutation. Qed.

(** X9. [arr.sort((a, b) => a - b)] rearranges the array into ascending
    order: the result has the same elements with the same multiplicities
    and each element is at most every later one. *)
Theorem sortNumbers_sorted_permutation (arr : list Q) :
  Permutation (sortNumbers arr) arr
  /\ StronglySorted Qle (sortNumbers arr).
Proof.
  split; [apply sortNumbers_permutation|apply sortNumbers_sorted].
Qed.

Lemma StronglySorted_suffix {A} (R : A -> A -> Prop) (l1 l2 : list A) :
  StronglySorted R (l1 ++ l2) -> StronglySorted R l2.
Proof.
  induction l1 as [|x l1 IH]; cbn [app]; intros H; [exact H|].
  inversion H; subst. apply IH; assumption.
Qed.

(** X10. [schedule] loses nothing and keeps the order: the new queue holds
    the pending events and the new one, each once, and if the queue was
    in time order it still is, with the new event behind every pending
    event that is not later. *)
Theorem schedule_keeps_events_in_time_order (q : list SimEvent)
    (ty : EventType) (t : Q) (j : option nat) :
  Permutation (schedule q ty t j) (mkEvent t ty j :: q)
  /\ (StronglySorted (fun a b => time a <= time b) q ->
      StronglySorted (fun a b => time a <= time b) (schedule q ty t j)
      /\ exists front back,
          q = front ++ back
          /\ schedule q ty t j = front ++ mkEvent t ty j :: back
          /\ Forall (fun e => time e <= t) front
          /\ Forall (fun e => t < time e) back).
Proof.
  split.
  - unfold schedule. rewrite sort_permutation.
    symmetry. apply Permutation_cons_append.
  - intros Sq. split; [apply schedule_time_sorted; exact Sq|].
    rewrite schedule_is_insert by exact Sq.
    destruct (insert_split _ time_leb (mkEvent t ty j) q)
      as (front & back & E & Ei & Ff & Hb).
    exists front, back. split; [exact E|]. split; [exact Ei|]. split.
    + eapply Forall_impl; [|exact Ff].
      intros e He. apply Qle_bool_iff in He. exact He.
    + destruct back as [|z back]; [constructor|].
      assert (Lt : t < time z).
      { unfold time_leb in Hb. cbn [time] in Hb.
        destruct (Qlt_le_dec t (time z)) as [Lt|Ge]; [exact Lt|].
        apply Qle_bool_iff in Ge. congruence. }
      constructor; [exact Lt|].
      subst q. apply StronglySorted_suffix in Sq. rename Sq into Sb.
      inversion Sb as [|? ? _ Fz]; subst.
      eapply Forall_impl; [|exact Fz]. intros e He. cbn beta in *. lra.
Qed.

(** ** The summaries of a wait-time sample *)

Lemma sumQ_permutation (l l' : list Q) :
  Permutation l l' -> sumQ l == sumQ l'.
Proof.
  induction 1 as [|x l l' _ IH|x y l|l l' l'' _ IH1 _ IH2].
  - reflexivity.
  - rewrite !sumQ_cons, IH. reflexivity.
  - rewrite !sumQ_cons. ring.
  - rewrite IH1. exact IH2.
Qed.

Lemma filter_length_permutation {A} (f : A -> bool) (l l' : list A) :
  Permutation l l' -> length (filter f l) = length (filter f l').
Proof.
  induction 1 as [|x l l' _ IH|x y l|l l' l'' _ IH1 _ IH2]; cbn [filter].
  - reflexivity.
  - destruct (f x); cbn [length]; lia.
  - destruct (f x), (f y); reflexivity.
  - lia.
Qed.

Lemma sorted_prefix_below (l : list Q) (k : nat) :
  StronglySorted Qle l -> (k < length l)%nat ->
  Forall (fun x => x <= nth k l 0) (firstn (S k) l).
Proof.
  intros S; revert k; induction S as [|a l Sl IH F]; intros k Hk.
  - cbn in Hk. lia.
  - destruct k as [|k].
    + cbn. repeat constructor. lra.
    + cbn [length] in Hk.
      change (firstn (S (S k)) (a :: l)) with (a :: firstn (S k) l).
      cbn [nth]. constructor; [|apply IH; lia].
      rewrite Forall_forall in F. apply F. apply nth_In. lia.
Qed.

Lemma sorted_below_last (l : list Q) :
  StronglySorted Qle l -> Forall (fun x => x <= last l 0) l.
Proof.
  induction 1 as [|a l Sl IH F]; [constructor|].
  destruct l as [|b l]; [repeat constructor; cbn; lra|].
  change (last (a :: b :: l) 0) with (last (b :: l) 0).
  constructor; [|exact IH].
  rewrite Forall_forall in IH, F.
  apply Qle_trans with b; [apply F; left; reflexivity|].
  apply IH. left; reflexivity.
Qed.

Lemma last_In {A} (l : list A) (d : A) : l <> [] -> In (last l d) l.
Proof.
  induction l as [|a l IH]; [congruence|]. intros _.
  destruct l as [|b l]; [left; reflexivity|].
  right. apply IH. discriminate.
Qed.

Lemma p90_index_in_range (n : nat) :
  (0 < n)%nat ->
  (0 <= Qfloor (inject_Z (Z.of_nat n) * (9 # 10)) < Z.of_nat n)%Z.
Proof.
  intros Hn.
  assert (P : inject_Z 0 < inject_Z (Z.of_nat n))
    by (rewrite <- Zlt_Qlt; lia).
  change (inject_Z 0) with 0 in P.
  split.
  - change 0%Z with (Qfloor 0). apply Qfloor_resp_le. lra.
  - rewrite Zlt_Qlt.
    apply Qle_lt_trans with (inject_Z (Z.of_nat n) * (9 # 10));
      [apply Qfloor_le|lra].
Qed.

(** X11. [calcStats].  The empty sample gives [{avg: 0, p90: 0, max: 0}].
    For a non-empty sample: [avg] times the sample size is the sum of the
    sample; [max] is an element of the sample and no element is above it;
    [p90] is an element of the sample, at most [max], and more than
    [floor(0.9 * size)] elements are at most [p90]. *)
Theorem calcStats_summarises_the_sample (arr : list Q) :
  calcStats [] = WaitStats.mk 0 0 0
  /\ (arr <> [] ->
      let st := calcStats arr in
      let size := Z.of_nat (length arr) in
      WaitStats.avg st * inject_Z size == sumQ arr
      /\ In (WaitStats.max st) arr
      /\ Forall (fun x => x <= WaitStats.max st) arr
      /\ In (WaitStats.p90 st) arr
      /\ WaitStats.p90 st <= WaitStats.max st
      /\ (Qfloor (inject_Z size * (9 # 10))
          < Z.of_nat (length (filter (fun x => Qle_bool x (WaitStats.p90 st))
                                arr)))%Z).
Proof.
  split; [reflexivity|].
  intros NE st size.
  pose proof (sortNumbers_permutation arr) as P.
  pose proof (sortNumbers_sorted arr) as Hs.
  assert (Hlen : length (sortNumbers arr) = length arr)
    by (apply Permutation_length; exact P).
  assert (Hpos : (0 < length arr)%nat)
    by (destruct arr; [congruence|cbn; lia]).
  destruct (p90_index_in_range (length arr) Hpos) as [I0 I1].
  assert (Est : st =
                WaitStats.mk
                  (sumQ (sortNumbers arr) / inject_Z size)
                  (nth (Z.to_nat (Qfloor (inject_Z size * (9 # 10))))
                       (sortNumbers arr) 0)
                  (last (sortNumbers arr) 0)).
  { unfold st, calcStats. destruct arr; [congruence|].
    unfold size. rewrite Hlen. reflexivity. }
  rewrite Est. cbn [WaitStats.avg WaitStats.p90 WaitStats.max].
  set (idx := Z.to_nat (Qfloor (inject_Z size * (9 # 10)))).
  assert (Hidx : (idx < length (sortNumbers arr))%nat)
    by (unfold idx, size in *; lia).
  assert (NEs : sortNumbers arr <> []).
  { intros E. rewrite E in Hlen. cbn in Hlen. lia. }
  assert (Hmax : Forall (fun x => x <= last (sortNumbers arr) 0)
                   (sortNumbers arr)) by (apply sorted_below_last; exact Hs).
  split.
  { rewrite (sumQ_permutation _ _ P). field.
    unfold size. intros E.
    assert (Z : inject_Z 0 < inject_Z (Z.of_nat (length arr)))
      by (rewrite <- Zlt_Qlt; lia).
    change (inject_Z 0) with 0 in Z. lra. }
  split.
  { apply (Permutation_in _ P). apply last_In. exact NEs. }
  split.
  { rewrite Forall_forall in *. intros x Hx. apply Hmax.
    apply (Permutation_in _ (Permutation_sym P)). exact Hx. }
  split.
  { apply (Permutation_in _ P). apply nth_In. exact Hidx. }
  split.
  { rewrite Forall_forall in Hmax. apply Hmax. apply nth_In. exact Hidx. }
  rewrite <- (filter_length_permutation _ _ _ P).
  pose proof (sorted_prefix_below _ idx Hs Hidx) as F.
  set (below := fun x => Qle_bool x (nth idx (sortNumbers arr) 0)).
  assert (G : (S idx <= length (filter below (sortNumbers arr)))%nat).
  { rewrite <- (firstn_skipn (S idx) (sortNumbers arr)).
    rewrite filter_app, length_app.
    assert (E : filter below (firstn (S idx) (sortNumbers arr))
                = firstn (S idx) (sortNumbers arr)).
    { apply forallb_filter_id. apply forallb_forall.
      rewrite Forall_forall in F. intros x Hx.
      apply Qle_bool_iff. apply F. exact Hx. }
    rewrite E, length_firstn. lia. }
  unfold idx in G at 1. lia.
Qed.


(** ** Ratios and costs of a run *)

Lemma safeDiv_fraction (g n : nat) :
  (g <= n)%nat ->
  0 <= safeDiv (inject_Z (Z.of_nat g)) (inject_Z (Z.of_nat n)) <= 1.
Proof.
  intros H. unfold safeDiv.
  destruct (Qeq_bool (inject_Z (Z.of_nat n)) 0) eqn:E; [lra|].
  apply Qeq_bool_neq in E.
  assert (G0 : inject_Z 0 <= inject_Z (Z.of_nat g))
    by (rewrite <- Zle_Qle; lia).
  assert (Gn : inject_Z (Z.of_nat g) <= inject_Z (Z.of_nat n))
    by (rewrite <- Zle_Qle; lia).
  assert (N0 : inject_Z 0 <= inject_Z (Z.of_nat n))
    by (rewrite <- Zle_Qle; lia).
  change (inject_Z 0) with 0 in *.
  assert (Np : 0 < inject_Z (Z.of_nat n)) by lra.
  split.
  - apply Qle_shift_div_l; [exact Np|lra].
  - apply Qle_shift_div_r; [exact Np|lra].
Qed.

(** X12. The service level a run reports is a fraction: it lies in
    [[0, 1]] whatever the final state (0 when no job reached
    inspection). *)
Theorem service_level_is_a_fraction (config : SimulationConfig)
    (s : SimState) :
  0 <= serviceLevel (statistics config s) <= 1
  /\ (waits_i (tallyJobs config (jobs s)) = [] ->
      serviceLevel (statistics config s) = 0).
Proof.
  cbn [serviceLevel statistics]. split.
  - apply safeDiv_fraction. apply filter_length_le.
  - intros ->. reflexivity.
Qed.

Lemma tally_cost_of_waits (config : SimulationConfig) (acc : Tally)
    (j : Job) :
  totalDegradation (tally config acc j)
  + sumQ (map (degradationOf config) (waits_i acc))
  == totalDegradation acc
     + sumQ (map (degradationOf config) (waits_i (tally config acc j))).
Proof.
  unfold tally.
  destruct (inspectionStartTime j) as [t1|];
    [destruct (mouldingEndTime j) as [t0|]|]; try reflexivity.
  destruct (truthy (Some t1) && truthy (Some t0)); [|reflexivity].
  cbn [totalDegradation waits_i]. rewrite map_app. cbn [map].
  rewrite sumQ_snoc. ring.
Qed.

Lemma tallyJobs_cost_of_waits (config : SimulationConfig) (js : list Job) :
  totalDegradation (tallyJobs config js)
  == sumQ (map (degradationOf config) (waits_i (tallyJobs config js))).
Proof.
  unfold tallyJobs.
  assert (G : forall acc,
             totalDegradation (fold_left (tally config) js acc)
             + sumQ (map (degradationOf config) (waits_i acc))
             == totalDegradation acc
                + sumQ (map (degradationOf config)
                          (waits_i (fold_left (tally config) js acc)))).
  { induction js as [|j js IH]; intros acc; [cbn; ring|].
    cbn [fold_left].
    pose proof (IH (tally config acc j)) as H1.
    pose proof (tally_cost_of_waits config acc j) as H2. lra. }
  pose proof (G (mkTally [] [] [] 0 0)) as H.
  cbn [waits_i totalDegradation map] in H.
  change (sumQ []) with 0 in H. lra.
Qed.

Lemma degradationOf_nonneg (config : SimulationConfig) (w : Q) :
  0 <= degradationCostPerMinute config -> 0 <= degradationOf config w.
Proof.
  intros H. unfold degradationOf.
  pose proof (Q.le_max_l 0 (w - degradationThreshold config)).
  apply Qmult_le_0_compat; assumption.
Qed.

Lemma sumQ_nonneg (l : list Q) : Forall (fun x => 0 <= x) l -> 0 <= sumQ l.
Proof.
  induction 1 as [|x l Hx _ IH]; [discriminate|].
  rewrite sumQ_cons. lra.
Qed.

Lemma sumQ_zero (l : list Q) : Forall (fun x => x == 0) l -> sumQ l == 0.
Proof.
  induction 1 as [|x l Hx _ IH]; [reflexivity|].
  rewrite sumQ_cons, Hx, IH. reflexivity.
Qed.

(** X13. The total degradation cost of a run is the sum, over the
    inspection waits it reports, of [max(0, wait - threshold) *
    costPerMinute].  So it is not negative when the cost per minute is not
    negative, nor is the average per part, and it is 0 when the threshold
    is at least every reported inspection wait. *)
Theorem degradation_cost_from_reported_waits (config : SimulationConfig)
    (s : SimState) :
  let stats := statistics config s in
  totalDegradationCost stats
    == sumQ (map (degradationOf config) (inspection (waitTimes stats)))
  /\ (0 <= degradationCostPerMinute config ->
      0 <= totalDegradationCost stats
      /\ 0 <= avgDegradationCostPerPart stats)
  /\ (Forall (fun w => w <= degradationThreshold config)
        (inspection (waitTimes stats)) ->
      totalDegradationCost stats == 0).
Proof.
  intros stats.
  assert (E : totalDegradationCost stats
              == sumQ (map (degradationOf config)
                         (inspection (waitTimes stats)))).
  { cbn [stats totalDegradationCost waitTimes inspection statistics].
    rewrite tallyJobs_cost_of_waits.
    apply sumQ_permutation. apply Permutation_map.
    symmetry. apply sort_permutation. }
  split; [exact E|]. split.
  - intros C.
    assert (T : 0 <= totalDegradationCost stats).
    { rewrite E. apply sumQ_nonneg. rewrite Forall_map.
      apply Forall_forall. intros w _. apply degradationOf_nonneg; exact C. }
    split; [exact T|].
    subst stats.
    cbn [avgDegradationCostPerPart totalDegradationCost statistics] in *.
    unfold safeDiv.
    destruct (Qeq_bool (inject_Z (Z.of_nat (length (jobs s)))) 0) eqn:Z;
      [lra|].
    apply Qeq_bool_neq in Z.
    assert (N : inject_Z 0 <= inject_Z (Z.of_nat (length (jobs s))))
      by (rewrite <- Zle_Qle; lia).
    change (inject_Z 0) with 0 in N.
    apply Qle_shift_div_l; [lra|]. lra.
  - intros F. rewrite E. apply sumQ_zero. rewrite Forall_map.
    eapply Forall_impl; [|exact F].
    intros w Hw. cbn beta in *. unfold degradationOf.
    rewrite Q.max_l by lra. ring.
Qed.

(** * The random stream in double arithmetic *)

Lemma roundDouble_exact (z : Z) :
  (Z.abs z < 2 ^ 53)%Z -> roundDouble z = Some z.
Proof.
  intros H. unfold roundDouble.
  assert (E : (Z.log2 (Z.abs z) - 52 <= 0)%Z).
  { destruct (Z.eq_dec (Z.abs z) 0) as [Z0|N0]; [rewrite Z0; cbn; lia|].
    assert (Z.log2 (Z.abs z) < 53)%Z; [|lia].
    apply Z.log2_lt_pow2; lia. }
  apply Z.leb_le in E. rewrite E. reflexivity.
Qed.

Lemma roundDouble_nonneg (z m : Z) :
  (0 <= z)%Z -> roundDouble z = Some m -> (0 <= m)%Z.
Proof.
  intros Hz. unfold roundDouble.
  set (a := Z.abs z). set (e := (Z.log2 a - 52)%Z).
  destruct (Z.leb_spec e 0) as [_|He]; [intros [= <-]; exact Hz|].
  cbv zeta.
  set (q := (a / 2 ^ e)%Z).
  set (q' := if (a mod 2 ^ e <? 2 ^ (e - 1))%Z then q
             else if (2 ^ (e - 1) <? a mod 2 ^ e)%Z then (q + 1)%Z
             else if Z.even q then q else (q + 1)%Z).
  destruct (2 ^ 1024 <=? q' * 2 ^ e)%Z; [discriminate|].
  intros [= <-].
  assert (P : (0 < 2 ^ e)%Z) by (apply Z.pow_pos_nonneg; lia).
  assert (Q0 : (0 <= q)%Z) by (apply Z.div_pos; [unfold a; lia|exact P]).
  assert (Q1 : (0 <= q')%Z).
  { unfold q'. destruct (_ <? _)%Z; [lia|].
    destruct (_ <? _)%Z; [lia|]. destruct (Z.even q); lia. }
  apply Z.mul_nonneg_nonneg; [destruct z; simpl; lia|].
  apply Z.mul_nonneg_nonneg; lia.
Qed.

(** In the exact range the step on doubles is the step of the model. *)
Lemma nextDouble_exact (r : Random.t) :
  (Z.abs (Random.seed r) < 2 ^ 53)%Z ->
  (Z.abs (Random.seed r * 9301) < 2 ^ 53)%Z ->
  (Z.abs (Random.seed r * 9301 + 49297) < 2 ^ 53)%Z ->
  nextDouble (Random.seed r) =
  Some (fst (Random.next r), Random.seed (snd (Random.next r))).
Proof.
  intros H0 H1 H2. unfold nextDouble.
  rewrite (roundDouble_exact _ H0), (roundDouble_exact _ H1),
    (roundDouble_exact _ H2).
  reflexivity.
Qed.

Lemma nextDouble_range (seed0 s1 : Z) (u : Q) :
  (0 <= seed0)%Z -> nextDouble seed0 = Some (u, s1) ->
  (0 <= u /\ u < 1) /\ (0 <= s1 < 233280)%Z.
Proof.
  intros H0. unfold nextDouble.
  destruct (roundDouble seed0) as [d|] eqn:Ed; [|discriminate].
  destruct (roundDouble (d * 9301)) as [p|] eqn:Ep; [|discriminate].
  destruct (roundDouble (p + 49297)) as [s|] eqn:Es; [|discriminate].
  intros [= <- <-].
  pose proof (roundDouble_nonneg _ _ H0 Ed) as Hd.
  assert (Hp : (0 <= p)%Z)
    by (apply (roundDouble_nonneg (d * 9301) p); [lia|exact Ep]).
  assert (Hs : (0 <= s)%Z)
    by (apply (roundDouble_nonneg (p + 49297) s); [lia|exact Es]).
  assert (R : (0 <= Z.rem s 233280 < 233280)%Z)
    by (apply Z.rem_bound_pos; lia).
  split; [|exact R].
  assert (V : inject_Z (Z.rem s 233280) / 233280
              == Z.rem s 233280 # 233280)
    by (symmetry; apply Qmake_Qdiv).
  rewrite V. clear V. set (x := Z.rem s 233280) in *. clearbody x.
  split; unfold Qle, Qlt; cbn [Qnum Qden]; lia.
Qed.

Lemma after_seed_range (n : nat) (r : Random.t) :
  (0 <= Random.seed r < 233280)%Z ->
  (0 <= Random.seed (Random.after n r) < 233280)%Z.
Proof.
  revert r; induction n as [|n IH]; intros r H; [exact H|].
  cbn [Random.after]. apply IH. apply next_seed_range. lia.
Qed.

(** The double nearest to a non-negative integer below [2^k] is at most
    [2^k]: no rounding reaches an infinity below [2^1023]. *)
Lemma roundDouble_bounded (z k : Z) :
  (0 <= z < 2 ^ k)%Z -> (53 <= k <= 1023)%Z ->
  exists m, roundDouble z = Some m /\ (0 <= m <= 2 ^ k)%Z.
Proof.
  intros [Hz Hk] Kb. unfold roundDouble.
  rewrite (Z.abs_eq z Hz).
  set (e := (Z.log2 z - 52)%Z).
  destruct (Z.leb_spec e 0) as [_|He]; [exists z; split; [reflexivity|lia]|].
  cbv zeta.
  set (q := (z / 2 ^ e)%Z).
  set (q' := if (z mod 2 ^ e <? 2 ^ (e - 1))%Z then q
             else if (2 ^ (e - 1) <? z mod 2 ^ e)%Z then (q + 1)%Z
             else if Z.even q then q else (q + 1)%Z).
  assert (Zp : (0 < z)%Z).
  { destruct (Z.eq_dec z 0) as [->|]; [|lia]. unfold e in He; cbn in He; lia. }
  assert (Lk : (Z.log2 z < k)%Z) by (apply Z.log2_lt_pow2; assumption).
  assert (P : (0 < 2 ^ e)%Z) by (apply Z.pow_pos_nonneg; lia).
  assert (Split : (2 ^ k = 2 ^ (k - e) * 2 ^ e)%Z).
  { rewrite <- Z.pow_add_r by (unfold e in *; lia). f_equal; lia. }
  assert (Q0 : (0 <= q)%Z) by (apply Z.div_pos; lia).
  assert (Q1 : (q < 2 ^ (k - e))%Z).
  { apply Z.div_lt_upper_bound; [exact P|]. rewrite Z.mul_comm, <- Split.
    exact Hk. }
  assert (Q2 : (0 <= q' <= 2 ^ (k - e))%Z).
  { unfold q'. destruct (_ <? _)%Z; [lia|].
    destruct (_ <? _)%Z; [lia|]. destruct (Z.even q); lia. }
  assert (M : (0 <= q' * 2 ^ e <= 2 ^ k)%Z).
  { rewrite Split. split; [apply Z.mul_nonneg_nonneg; lia|].
    apply Z.mul_le_mono_nonneg_r; lia. }
  assert (Big : (2 ^ k < 2 ^ 1024)%Z)
    by (apply Z.pow_lt_mono_r; lia).
  destruct (Z.leb_spec (2 ^ 1024) (q' * 2 ^ e)) as [B|_]; [lia|].
  exists (Z.sgn z * (q' * 2 ^ e))%Z. split; [reflexivity|].
  rewrite (Z.sgn_pos z Zp), Z.mul_1_l. exact M.
Qed.

Lemma nextDouble_defined (seed0 : Z) :
  (0 <= seed0 < 2 ^ 1000)%Z -> nextDouble seed0 <> None.
Proof.
  intros H. unfold nextDouble.
  destruct (roundDouble_bounded seed0 1000 H ltac:(lia)) as (d & -> & Hd).
  assert (Hp : (0 <= d * 9301 < 2 ^ 1014)%Z).
  { split; [lia|].
    replace (2 ^ 1014)%Z with (2 ^ 1000 * 2 ^ 14)%Z
      by (rewrite <- Z.pow_add_r by lia; reflexivity).
    assert (0 < 2 ^ 1000)%Z by (apply Z.pow_pos_nonneg; lia).
    change (2 ^ 14)%Z with 16384%Z. nia. }
  destruct (roundDouble_bounded (d * 9301) 1014 Hp ltac:(lia))
    as (p & -> & Hpp).
  assert (Hs : (0 <= p + 49297 < 2 ^ 1015)%Z).
  { split; [lia|].
    assert (E : (2 ^ 1015 = 2 * 2 ^ 1014)%Z)
      by (change 1015%Z with (Z.succ 1014); apply Z.pow_succ_r; lia).
    rewrite E.
    assert (2 ^ 16 <= 2 ^ 1014)%Z by (apply Z.pow_le_mono_r; lia).
    change (2 ^ 16)%Z with 65536%Z in *. lia. }
  destruct (roundDouble_bounded (p + 49297) 1015 Hs ltac:(lia))
    as (s & -> & _).
  discriminate.
Qed.

(** C9 (a seed beyond the range of the doubles). At the seed [2^1020],
    a non-negative integer that is a double, [seed * 9301] is an
    infinity: the state becomes NaN and the first draw is no number in
    [[0, 1)]. *)
Lemma random_draw_is_nan_at_huge_seed :
  (0 <= 2 ^ 1020)%Z
  /\ roundDouble (2 ^ 1020) = Some (2 ^ 1020)%Z
  /\ roundDouble (2 ^ 1020 * 9301) = None
  /\ nextDouble (2 ^ 1020) = None
  /\ ~ (exists u s1, nextDouble (2 ^ 1020) = Some (u, s1)
                     /\ 0 <= u /\ u < 1).
Proof.
  assert (E : nextDouble (2 ^ 1020) = None) by (vm_compute; reflexivity).
  split; [vm_compute; discriminate|].
  split; [vm_compute; reflexivity|].
  split; [vm_compute; reflexivity|].
  split; [exact E|].
  intros (u & s1 & H & _). rewrite E in H. discriminate H.
Qed.

(** C9 (amended). For a non-negative integer seed the first step of the
    generator, in double arithmetic, gives a number unless it overflows,
    and it does not overflow from a seed below [2^1000].  When it gives a
    number, the first draw lies in [[0, 1)] and leaves a state that is a
    non-negative integer below 233280 (and is the draw of the exact model
    when [seed * 9301 + 49297 < 2^53]).  From such a state on the
    arithmetic is exact: every further draw lies in [[0, 1)], the state
    stays below 233280, and [choice] on a non-empty list, and on the four
    product types in particular, returns an element of the list. *)
Theorem random_draws_in_range (seed0 : Z) (n : nat) :
  (0 <= seed0)%Z ->
  ((seed0 < 2 ^ 1000)%Z -> nextDouble seed0 <> None)
  /\ forall (u : Q) (s1 : Z),
       nextDouble seed0 = Some (u, s1) ->
       (0 <= u /\ u < 1)
       /\ (0 <= s1 < 233280)%Z
       /\ ((seed0 * 9301 + 49297 < 2 ^ 53)%Z ->
           Random.next (Random.mk seed0) = (u, Random.mk s1))
       /\ let r := Random.after n (Random.mk s1) in
          nextDouble (Random.seed r) =
            Some (fst (Random.next r), Random.seed (snd (Random.next r)))
          /\ (0 <= fst (Random.next r) /\ fst (Random.next r) < 1)
          /\ (0 <= Random.seed (snd (Random.next r)) < 233280)%Z
          /\ (forall (A : Type) (items : list A),
                items <> [] ->
                exists x, fst (Random.choice items r) = Some x
                          /\ In x items)
          /\ (exists ty,
                fst (Random.choice [TypeA; TypeB; TypeC; TypeD] r)
                = Some ty).
Proof.
  intros H0. split; [intros B; apply nextDouble_defined; lia|].
  intros u s1 E.
  destruct (nextDouble_range seed0 s1 u H0 E) as [U R].
  split; [exact U|]. split; [exact R|]. split.
  { intros B.
    pose proof (nextDouble_exact (Random.mk seed0)) as X.
    cbn [Random.seed] in X. rewrite X in E by lia.
    injection E as <- <-. reflexivity. }
  intros r.
  assert (Hr : (0 <= Random.seed r < 233280)%Z)
    by (apply after_seed_range; exact R).
  split; [apply nextDouble_exact; lia|].
  split; [apply next_unit_interval; lia|].
  split; [apply next_seed_range; lia|].
  split.
  - intros A items NE. apply choice_in_bounds; [lia|exact NE].
  - destruct (@choice_in_bounds _ [TypeA; TypeB; TypeC; TypeD] r)
      as [ty [Ec _]]; [lia|discriminate|].
    exists ty; exact Ec.
Qed.

Lemma random_draws_in_range_witness :
  (0 <= 10 ^ 12)%Z
  /\ nextDouble (10 ^ 12) = Some (inject_Z 80656 / 233280, 80656%Z)
  /\ Random.seed (snd (Random.next (Random.mk (10 ^ 12)))) = 80657%Z
  /\ ((10 ^ 12 < 2 ^ 1000)%Z -> nextDouble (10 ^ 12) <> None)
  /\ forall (u : Q) (s1 : Z),
       nextDouble (10 ^ 12) = Some (u, s1) ->
       (0 <= u /\ u < 1)
       /\ (0 <= s1 < 233280)%Z
       /\ ((10 ^ 12 * 9301 + 49297 < 2 ^ 53)%Z ->
           Random.next (Random.mk (10 ^ 12)) = (u, Random.mk s1))
       /\ let r := Random.after 3 (Random.mk s1) in
          nextDouble (Random.seed r) =
            Some (fst (Random.next r), Random.seed (snd (Random.next r)))
          /\ (0 <= fst (Random.next r) /\ fst (Random.next r) < 1)
          /\ (0 <= Random.seed (snd (Random.next r)) < 233280)%Z
          /\ (forall (A : Type) (items : list A),
                items <> [] ->
                exists x, fst (Random.choice items r) = Some x
                          /\ In x items)
          /\ (exists ty,
                fst (Random.choice [TypeA; TypeB; TypeC; TypeD] r)
                = Some ty).
Proof.
  split; [vm_compute; discriminate|].
  split; [vm_compute; reflexivity|].
  split; [vm_compute; reflexivity|].
  apply (random_draws_in_range (10 ^ 12) 3).
  vm_compute; discriminate.
Defined.

(** * Replications: seeds, the single run, the clamp *)

Section ReplicationFacts.
Variable Math_log : Q -> Q.
Variable Math_sqrt : Q -> Q.

(** A configuration is determined by its fields: the one with the line of
    [config], a given seed and a given replication count is the spread
    [{ ...config, seed, replications }]. *)
Lemma config_by_fields (config other : SimulationConfig) :
  sameLine other config ->
  other = with_replications (with_seed config (seed other))
                            (replications other).
Proof.
  destruct config, other; unfold sameLine, with_replications, with_seed.
  cbn. intros (-> & -> & -> & -> & -> & -> & ->). reflexivity.
Qed.



(** The single run of a configuration reads its line and its seed only. *)
Lemma runSingleSimulation_by_fields (fuel : nat)
    (config other : SimulationConfig) :
  sameLine other config ->
  runSingleSimulation Math_log other fuel =
  runSingleSimulation Math_log (with_seed config (seed other)) fuel.
Proof.
  intros H. rewrite (config_by_fields config other H) at 1.
  apply runSingleSimulation_ignores_replications.
Qed.

Lemma runSingleSimulation_loop (fuel : nat) (config : SimulationConfig)
    (s : SimState) :
  loop Math_log config fuel (initialState Math_log config) = Some s ->
  runSingleSimulation Math_log config fuel = Some (statistics config s).
Proof. intros H. unfold runSingleSimulation. rewrite H. reflexivity. Qed.

End ReplicationFacts.



(** C8. With [replications = 1], when the event loop of the configuration
    ends in a state [s], [run] returns the statistics the single run
    computes from [s], unchanged, and in that result both confidence
    intervals are degenerate at the means; the list given to the
    aggregator has that one element. *)
Theorem run_single_replication_verbatim
    (Math_log Math_sqrt : Q -> Q) (fuel : nat)
    (config : SimulationConfig) (s : SimState) :
  replications config = 1%Z ->
  loop Math_log config fuel (initialState Math_log config) = Some s ->
  let stats := statistics config s in
  run Math_log Math_sqrt fuel config = Some stats
  /\ runSingleSimulation Math_log config fuel = Some stats
  /\ replicationResults Math_log fuel config = [Some stats]
  /\ aggregateResults Math_sqrt [stats] = Some stats
  /\ leadTimeCI stats =
       ConfidenceInterval.mk (avgLeadTime stats) (avgLeadTime stats)
                             (avgLeadTime stats)
  /\ costCI stats =
       ConfidenceInterval.mk (avgDegradationCostPerPart stats)
                             (avgDegradationCostPerPart stats)
                             (avgDegradationCostPerPart stats).
Proof.
  intros Hone Hs stats.
  destruct (run_one Math_log Math_sqrt fuel config) as [R1 R2]; [lia|].
  pose proof (runSingleSimulation_loop Math_log fuel config s Hs) as E.
  split; [rewrite R2; exact E|].
  split; [exact E|].
  split; [rewrite R1, E; reflexivity|].
  repeat split.
Qed.

Lemma run_single_replication_verbatim_witness :
  exists s,
    replications shiftConfig = 1%Z
    /\ loop ln_pade shiftConfig 12 (initialState ln_pade shiftConfig)
         = Some s
    /\ let stats := statistics shiftConfig s in
       run ln_pade sqrt_floor 12 shiftConfig = Some stats
       /\ runSingleSimulation ln_pade shiftConfig 12 = Some stats
       /\ replicationResults ln_pade 12 shiftConfig = [Some stats]
       /\ aggregateResults sqrt_floor [stats] = Some stats
       /\ leadTimeCI stats =
            ConfidenceInterval.mk (avgLeadTime stats) (avgLeadTime stats)
                                  (avgLeadTime stats)
       /\ costCI stats =
            ConfidenceInterval.mk (avgDegradationCostPerPart stats)
                                  (avgDegradationCostPerPart stats)
                                  (avgDegradationCostPerPart stats).
Proof.
  eexists.
  split; [reflexivity|].
  split; [vm_compute; reflexivity|].
  apply (run_single_replication_verbatim ln_pade sqrt_floor 12 shiftConfig);
    [reflexivity|vm_compute; reflexivity].
Defined.

(** C10. With [replications <= 0] the count is clamped to one: when the
    event loop of the configuration ends in a state [s], [run] executes
    exactly one replication, on the seed of the configuration, and returns
    its statistics; any configuration [one] with the same line, the same
    seed and [replications = 1] gives the same result. *)
Theorem run_clamps_replications
    (Math_log Math_sqrt : Q -> Q) (fuel : nat)
    (config one : SimulationConfig) (s : SimState) :
  (replications config <= 0)%Z ->
  replications one = 1%Z ->
  seed one = seed config ->
  sameLine one config ->
  loop Math_log config fuel (initialState Math_log config) = Some s ->
  Z.max 1 (replications config) = 1%Z
  /\ replicationResults Math_log fuel config = [Some (statistics config s)]
  /\ run Math_log Math_sqrt fuel config = Some (statistics config s)
  /\ run Math_log Math_sqrt fuel one = Some (statistics config s)
  /\ replicationResults Math_log fuel one = [Some (statistics config s)].
Proof.
  intros Hneg Hone Hseed Hline Hs.
  destruct (run_one Math_log Math_sqrt fuel config) as [R1 R2]; [lia|].
  destruct (run_one Math_log Math_sqrt fuel one) as [O1 O2]; [lia|].
  pose proof (runSingleSimulation_loop Math_log fuel config s Hs) as E.
  assert (D : runSingleSimulation Math_log one fuel =
              runSingleSimulation Math_log config fuel).
  { rewrite (runSingleSimulation_by_fields Math_log fuel config one Hline).
    rewrite Hseed.
    rewrite <- (Z.add_0_r (seed config)), with_seed_same. reflexivity. }
  split; [lia|].
  split; [rewrite R1, E; reflexivity|].
  split; [rewrite R2; exact E|].
  split; [rewrite O2, D; exact E|].
  rewrite O1, D, E. reflexivity.
Qed.

Lemma run_clamps_replications_witness :
  exists s,
    (replications (with_replications shiftConfig (-2)) <= 0)%Z
    /\ replications shiftConfig = 1%Z
    /\ seed shiftConfig = seed (with_replications shiftConfig (-2))
    /\ sameLine shiftConfig (with_replications shiftConfig (-2))
    /\ loop ln_pade (with_replications shiftConfig (-2)) 12
         (initialState ln_pade (with_replications shiftConfig (-2)))
         = Some s
    /\ Z.max 1 (replications (with_replications shiftConfig (-2))) = 1%Z
    /\ replicationResults ln_pade 12 (with_replications shiftConfig (-2))
         = [Some (statistics (with_replications shiftConfig (-2)) s)]
    /\ run ln_pade sqrt_floor 12 (with_replications shiftConfig (-2))
         = Some (statistics (with_replications shiftConfig (-2)) s)
    /\ run ln_pade sqrt_floor 12 shiftConfig
         = Some (statistics (with_replications shiftConfig (-2)) s)
    /\ replicationResults ln_pade 12 shiftConfig
         = [Some (statistics (with_replications shiftConfig (-2)) s)].
Proof.
  eexists.
  split; [cbn; lia|].
  split; [reflexivity|].
  split; [reflexivity|].
  split; [unfold sameLine; cbn; repeat split|].
  split; [vm_compute; reflexivity|].
  apply (run_clamps_replications ln_pade sqrt_floor 12
           (with_replications shiftConfig (-2)) shiftConfig);
    [cbn; lia|reflexivity|reflexivity
    |unfold sameLine; cbn; repeat split|vm_compute; reflexivity].
Defined.

(** * The scheduler inside the loop *)

Lemma schedule_permutation (q : list SimEvent) (ty : EventType) (t : Q)
    (j : option nat) :
  Permutation (schedule q ty t j) (mkEvent t ty j :: q).
Proof.
  unfold schedule. rewrite sort_permutation.
  symmetry. apply Permutation_cons_append.
Qed.

Lemma applyStamped_schedule_permutation (st : nat * list (nat * SimEvent))
    (ty : EventType) (t : Q) (j : option nat) :
  Permutation (snd (applyStamped st (Schedule ty t j)))
              ((fst st, mkEvent t ty j) :: snd st).
Proof.
  cbn [applyStamped snd]. rewrite sort_permutation.
  symmetry. apply Permutation_cons_append.
Qed.

Lemma stamped_count (ops : list QueueOp) :
  fst (fold_left applyStamped ops (O, [])) = length (filter isSchedule ops).
Proof.
  induction ops as [|op ops IH] using rev_ind; [reflexivity|].
  rewrite fold_left_app, filter_app, length_app. cbn [fold_left].
  destruct op; cbn [applyStamped fst filter isSchedule length];
    rewrite IH; lia.
Qed.

(** Calls of [schedule] alone lose no pending event, and leave it its
    number. *)
Lemma stamped_schedules_keep (scheduled : list QueueOp)
    (st : nat * list (nat * SimEvent)) (x : nat * SimEvent) :
  Forall (fun op => isSchedule op = true) scheduled ->
  In x (snd st) -> In x (snd (fold_left applyStamped scheduled st)).
Proof.
  intros F; revert st; induction F as [|op ops Hop _ IH]; intros st Hin;
    [exact Hin|].
  cbn [fold_left]. apply IH.
  destruct op as [ty t j|]; [|discriminate].
  eapply Permutation_in;
    [symmetry; apply applyStamped_schedule_permutation|].
  right; exact Hin.
Qed.

(** One iteration calls [queue.shift()] once and then [schedule] at most
    three times. *)
Lemma step_queue_ops (L : Q -> Q) (config : SimulationConfig)
    (s s' : SimState) :
  step L config s = Some s' ->
  exists scheduled,
    Forall (fun op => isSchedule op = true) scheduled
    /\ queue s' = fold_left applyOp (Shift :: scheduled) (queue s).
Proof.
  intros H. unfold step in H.
  destruct (queue s) as [|e rest]; [discriminate|].
  cbn [fold_left applyOp tl].
  destruct (type e); crack_step H; cbn [queue];
    first
      [ exists []; split; [constructor|reflexivity]
      | eexists [Schedule _ _ _]; split;
        [repeat constructor|reflexivity]
      | eexists [Schedule _ _ _; Schedule _ _ _]; split;
        [repeat constructor|reflexivity]
      | eexists [Schedule _ _ _; Schedule _ _ _; Schedule _ _ _]; split;
        [repeat constructor|reflexivity] ].
Qed.

Lemma initialState_queue_ops (L : Q -> Q) (config : SimulationConfig) :
  exists t0,
    queue (initialState L config) =
    fold_left applyOp [Schedule ARRIVAL t0 None] [].
Proof.
  unfold initialState.
  destruct (Random.exponential L (arrivalIntervalMean config)
              (Random.mk (seed config))) as [t0 r].
  exists t0. reflexivity.
Qed.

(** The queue of every state the loop reaches is the result of the calls
    of [schedule] and [shift] made so far. *)
Lemma reachable_queue_ops (L : Q -> Q) (config : SimulationConfig)
    (s : SimState) :
  Reachable L config s ->
  exists ops, queue s = fold_left applyOp ops [].
Proof.
  induction 1 as [|s s' _ [ops E] _ Hstep].
  - destruct (initialState_queue_ops L config) as [t0 E].
    eexists; exact E.
  - destruct (step_queue_ops L config s s' Hstep) as (scheduled & _ & Q').
    exists (ops ++ Shift :: scheduled).
    rewrite fold_left_app, <- E. exact Q'.
Qed.

(** A pending event after calls of [schedule] alone was pending before
    them, or carries the number of one of them. *)
Lemma stamped_schedules_origin (scheduled : list QueueOp)
    (st : nat * list (nat * SimEvent)) (x : nat * SimEvent) :
  Forall (fun op => isSchedule op = true) scheduled ->
  In x (snd (fold_left applyStamped scheduled st)) ->
  In x (snd st) \/ (fst st <= fst x)%nat.
Proof.
  intros F; revert st; induction F as [|op ops Hop _ IH]; intros st Hin;
    [left; exact Hin|].
  cbn [fold_left] in Hin.
  destruct op as [ty t j|]; [|discriminate].
  destruct (IH _ Hin) as [Hold|Hnew].
  - apply (Permutation_in _ (applyStamped_schedule_permutation st ty t j))
      in Hold.
    destruct Hold as [<-|Hold]; [right; cbn; lia|left; exact Hold].
  - right. cbn [applyStamped fst] in Hnew. lia.
Qed.

Lemma stamped_count_mono (ops : list QueueOp)
    (st : nat * list (nat * SimEvent)) :
  (fst st <= fst (fold_left applyStamped ops st))%nat.
Proof.
  revert st; induction ops as [|op ops IH]; intros st; [cbn; lia|].
  cbn [fold_left]. specialize (IH (applyStamped st op)).
  etransitivity; [|exact IH].
  destruct op; cbn [applyStamped fst]; lia.
Qed.

Lemma StronglySorted_snoc {A} (R : A -> A -> Prop) (l : list A) (x : A) :
  StronglySorted R l -> Forall (fun a => R a x) l ->
  StronglySorted R (l ++ [x]).
Proof.
  induction 1 as [|a l Sl IH Fa]; intros F; cbn [app].
  - repeat constructor.
  - inversion F as [|? ? Ra Fl]; subst. constructor; [apply IH; exact Fl|].
    rewrite Forall_app. split; [exact Fa|repeat constructor; exact Ra].
Qed.

Lemma history_reachable (L : Q -> Q) (config : SimulationConfig)
    (s : SimState) (ops : list QueueOp) (handled : list (nat * SimEvent)) :
  History L config s ops handled -> Reachable L config s.
Proof.
  induction 1; [constructor|]. eapply reach_step; eassumption.
Qed.

(** What the calls made so far say of the events handled so far: ties
    among them were handled in call order, and each of them goes, in call
    order, before every pending event of its timestamp. *)
Lemma history_invariant (L : Q -> Q) (config : SimulationConfig)
    (s : SimState) (ops : list QueueOp) (handled : list (nat * SimEvent)) :
  History L config s ops handled ->
  let st := fold_left applyStamped ops (O, []) in
  queue s = fold_left applyOp ops []
  /\ StronglySorted tiesInCallOrder handled
  /\ Forall (fun a => Forall (tiesInCallOrder a) (snd st)) handled
  /\ Forall (fun a => (fst a < fst st)%nat) handled.
Proof.
  induction 1 as [t0 E|s s' ops scheduled handled rest first _ IH Hrun Hstep
                  Est F Q'].
  - cbn. repeat split; try constructor. exact E.
  - cbv zeta in *. destruct IH as (E & Hs & HP & HB).
    destruct (stamped_invariant ops) as (Ss & Sb & _).
    rewrite Est in *.
    rewrite !fold_left_app. cbn [fold_left applyStamped applyOp].
    rewrite Est. cbn [tl].
    set (st := fold_left applyStamped ops (O, [])) in *.
    set (st' := fold_left applyStamped scheduled (fst st, rest)).
    assert (Mono : (fst st <= fst st')%nat)
      by (apply (stamped_count_mono scheduled (fst st, rest))).
    assert (Hfirst : (fst first < fst st)%nat)
      by (inversion Sb; assumption).
    assert (Origin : forall b, In b (snd st') ->
                     In b rest \/ (fst st <= fst b)%nat).
    { intros b Hb.
      apply (stamped_schedules_origin scheduled (fst st, rest) b F Hb). }
    split.
    { rewrite Q'. cbn [fold_left applyOp]. rewrite E. reflexivity. }
    split.
    { apply StronglySorted_snoc; [exact Hs|].
      eapply Forall_impl; [|exact HP].
      intros a Fa. inversion Fa; assumption. }
    split.
    { rewrite Forall_app. split.
      - rewrite Forall_forall in HP, HB |- *. intros a Ha.
        rewrite Forall_forall. intros b Hb.
        destruct (Origin b Hb) as [Hold|Hnew].
        + specialize (HP a Ha). rewrite Forall_forall in HP.
          apply HP. right; exact Hold.
        + intros _. specialize (HB a Ha). cbn beta in HB. lia.
      - constructor; [|constructor].
        rewrite Forall_forall. intros b Hb.
        destruct (Origin b Hb) as [Hold|Hnew].
        + inversion Ss as [|? ? _ Fr]; subst.
          rewrite Forall_forall in Fr. specialize (Fr b Hold).
          intros Eq. destruct Fr as [Lt|[_ N]]; [lra|exact N].
        + intros _. lia. }
    rewrite Forall_app. split.
    + eapply Forall_impl; [|exact HB]. intros a Ha. cbn beta in *. lia.
    + repeat constructor. lia.
Qed.

Lemma history_head (L : Q -> Q) (config : SimulationConfig)
    (s : SimState) (ops : list QueueOp) (handled : list (nat * SimEvent))
    (e : SimEvent) (q : list SimEvent) :
  History L config s ops handled ->
  queue s = e :: q ->
  exists first rest,
    snd (fold_left applyStamped ops (O, [])) = first :: rest
    /\ snd first = e.
Proof.
  intros H Hq.
  destruct (history_invariant L config s ops handled H) as (E & _).
  destruct (stamped_invariant ops) as (_ & _ & M).
  rewrite <- E, Hq in M.
  destruct (snd (fold_left applyStamped ops (O, []))) as [|first rest];
    [discriminate|].
  exists first, rest. cbn [map] in M. injection M as M _.
  split; [reflexivity|exact M].
Qed.

Lemma history_loop (L : Q -> Q) (config : SimulationConfig) (fuel : nat)
    (s0 s : SimState) (ops0 : list QueueOp)
    (handled0 : list (nat * SimEvent)) :
  History L config s0 ops0 handled0 ->
  loop L config fuel s0 = Some s ->
  exists ops handled,
    History L config s ops handled
    /\ map snd handled = map snd handled0 ++ processed L config fuel s0.
Proof.
  revert s0 ops0 handled0; induction fuel as [|fuel IH];
    intros s0 ops0 handled0 H0 Hl; cbn [loop processed] in *.
  - destruct (running config s0); [discriminate|].
    injection Hl as <-. exists ops0, handled0.
    rewrite app_nil_r. split; [exact H0|reflexivity].
  - destruct (running config s0) eqn:Hrun.
    2:{ injection Hl as <-. exists ops0, handled0.
        rewrite app_nil_r. split; [exact H0|reflexivity]. }
    destruct (step L config s0) as [s1|] eqn:Es; [|discriminate].
    destruct (step_accounting L config s0 s1 Es) as (e & q & Eq & _).
    destruct (history_head L config s0 ops0 handled0 e q H0 Eq)
      as (first & rest & Est & Hfirst).
    destruct (step_queue_ops L config s0 s1 Es) as (scheduled & F & Q').
    destruct (IH s1 (ops0 ++ Shift :: scheduled) (handled0 ++ [first]))
      as (ops & handled & H & M); [|exact Hl|].
    { eapply history_step; eassumption. }
    exists ops, handled. split; [exact H|].
    rewrite M, Eq, map_app, <- app_assoc. cbn [map app].
    rewrite Hfirst. reflexivity.
Qed.

(** C4. The scheduler, for every sequence of calls of [schedule] and
    [shift]: the queue of the code is the numbered queue with the numbers
    erased; the numbers count the calls of [schedule]; a call of [schedule]
    adds its event and loses none; the numbered queue is in handling
    order, so the event at its head was scheduled before every other
    pending event that shares its timestamp.
    One iteration, whatever calls made the queue of its state: it handles
    the event at the head; the queue it leaves is the queue after one
    [shift] and the calls of [schedule] of the handler; every other
    pending event is still pending under its number, and the new ones
    carry later numbers.
    The run: the events the loop handles are, in order, the heads it
    removed, and among them every two with the same timestamp were handled
    in the order in which [schedule] was called for them. *)
Theorem scheduler_stable_at_equal_timestamps :
  (forall ops : list QueueOp,
     let st := fold_left applyStamped ops (O, []) in
     map snd (snd st) = fold_left applyOp ops []
     /\ fst st = length (filter isSchedule ops)
     /\ Forall (fun a => (fst a < fst st)%nat) (snd st)
     /\ StronglySorted handledBefore (snd st)
     /\ (forall first rest,
           snd st = first :: rest ->
           forall other,
             In other rest ->
             time (snd first) <= time (snd other)
             /\ (time (snd other) == time (snd first) ->
                 (fst first < fst other)%nat))
     /\ (forall ty t j,
           Permutation (fold_left applyOp (ops ++ [Schedule ty t j]) [])
                       (mkEvent t ty j :: fold_left applyOp ops [])
           /\ Permutation (snd (applyStamped st (Schedule ty t j)))
                          ((fst st, mkEvent t ty j) :: snd st)))
  /\ (forall (L : Q -> Q) (config : SimulationConfig) (s s' : SimState)
        (ops : list QueueOp),
        queue s = fold_left applyOp ops [] ->
        running config s = true ->
        step L config s = Some s' ->
        let st := fold_left applyStamped ops (O, []) in
        exists first rest,
          snd st = first :: rest
          /\ queue s = snd first :: map snd rest
          /\ processed L config 1 s = [snd first]
          /\ currentTime s' = time (snd first)
          /\ Forall (tiesInCallOrder first) rest
          /\ (exists scheduled,
                Forall (fun op => isSchedule op = true) scheduled
                /\ queue s' = fold_left applyOp (Shift :: scheduled) (queue s))
          /\ forall scheduled,
               Forall (fun op => isSchedule op = true) scheduled ->
               queue s' = fold_left applyOp (Shift :: scheduled) (queue s) ->
               let st' :=
                 fold_left applyStamped (ops ++ Shift :: scheduled) (O, []) in
               queue s' = map snd (snd st')
               /\ (forall x, In x rest -> In x (snd st'))
               /\ (forall x, In x (snd st') ->
                     In x rest \/ (fst st <= fst x)%nat))
  /\ (forall (L : Q -> Q) (config : SimulationConfig) (fuel : nat)
        (s : SimState),
        loop L config fuel (initialState L config) = Some s ->
        exists ops handled,
          History L config s ops handled
          /\ map snd handled =
             processed L config fuel (initialState L config))
  /\ (forall (L : Q -> Q) (config : SimulationConfig) (s : SimState)
        (ops : list QueueOp) (handled : list (nat * SimEvent)),
        History L config s ops handled ->
        Reachable L config s
        /\ queue s = map snd (snd (fold_left applyStamped ops (O, [])))
        /\ StronglySorted tiesInCallOrder handled
        /\ Forall (fun a =>
                     Forall (tiesInCallOrder a)
                            (snd (fold_left applyStamped ops (O, []))))
                  handled).
Proof.
  split; [|split; [|split]].
  - intros ops st. destruct (stamped_invariant ops) as (Hs & B & E).
    fold st in Hs, B, E.
    split; [exact E|]. split; [apply stamped_count|].
    split; [exact B|]. split; [exact Hs|]. split.
    + intros first rest Hq other Hin. rewrite Hq in Hs.
      inversion Hs as [|? ? _ F]; subst.
      rewrite Forall_forall in F. specialize (F other Hin).
      destruct F as [Lt|[Eq N]].
      * split; [lra|]. intros C. lra.
      * split; [lra|]. intros _. exact N.
    + intros ty t j. split.
      * rewrite fold_left_app. cbn [fold_left applyOp].
        apply schedule_permutation.
      * apply applyStamped_schedule_permutation.
  - intros L config s s' ops E Hrun Hstep st.
    destruct (stamped_invariant ops) as (Ss & _ & M). fold st in Ss, M.
    destruct (step_accounting L config s s' Hstep)
      as (e & rest0 & Hq & Ht & _).
    destruct (snd st) as [|first rest] eqn:Est.
    { rewrite <- M in E. rewrite Hq in E. discriminate E. }
    exists first, rest.
    assert (Hfirst : snd first = e).
    { rewrite <- M in E. rewrite Hq in E. cbn [map] in E.
      injection E as E1 _. symmetry; exact E1. }
    split; [reflexivity|].
    split; [rewrite E, <- M; reflexivity|].
    split.
    { cbn [processed]. rewrite Hrun, Hq, Hstep, Hfirst. reflexivity. }
    split; [rewrite Hfirst; exact Ht|].
    split.
    { inversion Ss as [|? ? _ Fr]; subst.
      eapply Forall_impl; [|exact Fr].
      intros b [Lt|[_ N]] Eq; [lra|exact N]. }
    split; [apply (step_queue_ops L config s s' Hstep)|].
    intros scheduled F Q' st'.
    destruct (stamped_invariant (ops ++ Shift :: scheduled))
      as (_ & _ & M').
    fold st' in M'.
    assert (Est' : st' = fold_left applyStamped scheduled (fst st, rest)).
    { unfold st'. rewrite fold_left_app. cbn [fold_left applyStamped].
      fold st. rewrite Est. reflexivity. }
    split.
    { rewrite M', fold_left_app, <- E. exact Q'. }
    split.
    + intros x Hin. rewrite Est'.
      apply stamped_schedules_keep; [exact F|exact Hin].
    + intros x Hin. rewrite Est' in Hin.
      apply (stamped_schedules_origin scheduled (fst st, rest) x F Hin).
  - intros L config fuel s Hl.
    destruct (initialState_queue_ops L config) as [t0 E0].
    destruct (history_loop L config fuel (initialState L config) s
                [Schedule ARRIVAL t0 None] [])
      as (ops & handled & H & M); [|exact Hl|].
    { apply history_initial. exact E0. }
    exists ops, handled. split; [exact H|exact M].
  - intros L config s ops handled H.
    destruct (history_invariant L config s ops handled H)
      as (E & Hs & HP & _).
    destruct (stamped_invariant ops) as (_ & _ & M).
    split; [eapply history_reachable; exact H|].
    split; [rewrite M; exact E|].
    split; [exact Hs|exact HP].
Qed.

(** Three calls of [schedule], two of them for the same time, and one
    [shift]: the two tied events stay in the order of their calls. *)
Lemma scheduler_stable_at_equal_timestamps_witness :
  fold_left applyOp
    [Schedule MOULDING_FINISH 5 (Some O); Schedule ARRIVAL 3 None;
     Schedule INSPECTION_FINISH 5 (Some 1%nat); Shift] []
  = [mkEvent 5 MOULDING_FINISH (Some O);
     mkEvent 5 INSPECTION_FINISH (Some 1%nat)]
  /\ map snd
       (snd (fold_left applyStamped
               [Schedule MOULDING_FINISH 5 (Some O); Schedule ARRIVAL 3 None;
                Schedule INSPECTION_FINISH 5 (Some 1%nat); Shift] (O, [])))
     = fold_left applyOp
         [Schedule MOULDING_FINISH 5 (Some O); Schedule ARRIVAL 3 None;
          Schedule INSPECTION_FINISH 5 (Some 1%nat); Shift] []
  /\ map fst
       (snd (fold_left applyStamped
               [Schedule MOULDING_FINISH 5 (Some O); Schedule ARRIVAL 3 None;
                Schedule INSPECTION_FINISH 5 (Some 1%nat); Shift] (O, [])))
     = [0%nat; 2%nat].
Proof.
  split; [vm_compute; reflexivity|].
  split; [|vm_compute; reflexivity].
  apply (proj1 scheduler_stable_at_equal_timestamps
           [Schedule MOULDING_FINISH 5 (Some O); Schedule ARRIVAL 3 None;
            Schedule INSPECTION_FINISH 5 (Some 1%nat); Shift]).
Defined.

(** * The aggregate of several replications *)

Lemma fold_left_extract {A} (f : A -> Q) (l : list A) (a : Q) :
  fold_left (fun sum s => sum + f s) l a == a + sumQ (map f l).
Proof.
  revert a; induction l as [|x l IH]; intros a; cbn [fold_left map].
  - unfold sumQ; cbn. ring.
  - rewrite IH, sumQ_cons. ring.
Qed.

Lemma fold_left_concat {A} (f : A -> list Q) (l : list A) (acc : list Q) :
  fold_left (fun arr s => arr ++ f s) l acc = acc ++ concat (map f l).
Proof.
  revert acc; induction l as [|x l IH]; intros acc; cbn [fold_left map concat].
  - rewrite app_nil_r. reflexivity.
  - rewrite IH, app_assoc. reflexivity.
Qed.

Lemma fold_left_Qmax_ge (l : list Q) (a : Q) :
  a <= fold_left Qmax l a /\ Forall (fun x => x <= fold_left Qmax l a) l.
Proof.
  revert a; induction l as [|x l IH]; intros a; cbn [fold_left].
  - split; [lra|constructor].
  - destruct (IH (Qmax a x)) as [H1 H2].
    pose proof (Q.le_max_l a x). pose proof (Q.le_max_r a x).
    split; [lra|]. constructor; [lra|exact H2].
Qed.

Lemma Math_max_ge (l : list Q) : Forall (fun x => x <= Math_max l) l.
Proof.
  destruct l as [|a l]; [constructor|]. cbn [Math_max].
  destruct (fold_left_Qmax_ge l a) as [H1 H2].
  constructor; assumption.
Qed.

Lemma Math_max_In (l : list Q) : l <> [] -> exists x, In x l /\ x == Math_max l.
Proof.
  destruct l as [|a l]; [congruence|]. intros _. cbn [Math_max].
  revert a; induction l as [|y l IH]; intros a; cbn [fold_left].
  - exists a. split; [left; reflexivity|reflexivity].
  - destruct (IH (Qmax a y)) as (x & [Hx|Hx] & E).
    + destruct (Q.max_spec a y) as [[_ M]|[_ M]].
      * exists y. split; [right; left; reflexivity|].
        rewrite <- E, <- Hx. symmetry; exact M.
      * exists a. split; [left; reflexivity|].
        rewrite <- E, <- Hx. symmetry; exact M.
    + exists x. split; [right; right; exact Hx|exact E].
Qed.

Lemma count_pos {A} (a b : A) (l : list A) :
  2 <= inject_Z (Z.of_nat (length (a :: b :: l))).
Proof.
  change 2 with (inject_Z 2). rewrite <- Zle_Qle. cbn [length]. lia.
Qed.

(** X14. The aggregate of two or more replications.  Each averaged
    field times the number of runs is the sum of the runs' values;
    [totalJobs] and [completedJobs] are the rounded averages; each
    confidence interval is centred on the average of its field, and
    [lower <= mean <= upper] when [Math.sqrt] returns no negative number;
    the combined wait times are the runs' wait times, concatenated in the
    order of the runs; the reported maximum wait of a stage is the largest
    of the runs' maxima. *)
Theorem aggregate_of_several_runs (Math_sqrt : Q -> Q)
    (r1 r2 : SimulationStats) (rest : list SimulationStats) :
  let runs := r1 :: r2 :: rest in
  let count := inject_Z (Z.of_nat (length runs)) in
  exists agg,
    aggregateResults Math_sqrt runs = Some agg
    /\ (avgLeadTime agg * count == sumQ (map avgLeadTime runs)
        /\ avgDegradationCostPerPart agg * count
           == sumQ (map avgDegradationCostPerPart runs)
        /\ totalDegradationCost agg * count
           == sumQ (map totalDegradationCost runs)
        /\ throughput agg * count == sumQ (map throughput runs)
        /\ avgWip agg * count == sumQ (map avgWip runs)
        /\ serviceLevel agg * count == sumQ (map serviceLevel runs))
    /\ totalJobs agg =
       Math_round (sumQ (map (fun s => inject_Z (totalJobs s)) runs) / count)
    /\ completedJobs agg =
       Math_round
         (sumQ (map (fun s => inject_Z (completedJobs s)) runs) / count)
    /\ (ConfidenceInterval.mean (leadTimeCI agg) == avgLeadTime agg
        /\ ConfidenceInterval.upper (leadTimeCI agg)
           - ConfidenceInterval.mean (leadTimeCI agg)
           == ConfidenceInterval.mean (leadTimeCI agg)
              - ConfidenceInterval.lower (leadTimeCI agg))
    /\ (ConfidenceInterval.mean (costCI agg) == avgDegradationCostPerPart agg
        /\ ConfidenceInterval.upper (costCI agg)
           - ConfidenceInterval.mean (costCI agg)
           == ConfidenceInterval.mean (costCI agg)
              - ConfidenceInterval.lower (costCI agg))
    /\ ((forall x, 0 <= Math_sqrt x) ->
        ConfidenceInterval.lower (leadTimeCI agg)
          <= ConfidenceInterval.mean (leadTimeCI agg)
          <= ConfidenceInterval.upper (leadTimeCI agg)
        /\ ConfidenceInterval.lower (costCI agg)
             <= ConfidenceInterval.mean (costCI agg)
             <= ConfidenceInterval.upper (costCI agg))
    /\ (forall key,
          stageOf key (waitTimes agg)
          = concat (map (fun s => stageOf key (waitTimes s)) runs))
    /\ (forall key s,
          In s runs ->
          WaitStats.max (stageOf key (waitStats s))
          <= WaitStats.max (stageOf key (waitStats agg)))
    /\ (forall key,
          exists s,
            In s runs
            /\ WaitStats.max (stageOf key (waitStats s))
               == WaitStats.max (stageOf key (waitStats agg))).
Proof.
  intros runs count.
  assert (C2 : 2 <= count) by (apply count_pos).
  assert (C0 : ~ count == 0) by lra.
  assert (Avg : forall f : SimulationStats -> Q,
            fold_left (fun sum s => sum + f s) runs 0 / count * count
            == sumQ (map f runs)).
  { intros f. rewrite fold_left_extract. field. exact C0. }
  assert (Avg' : forall f : SimulationStats -> Q,
            fold_left (fun sum s => sum + f s) runs 0 / count
            == sumQ (map f runs) / count).
  { intros f. rewrite fold_left_extract. field. exact C0. }
  eexists. split; [reflexivity|].
  cbn [avgLeadTime avgDegradationCostPerPart totalDegradationCost throughput
       avgWip serviceLevel totalJobs completedJobs leadTimeCI costCI
       waitTimes waitStats ConfidenceInterval.mean ConfidenceInterval.lower
       ConfidenceInterval.upper].
  fold runs. fold count.
  split; [repeat split; apply Avg|].
  split; [unfold Math_round; apply Qfloor_comp; rewrite Avg'; reflexivity|].
  split; [unfold Math_round; apply Qfloor_comp; rewrite Avg'; reflexivity|].
  split; [split; [rewrite Avg'; reflexivity|ring]|].
  split; [split; [rewrite Avg'; reflexivity|ring]|].
  split.
  { intros Pos.
    assert (M : forall v, 0 <= (196 # 100) * (Math_sqrt v / Math_sqrt count)).
    { intros v. pose proof (Pos v) as Pv. pose proof (Pos count) as Pc.
      assert (0 <= Math_sqrt v / Math_sqrt count).
      { destruct (Qeq_dec (Math_sqrt count) 0) as [Z0|NZ].
        - unfold Qdiv. rewrite Z0. unfold Qinv; cbn. lra.
        - apply Qle_shift_div_l; lra. }
      nra. }
    split.
    - match goal with |- ?m - ?x <= _ <= _ =>
        assert (0 <= x) by apply M; lra end.
    - match goal with |- ?m - ?x <= _ <= _ =>
        assert (0 <= x) by apply M; lra end. }
  split.
  { intros key. destruct key; cbn [stageOf moulding inspection packaging];
      rewrite fold_left_concat; reflexivity. }
  split.
  2:{ assert (G : forall key',
                exists s,
                  In s runs
                  /\ WaitStats.max (stageOf key' (waitStats s))
                     == Math_max
                          (map (fun s0 =>
                                  WaitStats.max (stageOf key' (waitStats s0)))
                               runs)).
      { intros key'.
        destruct (Math_max_In
                    (map (fun s0 =>
                            WaitStats.max (stageOf key' (waitStats s0)))
                         runs)) as (x & Hx & E); [discriminate|].
        apply in_map_iff in Hx. destruct Hx as (s & <- & Hs).
        exists s. split; [exact Hs|exact E]. }
      intros key.
      destruct key; cbn [stageOf moulding inspection packaging WaitStats.max].
      - exact (G Moulding).
      - exact (G Inspection).
      - exact (G Packaging). }
  intros key s Hin.
  assert (G : forall key',
            WaitStats.max (stageOf key' (waitStats s))
            <= Math_max
                 (map (fun s0 => WaitStats.max (stageOf key' (waitStats s0)))
                      runs)).
  { intros key'.
    pose proof (Math_max_ge
                  (map (fun s0 => WaitStats.max (stageOf key' (waitStats s0)))
                       runs)) as F.
    rewrite Forall_forall in F. apply F.
    apply (in_map (fun s0 => WaitStats.max (stageOf key' (waitStats s0)))).
    exact Hin. }
  destruct key; cbn [stageOf moulding inspection packaging WaitStats.max].
  - exact (G Moulding).
  - exact (G Inspection).
  - exact (G Packaging).
Qed.

(** * A shift of no length *)

Lemma initialState_clock (L : Q -> Q) (config : SimulationConfig) :
  currentTime (initialState L config) = 0
  /\ wipArea (initialState L config) = 0
  /\ totalMouldingBusyTime (initialState L config) = 0
  /\ totalInspectionBusyTime (initialState L config) = 0
  /\ totalPackagingBusyTime (initialState L config) = 0.
Proof.
  unfold initialState.
  destruct (Random.exponential L (arrivalIntervalMean config)
              (Random.mk (seed config))); repeat split.
Qed.

Lemma initialState_stopped (L : Q -> Q) (config : SimulationConfig) :
  duration config <= 0 -> running config (initialState L config) = false.
Proof.
  intros H. unfold running.
  destruct (initialState_clock L config) as (-> & _).
  destruct (queue (initialState L config)); [reflexivity|].
  apply Qltb_false. exact H.
Qed.

(** X15. With [duration <= 0] the loop condition fails before the first
    iteration: whatever the fuel, no event is handled, the single run
    returns, and it reports no job, no cost, no wait and no busy time;
    with at most one replication [run] returns that result. *)
Theorem nonpositive_duration_handles_no_event
    (L Math_sqrt : Q -> Q) (config : SimulationConfig) (fuel : nat) :
  duration config <= 0 ->
  loop L config fuel (initialState L config) = Some (initialState L config)
  /\ processed L config fuel (initialState L config) = []
  /\ exists stats,
       runSingleSimulation L config fuel = Some stats
       /\ ((replications config <= 1)%Z ->
           run L Math_sqrt fuel config = Some stats)
       /\ totalJobs stats = 0%Z
       /\ completedJobs stats = 0%Z
       /\ avgWip stats == 0
       /\ avgLeadTime stats == 0
       /\ serviceLevel stats == 0
       /\ totalDegradationCost stats == 0
       /\ avgDegradationCostPerPart stats == 0
       /\ waitTimes stats = {| moulding := []; inspection := []; packaging := [] |}
       /\ moulding (machineUtilization stats) == 0
       /\ inspection (machineUtilization stats) == 0
       /\ packaging (machineUtilization stats) == 0.
Proof.
  intros H.
  pose proof (initialState_stopped L config H) as Stop.
  assert (Hl : loop L config fuel (initialState L config)
               = Some (initialState L config)).
  { destruct fuel; cbn [loop]; rewrite Stop; reflexivity. }
  split; [exact Hl|].
  split; [destruct fuel; cbn [processed]; [|rewrite Stop]; reflexivity|].
  exists (statistics config (initialState L config)).
  assert (R : runSingleSimulation L config fuel
              = Some (statistics config (initialState L config))).
  { unfold runSingleSimulation. rewrite Hl. reflexivity. }
  split; [exact R|].
  split.
  { intros Hone.
    destruct (run_one L Math_sqrt fuel config Hone) as [_ ->]. exact R. }
  destruct (initialState_clock L config) as (_ & Ha & Hm & Hi & Hp).
  pose proof (initialState_jobs L config) as Hj.
  unfold statistics. rewrite Hj, Ha, Hm, Hi, Hp.
  cbn [totalJobs completedJobs avgWip avgLeadTime serviceLevel
       totalDegradationCost avgDegradationCostPerPart waitTimes
       machineUtilization filter length tallyJobs fold_left
       waits_m waits_i waits_p totalLeadTime totalDegradation].
  cbn [moulding inspection packaging].
  assert (Z0 : forall d, safeDiv 0 d == 0).
  { intros d. unfold safeDiv. destruct (Qeq_bool d 0); [reflexivity|].
    unfold Qdiv. ring. }
  repeat split; try reflexivity; apply Z0.
Qed.

Lemma nonpositive_duration_handles_no_event_witness :
  duration idleConfig <= 0
  /\ loop ln_pade idleConfig 0 (initialState ln_pade idleConfig)
     = Some (initialState ln_pade idleConfig)
  /\ processed ln_pade idleConfig 7 (initialState ln_pade idleConfig) = []
  /\ exists stats,
       run ln_pade sqrt_floor 0 idleConfig = Some stats
       /\ totalJobs stats = 0%Z.
Proof.
  assert (H : duration idleConfig <= 0) by (cbn; lra).
  split; [exact H|].
  split;
    [exact (proj1 (nonpositive_duration_handles_no_event
                     ln_pade sqrt_floor idleConfig 0 H))|].
  split;
    [exact (proj1 (proj2 (nonpositive_duration_handles_no_event
                            ln_pade sqrt_floor idleConfig 7 H)))|].
  destruct (proj2 (proj2 (nonpositive_duration_handles_no_event
                            ln_pade sqrt_floor idleConfig 0 H)))
    as (stats & _ & R & J & _).
  exists stats. split; [apply R; cbn; lia|exact J].
Defined.

(** * The histogram of the dashboard *)

Lemma histogramMax_bounds (data : list Q) :
  1 <= histogramMax data /\ Forall (fun v => v <= histogramMax data) data.
Proof.
  unfold histogramMax.
  pose proof (Math_max_ge (data ++ [1])) as F.
  rewrite Forall_app in F. destruct F as [Fd F1].
  inversion F1 as [|? ? H1 _]; subst.
  pose proof (Qle_ceiling (Math_max (data ++ [1]))) as C.
  split; [lra|].
  eapply Forall_impl; [|exact Fd]. intros v Hv. cbn beta in Hv. lra.
Qed.

Lemma binWidth_pos (data : list Q) : 0 < binWidth data.
Proof.
  destruct (histogramMax_bounds data) as [H _].
  unfold binWidth. apply Qlt_shift_div_l; lra.
Qed.


Lemma floor_of_quotient (v w : Q) :
  0 < w ->
  inject_Z (Qfloor (v / w)) * w <= v
  /\ v < (inject_Z (Qfloor (v / w)) + 1) * w.
Proof.
  intros Hw.
  pose proof (Qfloor_le (v / w)) as Lo.
  pose proof (Qlt_floor (v / w)) as Hi.
  rewrite inject_Z_plus in Hi. change (inject_Z 1) with 1 in Hi.
  assert (E : v == v / w * w) by (field; lra).
  split.
  - rewrite E at 2. apply Qmult_le_compat_r; lra.
  - rewrite E at 1. apply Qmult_lt_compat_r; lra.
Qed.

Lemma binIndex_spec (data : list Q) (v : Q) :
  (binIndex data v <= 14)%Z
  /\ (0 <= v -> (0 <= binIndex data v)%Z)
  /\ (v < 0 -> (binIndex data v < 0)%Z)
  /\ ((0 <= binIndex data v)%Z ->
      inject_Z (binIndex data v) * binWidth data <= v)
  /\ ((binIndex data v < 14)%Z ->
      v < (inject_Z (binIndex data v) + 1) * binWidth data).
Proof.
  pose proof (binWidth_pos data) as Hw.
  unfold binIndex. change (15 - 1)%Z with 14%Z.
  assert (E : (v - 0) / binWidth data == v / binWidth data)
    by (field; lra).
  rewrite (Qfloor_comp _ _ E).
  destruct (floor_of_quotient v (binWidth data) Hw) as [Lo Hi].
  set (k := Qfloor (v / binWidth data)) in *.
  split; [lia|].
  split.
  { intros Hv. assert (0 <= k)%Z; [|lia].
    assert (-1 < k)%Z; [|lia].
    rewrite Zlt_Qlt. change (inject_Z (-1)) with (-1).
    assert (0 < (inject_Z k + 1) * binWidth data) by lra.
    nra. }
  split.
  { intros Hv. assert (k < 0)%Z; [|lia].
    rewrite Zlt_Qlt. change (inject_Z 0) with 0. nra. }
  split.
  { intros H0. destruct (Z.min_spec k 14) as [[Lt ->]|[Ge ->]]; [exact Lo|].
    assert (inject_Z 14 <= inject_Z k) by (rewrite <- Zle_Qle; exact Ge).
    assert (inject_Z 14 * binWidth data <= inject_Z k * binWidth data)
      by (apply Qmult_le_compat_r; lra).
    lra. }
  intros H14. rewrite Z.min_l by lia. rewrite Z.min_l in H14 by lia.
  exact Hi.
Qed.

Lemma countValue_length (data : list Q) (bins : list Bin.t) (v : Q) :
  length (countValue data bins v) = length bins.
Proof.
  unfold countValue. destruct (0 <=? binIndex data v)%Z; [|reflexivity].
  apply length_update.
Qed.




Lemma totalCount_update (n : nat) (bins : list Bin.t) :
  (n < length bins)%nat ->
  totalCount (update n (fun b => Bin.mk (Bin.min b) (Bin.count b + 1)) bins)
  = (totalCount bins + 1)%Z.
Proof.
  revert n; induction bins as [|b bins IH]; intros n Hn;
    [cbn in Hn; lia|].
  destruct n as [|n]; cbn [update totalCount fold_right Bin.count].
  - fold (totalCount bins). lia.
  - fold (totalCount bins).
    fold (totalCount
            (update n (fun b => Bin.mk (Bin.min b) (Bin.count b + 1)) bins)).
    rewrite IH by (cbn in Hn; lia). lia.
Qed.

Lemma fold_countValue_total (data values : list Q) (bins : list Bin.t) :
  length bins = 15%nat ->
  totalCount (fold_left (countValue data) values bins)
  = (totalCount bins
     + Z.of_nat (length (filter (fun v => Qle_bool 0 v) values)))%Z.
Proof.
  revert bins; induction values as [|v values IH]; intros bins Hb.
  - cbn [fold_left filter length]. lia.
  - cbn [fold_left filter].
    rewrite IH by (rewrite countValue_length; exact Hb).
    destruct (binIndex_spec data v) as (H14 & Hpos & Hneg & _).
    unfold countValue.
    destruct (Qle_bool 0 v) eqn:E.
    + apply Qle_bool_iff in E. specialize (Hpos E).
      rewrite (proj2 (Z.leb_le _ _) Hpos).
      rewrite totalCount_update by lia. cbn [length]. lia.
    + assert (v < 0).
      { destruct (Qlt_le_dec v 0) as [Lt|Ge]; [exact Lt|].
        apply Qle_bool_iff in Ge. congruence. }
      specialize (Hneg H).
      rewrite (proj2 (Z.leb_gt _ _) Hneg). reflexivity.
Qed.

Lemma initial_bins_total (w : Q) (l : list nat) :
  totalCount (map (fun i => Bin.mk (0 + inject_Z (Z.of_nat i) * w) 0) l)
  = 0%Z.
Proof. induction l as [|i l IH]; [reflexivity|]. cbn. exact IH. Qed.


(** * The advice of the dashboard *)

Ltac advice_cases :=
  repeat match goal with
  | H : Qltb _ _ = true |- _ => apply Qltb_lt in H
  | H : Qltb _ _ = false |- _ => apply Qltb_ge in H
  end.

(** X17. [getRecommendations] always gives advice, at most three items.
    The sentence that the system is balanced is given exactly when it is
    the only one, which is when no test fires.  The inspection bottleneck
    is reported exactly above 90% utilization, and the packaging warning
    only when it is not; the tail-risk warning exactly when [p90] exceeds
    15; excess capacity exactly when packaging and moulding are both below
    30%, so never together with the packaging warning. *)
Theorem getRecommendations_advice (stats : SimulationStats) :
  let recs := getRecommendations stats in
  let util := machineUtilization stats in
  let p90 := WaitStats.p90 (inspection (waitStats stats)) in
  recs <> []
  /\ (length recs <= 3)%nat
  /\ (In (Recommendation.mk SystemBalanced success) recs <->
      recs = [Recommendation.mk SystemBalanced success])
  /\ (recs = [Recommendation.mk SystemBalanced success] <->
      inspection util <= 9 # 10
      /\ packaging util <= 95 # 100
      /\ p90 <= 15
      /\ ~ (packaging util < 3 # 10 /\ moulding util < 3 # 10))
  /\ (In (Recommendation.mk InspectionBottleneck critical) recs <->
      9 # 10 < inspection util)
  /\ (In (Recommendation.mk PackagingMaxedOut warning) recs <->
      inspection util <= 9 # 10 /\ 95 # 100 < packaging util)
  /\ (In (Recommendation.mk (TailRisk p90) warning) recs <-> 15 < p90)
  /\ (In (Recommendation.mk ExcessCapacity info) recs <->
      packaging util < 3 # 10 /\ moulding util < 3 # 10)
  /\ ~ (In (Recommendation.mk PackagingMaxedOut warning) recs
        /\ In (Recommendation.mk ExcessCapacity info) recs)
  /\ ~ (In (Recommendation.mk PackagingMaxedOut warning) recs
        /\ In (Recommendation.mk InspectionBottleneck critical) recs).
Proof.
  intros recs util p90. unfold recs, getRecommendations. fold util. fold p90.
  destruct (Qltb (9 # 10) (inspection util)) eqn:Ti;
    destruct (Qltb (95 # 100) (packaging util)) eqn:Tp;
    destruct (Qltb 15 p90) eqn:Tw;
    destruct (Qltb (packaging util) (3 # 10)) eqn:Tl;
    destruct (Qltb (moulding util) (3 # 10)) eqn:Tm;
    advice_cases; cbn [app length Nat.eqb andb In];
    repeat split; unfold not; intros;
      repeat match goal with
      | H : _ /\ _ |- _ => destruct H
      | H : _ \/ _ |- _ => destruct H
      | H : False |- _ => destruct H
      | H : Recommendation.mk _ _ = Recommendation.mk _ _ |- _ =>
          first [discriminate H | clear H]
      | H : _ :: _ = _ |- _ => discriminate H
      | H : [] = _ :: _ |- _ => discriminate H
      end;
      try lia; try lra; try discriminate; try reflexivity;
      try solve [match goal with
                 | H : _ -> False |- _ => exfalso; apply H; split; lra
                 end];
      auto 6 using eq_refl.
Qed.

(** * The scenario history *)





(** * The life of a job *)

Lemma nth_error_update_same {A} (n : nat) (f : A -> A) (l : list A) (x : A) :
  nth_error l n = Some x -> nth_error (update n f l) n = Some (f x).
Proof.
  intros H. rewrite nth_error_update, H. cbn. rewrite Nat.eqb_refl.
  reflexivity.
Qed.

Lemma nth_error_update_other {A} (n k : nat) (f : A -> A) (l : list A) :
  n <> k -> nth_error (update n f l) k = nth_error l k.
Proof.
  intros H. rewrite nth_error_update.
  destruct (Nat.eqb_spec n k) as [E|_]; [contradiction|].
  destruct (nth_error l k); reflexivity.
Qed.

Lemma Held_not_in (p : nat) (js : list Job) (refs : list nat) (m : nat)
    (j : Job) :
  Held p js refs -> nth_error js m = Some j -> phase j <> p -> ~ In m refs.
Proof.
  intros H Hm Hp Hin. unfold Held in H. rewrite Forall_forall in H.
  destruct (H m Hin) as (j' & E & P). congruence.
Qed.

Lemma Held_update (p : nat) (js : list Job) (refs : list nat) (m : nat)
    (f : Job -> Job) :
  ~ In m refs -> Held p js refs -> Held p (update m f js) refs.
Proof.
  intros Hm H. unfold Held in *. rewrite Forall_forall in *.
  intros n Hn. destruct (H n Hn) as (j & E & P).
  exists j. split; [|exact P].
  rewrite nth_error_update_other; [exact E|].
  intros ->. contradiction.
Qed.

Lemma Held_snoc_jobs (p : nat) (js : list Job) (refs : list nat) (x : Job) :
  Held p js refs -> Held p (js ++ [x]) refs.
Proof.
  intros H. unfold Held in *. eapply Forall_impl; [|exact H].
  intros n (j & E & P). exists j. split; [|exact P].
  rewrite nth_error_app1; [exact E|].
  apply nth_error_Some. congruence.
Qed.

Lemma Held_in_range (p : nat) (js : list Job) (refs : list nat) :
  Held p js refs -> ~ In (length js) refs.
Proof.
  intros H Hin. unfold Held in H. rewrite Forall_forall in H.
  destruct (H _ Hin) as (j & E & _).
  assert (length js < length js)%nat; [|lia].
  apply nth_error_Some. congruence.
Qed.

Lemma Held_cons (p : nat) (js : list Job) (refs : list nat) (n : nat)
    (j : Job) :
  nth_error js n = Some j -> phase j = p -> Held p js refs ->
  Held p js (n :: refs).
Proof. intros E P H. constructor; [exists j; split; assumption|exact H]. Qed.

Lemma Held_snoc (p : nat) (js : list Job) (refs : list nat) (n : nat)
    (j : Job) :
  nth_error js n = Some j -> phase j = p -> Held p js refs ->
  Held p js (refs ++ [n]).
Proof.
  intros E P H. unfold Held. rewrite Forall_app. split; [exact H|].
  constructor; [exists j; split; assumption|constructor].
Qed.

Lemma NoDup_snoc {A} (l : list A) (x : A) :
  ~ In x l -> NoDup l -> NoDup (l ++ [x]).
Proof.
  intros Hx Hl.
  apply (Permutation_NoDup (l := x :: l));
    [apply Permutation_cons_append|constructor; assumption].
Qed.

(** The references of the queue after a call of [schedule]. *)
Lemma eventRefs_schedule (ty ty' : EventType) (q : list SimEvent) (t : Q)
    (j : option nat) :
  Permutation (eventRefs ty (schedule q ty' t j))
              (eventRefs ty [mkEvent t ty' j] ++ eventRefs ty q).
Proof.
  unfold eventRefs.
  rewrite (Permutation_flat_map _ (schedule_permutation q ty' t j)).
  cbn [flat_map]. rewrite app_nil_r. reflexivity.
Qed.

Lemma Held_schedule (p : nat) (js : list Job) (ty ty' : EventType)
    (q : list SimEvent) (t : Q) (j : option nat) :
  Held p js (eventRefs ty [mkEvent t ty' j] ++ eventRefs ty q) ->
  Held p js (eventRefs ty (schedule q ty' t j)).
Proof.
  unfold Held. apply Permutation_Forall. symmetry.
  apply eventRefs_schedule.
Qed.

Lemma NoDup_schedule (ty ty' : EventType) (q : list SimEvent) (t : Q)
    (j : option nat) :
  NoDup (eventRefs ty [mkEvent t ty' j] ++ eventRefs ty q) ->
  NoDup (eventRefs ty (schedule q ty' t j)).
Proof.
  apply Permutation_NoDup. symmetry. apply eventRefs_schedule.
Qed.

Lemma Ordered_later (now now' : Q) (j : Job) :
  now <= now' -> Ordered now j -> Ordered now' j.
Proof.
  intros H [A B C D E F G K].
  constructor; try assumption.
  - lra.
  - intros t Ht. specialize (B t Ht). lra.
  - intros t Ht. specialize (C t Ht). lra.
Qed.

Lemma phase_cases (j : Job) :
  (phase j = 0%nat ->
   mouldingStartTime j = None /\ mouldingEndTime j = None
   /\ inspectionStartTime j = None /\ inspectionEndTime j = None)
  /\ (phase j = 1%nat ->
      mouldingStartTime j <> None /\ mouldingEndTime j = None
      /\ inspectionStartTime j = None /\ inspectionEndTime j = None)
  /\ (phase j = 2%nat ->
      mouldingEndTime j <> None
      /\ inspectionStartTime j = None /\ inspectionEndTime j = None)
  /\ (phase j = 3%nat ->
      inspectionStartTime j <> None /\ inspectionEndTime j = None)
  /\ (phase j = 4%nat -> inspectionEndTime j <> None).
Proof.
  unfold phase.
  destruct (inspectionEndTime j), (inspectionStartTime j),
    (mouldingEndTime j), (mouldingStartTime j);
    repeat split; intros; congruence.
Qed.



Lemma Held_cons_intro (p : nat) (js : list Job) (refs : list nat) (n : nat) :
  (exists j, nth_error js n = Some j /\ phase j = p) ->
  Held p js refs -> Held p js (n :: refs).
Proof. intros E H. constructor; assumption. Qed.

Lemma Held_snoc_intro (p : nat) (js : list Job) (refs : list nat) (n : nat) :
  (exists j, nth_error js n = Some j /\ phase j = p) ->
  Held p js refs -> Held p js (refs ++ [n]).
Proof.
  intros E H. unfold Held. rewrite Forall_app. split; [exact H|].
  constructor; [exact E|constructor].
Qed.

Lemma nth_error_update_same_inv {A} (n : nat) (f : A -> A) (l : list A)
    (x : A) :
  nth_error (update n f l) n = Some x ->
  exists y, nth_error l n = Some y /\ x = f y.
Proof.
  rewrite nth_error_update. destruct (nth_error l n) as [y|]; [|discriminate].
  cbn. rewrite Nat.eqb_refl. intros [= <-]. exists y. split; reflexivity.
Qed.

Lemma Ordered_set_mouldingStartTime (now : Q) (j : Job) :
  Ordered now j -> Ordered now (set_mouldingStartTime now j).
Proof.
  intros [A B C D E F G K]. constructor; cbn; try assumption.
  intros t [= <-]. exact A.
Qed.

Lemma Ordered_set_mouldingEndTime (now : Q) (j : Job) :
  inspectionStartTime j = None ->
  Ordered now j -> Ordered now (set_mouldingEndTime now j).
Proof.
  intros N [A B C D E F G K]. constructor; cbn; try assumption.
  - intros t [= <-]. lra.
  - intros t0 t1 _ H. congruence.
Qed.

Lemma Ordered_set_inspectionStartTime (now : Q) (j : Job) :
  Ordered now j -> Ordered now (set_inspectionStartTime now j).
Proof.
  intros [A B C D E F G K]. constructor; cbn; try assumption.
  intros t0 t1 H0 [= <-]. apply B. exact H0.
Qed.

Lemma Ordered_set_inspectionEndTime (now : Q) (j : Job) :
  inspectionEndTime j = None ->
  Ordered now j -> Ordered now (set_inspectionEndTime now j).
Proof.
  intros N [A B C D E F G K]. constructor; cbn; try assumption.
  - intros t [= <-]. lra.
  - intros t0 t1 _ H. exfalso. apply K; [congruence|exact N].
  - intros _. discriminate.
Qed.

Lemma Ordered_set_packagingStartTime (now : Q) (j : Job) :
  inspectionEndTime j <> None ->
  Ordered now j -> Ordered now (set_packagingStartTime now j).
Proof.
  intros N [A B C D E F G K]. constructor; cbn; try assumption.
  - intros t0 t1 H0 [= <-]. apply C. exact H0.
  - intros _. exact N.
Qed.

Lemma Ordered_set_packagingEnd (now : Q) (j : Job) :
  Ordered now j -> Ordered now (set_finished (set_packagingEndTime now j)).
Proof.
  intros [A B C D E F G K]. constructor; cbn; try assumption.
  intros t [= <-]. exact A.
Qed.

Lemma Ordered_new (now : Q) (i : Z) (ty : option ProductType) :
  Ordered now
    {| id := i; productType := ty; arrivalTime := now;
       mouldingStartTime := None; mouldingEndTime := None;
       inspectionStartTime := None; inspectionEndTime := None;
       packagingStartTime := None; packagingEndTime := None;
       finished := false |}.
Proof. constructor; cbn; intros; try discriminate; try congruence; lra. Qed.

Lemma Held_update_phase (p : nat) (js : list Job) (refs : list nat) (m : nat)
    (f : Job -> Job) :
  (forall x, phase (f x) = phase x) ->
  Held p js refs -> Held p (update m f js) refs.
Proof.
  intros Hf H. unfold Held in *. eapply Forall_impl; [|exact H].
  intros n (j & E & P). rewrite nth_error_update, E. cbn [option_map].
  destruct (Nat.eqb m n); eexists; (split; [reflexivity|]);
    [rewrite Hf|]; exact P.
Qed.

Lemma nth_error_snoc {A} (l : list A) (x : A) :
  nth_error (l ++ [x]) (length l) = Some x.
Proof. rewrite nth_error_app2, Nat.sub_diag by lia. reflexivity. Qed.

Lemma Forall_snoc {A} (P : A -> Prop) (l : list A) (x : A) :
  Forall P l -> P x -> Forall P (l ++ [x]).
Proof.
  intros H Hx. rewrite Forall_app. split; [exact H|].
  constructor; [exact Hx|constructor].
Qed.

(** Reduce the references of a queue after calls of [schedule], and split
    a statement on references into one for each new reference and one
    for the old ones. *)
Ltac refs :=
  rewrite ?eventRefs_schedule;
  cbn [eventRefs flat_map isType type job app];
  repeat match goal with
  | |- Held _ _ (_ :: _) => apply Held_cons_intro
  | |- Held _ _ (_ ++ [_]) => apply Held_snoc_intro
  | |- Held _ (update _ (set_packagingStartTime _) _) _ =>
      apply Held_update_phase; [intros; reflexivity|]
  | |- Held _ (update _ (fun x => set_finished _) _) _ =>
      apply Held_update_phase; [intros; reflexivity|]
  | |- Held _ (update _ _ _) _ => apply Held_update
  | |- Held _ (_ ++ [_]) _ => apply Held_snoc_jobs
  | |- NoDup (_ :: _) => apply NoDup_cons
  | |- NoDup (_ ++ [_]) => apply NoDup_snoc
  end.

(** A new reference: look the job up through the updates and compute
    its phase. *)
Ltac lookup :=
  repeat first
    [ eassumption
    | apply nth_error_snoc
    | apply nth_error_update_same
    | rewrite nth_error_update_other by congruence ].

Ltac member :=
  eexists; split; [lookup|];
  repeat match goal with
  | H : phase ?j = _ |- context [?j] =>
      is_var j; destruct j as [? ? ? [?|] [?|] [?|] [?|] ? ? ?];
      cbn in H; try discriminate H
  end;
  reflexivity.

Ltac notin :=
  first
    [ assumption
    | eapply Held_not_in; [eassumption|eassumption|congruence] ].

Lemma onArrival_staged (L : Q -> Q) (config : SimulationConfig)
    (s s' : SimState) :
  Staged s -> onArrival L config s = Some s' -> Staged s'.
Proof.
  intros [J WM M WI I WP P WM1 M1 WI1 I1] H.
  pose proof (Held_in_range _ _ _ WM) as RWM.
  pose proof (Held_in_range _ _ _ M) as RM.
  pose proof (Held_in_range _ _ _ WI) as RWI.
  pose proof (Held_in_range _ _ _ I) as RI.
  pose proof (Held_in_range _ _ _ WP) as RWP.
  pose proof (Held_in_range _ _ _ P) as RP.
  crack_step H; constructor;
    cbn [currentTime jobs queue mouldingQueue inspectionQueue packagingQueue];
    refs; try assumption; try member.
  all: try (apply Forall_update;
            [|intros x _; apply Ordered_set_mouldingStartTime]).
  all: apply Forall_snoc; [exact J|apply Ordered_new].
Qed.

Lemma Held_one (p : nat) (js : list Job) (n : nat) :
  Held p js [n] -> exists j, nth_error js n = Some j /\ phase j = p.
Proof. intros H. inversion H; assumption. Qed.

Lemma Held_tail (p : nat) (js : list Job) (n : nat) (refs : list nat) :
  Held p js (n :: refs) ->
  (exists j, nth_error js n = Some j /\ phase j = p) /\ Held p js refs.
Proof. intros H. inversion H; split; assumption. Qed.

(** Find which job a lookup through updates gives. *)
Ltac whois H :=
  repeat first
    [ rewrite nth_error_update_other in H by congruence
    | let y := fresh "y" in
      apply nth_error_update_same_inv in H; destruct H as (y & H & ->) ];
  repeat match goal with
  | E : nth_error ?l ?n = Some ?a, E' : nth_error ?l ?n = Some ?b |- _ =>
      rewrite E in E'; injection E' as <-
  end.

Ltac known_jobs :=
  repeat match goal with
  | H : nth_error (update _ _ _) _ = Some _ |- _ => progress whois H
  end.

Ltac field_facts :=
  repeat match goal with
  | H : phase ?j = _ |- _ =>
      is_var j; destruct j as [? ? ? [?|] [?|] [?|] [?|] ? ? ?];
      cbn in H; try discriminate H; clear H
  end;
  cbn; congruence.

Ltac ordered :=
  repeat match goal with
  | |- Forall (Ordered _) (update _ _ _) =>
      apply Forall_update;
      [|let x := fresh "x" in let Hx := fresh "Hx" in
        intros x Hx; whois Hx;
        first
          [ apply Ordered_set_mouldingStartTime
          | apply Ordered_set_inspectionStartTime
          | apply Ordered_set_packagingEnd
          | apply Ordered_set_mouldingEndTime; field_facts
          | apply Ordered_set_inspectionEndTime; field_facts
          | apply Ordered_set_packagingStartTime; field_facts ]]
  end;
  try assumption.

Lemma onMouldingFinish_staged (L : Q -> Q)
    (s s' : SimState) (e : SimEvent) (j : nat) :
  Staged s ->
  job e = Some j ->
  Held 1 (jobs s) [j] ->
  ~ In j (eventRefs MOULDING_FINISH (queue s)) ->
  onMouldingFinish L s e = Some s' -> Staged s'.
Proof.
  intros [J WM M WI I WP P WM1 M1 WI1 I1] Ej Hj Nj H.
  destruct (Held_one _ _ _ Hj) as (jobJ & EJ & PJ).
  unfold onMouldingFinish in H. rewrite Ej, EJ in H.
  destruct (mouldingQueue s) as [|n rest] eqn:Emq.
  - crack_step H; constructor;
      cbn [currentTime jobs queue mouldingQueue inspectionQueue
           packagingQueue];
      refs; try assumption; try notin; try member; ordered.
  - destruct (Held_tail _ _ _ _ WM) as ((jobN & EN & PN) & WM').
    assert (Nn : ~ In n rest) by (inversion WM1; assumption).
    assert (WM1' : NoDup rest) by (inversion WM1; assumption).
    assert (Njn : j <> n) by congruence.
    crack_step H; known_jobs; constructor;
      cbn [currentTime jobs queue mouldingQueue inspectionQueue
           packagingQueue];
      refs; try assumption; try notin; try member; ordered.
Qed.

Lemma onInspectionFinish_staged (L : Q -> Q)
    (s s' : SimState) (e : SimEvent) (j : nat) :
  Staged s ->
  job e = Some j ->
  Held 3 (jobs s) [j] ->
  ~ In j (eventRefs INSPECTION_FINISH (queue s)) ->
  onInspectionFinish L s e = Some s' -> Staged s'.
Proof.
  intros [J WM M WI I WP P WM1 M1 WI1 I1] Ej Hj Nj H.
  destruct (Held_one _ _ _ Hj) as (jobJ & EJ & PJ).
  unfold onInspectionFinish in H. rewrite Ej, EJ in H.
  destruct (inspectionQueue s) as [|n rest] eqn:Eiq.
  - crack_step H; known_jobs; constructor;
      cbn [currentTime jobs queue mouldingQueue inspectionQueue
           packagingQueue];
      refs; try assumption; try notin; try member; ordered.
  - destruct (Held_tail _ _ _ _ WI) as ((jobN & EN & PN) & WI').
    assert (Nn : ~ In n rest) by (inversion WI1; assumption).
    assert (WI1' : NoDup rest) by (inversion WI1; assumption).
    assert (Njn : j <> n) by congruence.
    crack_step H; known_jobs; constructor;
      cbn [currentTime jobs queue mouldingQueue inspectionQueue
           packagingQueue];
      refs; try assumption; try notin; try member; ordered.
Qed.

Lemma nth_error_update_inv {A} (n k : nat) (f : A -> A) (l : list A)
    (x : A) :
  nth_error (update n f l) k = Some x ->
  exists y, nth_error l k = Some y /\ (x = y \/ x = f y).
Proof.
  rewrite nth_error_update. destruct (nth_error l k) as [y|]; [|discriminate].
  cbn. intros [= <-]. exists y. split; [reflexivity|].
  destruct (Nat.eqb n k); [right|left]; reflexivity.
Qed.

Lemma onPackagingFinish_staged (L : Q -> Q)
    (s s' : SimState) (e : SimEvent) (j : nat) :
  Staged s ->
  job e = Some j ->
  Held 4 (jobs s) [j] ->
  onPackagingFinish L s e = Some s' -> Staged s'.
Proof.
  intros [J WM M WI I WP P WM1 M1 WI1 I1] Ej Hj H.
  destruct (Held_one _ _ _ Hj) as (jobJ & EJ & PJ).
  unfold onPackagingFinish in H. rewrite Ej, EJ in H.
  destruct (packagingQueue s) as [|n rest] eqn:Epq.
  - crack_step H; known_jobs; constructor;
      cbn [currentTime jobs queue mouldingQueue inspectionQueue
           packagingQueue];
      refs; try assumption; try notin; try member; ordered.
  - destruct (Held_tail _ _ _ _ WP) as ((jobN & EN & PN) & WP').
    crack_step H.
    match goal with
    | Hn : nth_error (update j _ (jobs s)) n = Some ?j0 |- _ =>
        rename Hn into Hnext;
        assert (P0 : phase j0 = 4%nat);
        [ destruct (nth_error_update_inv _ _ _ _ _ Hnext)
            as (y & Hy & [->| ->]);
          rewrite EN in Hy; injection Hy as <-; exact PN
        | assert (I0 : inspectionEndTime j0 <> None)
            by (apply (phase_cases j0); exact P0) ]
    end.
    constructor;
      cbn [currentTime jobs queue mouldingQueue inspectionQueue
           packagingQueue];
      refs; try assumption; try notin.
    + apply Forall_update.
      * apply Forall_update; [exact J|].
        intros x _. apply Ordered_set_packagingEnd.
      * intros x Hx. rewrite Hnext in Hx. injection Hx as <-.
        apply Ordered_set_packagingStartTime. exact I0.
    + eexists. split; [apply nth_error_update_same; eassumption|].
      exact P0.
Qed.

Lemma eventRefs_cons (ty : EventType) (e : SimEvent) (q : list SimEvent) :
  eventRefs ty (e :: q) = eventRefs ty [e] ++ eventRefs ty q.
Proof. unfold eventRefs. cbn [flat_map]. rewrite app_nil_r. reflexivity. Qed.

Lemma Held_app_r (p : nat) (js : list Job) (a b : list nat) :
  Held p js (a ++ b) -> Held p js b.
Proof. unfold Held. rewrite Forall_app. intros [_ H]; exact H. Qed.

Lemma Held_app_l (p : nat) (js : list Job) (a b : list nat) :
  Held p js (a ++ b) -> Held p js a.
Proof. unfold Held. rewrite Forall_app. intros [H _]; exact H. Qed.

Lemma initialState_staged (L : Q -> Q) (config : SimulationConfig) :
  Staged (initialState L config).
Proof.
  unfold initialState.
  destruct (Random.exponential L (arrivalIntervalMean config)
              (Random.mk (seed config))) as [t0 r].
  constructor;
    cbn [currentTime jobs queue mouldingQueue inspectionQueue packagingQueue];
    rewrite ?eventRefs_schedule;
    cbn [eventRefs flat_map isType type job app];
    constructor.
Qed.

Lemma step_staged (L : Q -> Q) (config : SimulationConfig) (s s' : SimState) :
  Timed s -> Staged s -> step L config s = Some s' -> Staged s'.
Proof.
  intros T [J WM M WI I WP P WM1 M1 WI1 I1] H. unfold step in H.
  destruct (queue s) as [|e rest] eqn:Eq; [discriminate|].
  assert (Le : currentTime s <= time e).
  { destruct T as [_ _ _ Tp _]. rewrite Eq in Tp. inversion Tp; assumption. }
  rewrite (eventRefs_cons MOULDING_FINISH e rest) in M, M1.
  rewrite (eventRefs_cons INSPECTION_FINISH e rest) in I, I1.
  rewrite (eventRefs_cons PACKAGING_FINISH e rest) in P.
  match type of H with
  | match _ with
    | ARRIVAL => onArrival _ _ ?s1
    | _ => _ end = _ =>
      assert (S1 : Staged s1);
      [ constructor;
        cbn [currentTime jobs queue mouldingQueue inspectionQueue
             packagingQueue];
        first
          [ assumption
          | eapply Forall_impl; [|exact J];
            intros j; apply Ordered_later; exact Le
          | eapply Held_app_r; eassumption
          | eapply NoDup_app_remove_l; eassumption ]
      | ]
  end.
  destruct (type e) eqn:Ety.
  - eapply onArrival_staged; eassumption.
  - destruct (job e) as [j|] eqn:Ej;
      [|unfold onMouldingFinish in H; rewrite Ej in H; discriminate H].
    unfold eventRefs in M, M1; cbn [flat_map] in M, M1.
    unfold isType in M, M1. rewrite Ety, Ej in M, M1.
    cbn [app] in M, M1. fold (eventRefs MOULDING_FINISH rest) in M, M1.
    eapply (onMouldingFinish_staged L _ s' e j S1 Ej); [| |exact H].
    + apply (Held_app_l _ _ [j] (eventRefs MOULDING_FINISH rest)). exact M.
    + cbn [queue]. inversion M1; assumption.
  - destruct (job e) as [j|] eqn:Ej;
      [|unfold onInspectionFinish in H; rewrite Ej in H; discriminate H].
    unfold eventRefs in I, I1; cbn [flat_map] in I, I1.
    unfold isType in I, I1. rewrite Ety, Ej in I, I1.
    cbn [app] in I, I1. fold (eventRefs INSPECTION_FINISH rest) in I, I1.
    eapply (onInspectionFinish_staged L _ s' e j S1 Ej); [| |exact H].
    + apply (Held_app_l _ _ [j] (eventRefs INSPECTION_FINISH rest)). exact I.
    + cbn [queue]. inversion I1; assumption.
  - destruct (job e) as [j|] eqn:Ej;
      [|unfold onPackagingFinish in H; rewrite Ej in H; discriminate H].
    unfold eventRefs in P; cbn [flat_map] in P.
    unfold isType in P. rewrite Ety, Ej in P.
    cbn [app] in P. fold (eventRefs PACKAGING_FINISH rest) in P.
    eapply (onPackagingFinish_staged L _ s' e j S1 Ej); [|exact H].
    apply (Held_app_l _ _ [j] (eventRefs PACKAGING_FINISH rest)). exact P.
Qed.

Lemma tally_nonneg (config : SimulationConfig) (now : Q) (acc : Tally)
    (j : Job) :
  Ordered now j ->
  Forall (fun w => 0 <= w) (waits_m acc)
  /\ Forall (fun w => 0 <= w) (waits_i acc)
  /\ Forall (fun w => 0 <= w) (waits_p acc)
  /\ 0 <= totalLeadTime acc ->
  Forall (fun w => 0 <= w) (waits_m (tally config acc j))
  /\ Forall (fun w => 0 <= w) (waits_i (tally config acc j))
  /\ Forall (fun w => 0 <= w) (waits_p (tally config acc j))
  /\ 0 <= totalLeadTime (tally config acc j).
Proof.
  intros [A B C D E F G K] (Hm & Hi & Hp & Hl).
  unfold tally.
  destruct (mouldingStartTime j) as [ms|] eqn:Ems;
    destruct (inspectionStartTime j) as [is_|] eqn:Eis;
    destruct (mouldingEndTime j) as [me|] eqn:Eme;
    destruct (packagingStartTime j) as [ps|] eqn:Eps;
    destruct (inspectionEndTime j) as [ie|] eqn:Eie;
    destruct (packagingEndTime j) as [pe|] eqn:Epe;
    repeat match goal with
    | |- context [if ?b then _ else _] => destruct b
    end;
    cbn [waits_m waits_i waits_p totalLeadTime];
    repeat split; try assumption;
    try (apply Forall_app; split; [assumption|];
         constructor; [|constructor]);
    try (specialize (D _ eq_refl)); try (specialize (E _ _ eq_refl eq_refl));
    try (specialize (F _ _ eq_refl eq_refl)); try (specialize (G _ eq_refl));
    lra.
Qed.

Lemma tallyJobs_nonneg (config : SimulationConfig) (now : Q) (js : list Job) :
  Forall (Ordered now) js ->
  Forall (fun w => 0 <= w) (waits_m (tallyJobs config js))
  /\ Forall (fun w => 0 <= w) (waits_i (tallyJobs config js))
  /\ Forall (fun w => 0 <= w) (waits_p (tallyJobs config js))
  /\ 0 <= totalLeadTime (tallyJobs config js).
Proof.
  intros H. unfold tallyJobs.
  assert (G : forall acc,
            Forall (fun w => 0 <= w) (waits_m acc)
            /\ Forall (fun w => 0 <= w) (waits_i acc)
            /\ Forall (fun w => 0 <= w) (waits_p acc)
            /\ 0 <= totalLeadTime acc ->
            Forall (fun w => 0 <= w)
              (waits_m (fold_left (tally config) js acc))
            /\ Forall (fun w => 0 <= w)
                 (waits_i (fold_left (tally config) js acc))
            /\ Forall (fun w => 0 <= w)
                 (waits_p (fold_left (tally config) js acc))
            /\ 0 <= totalLeadTime (fold_left (tally config) js acc)).
  { induction H as [|j js Hj _ IH]; intros acc Hacc; [exact Hacc|].
    cbn [fold_left]. apply IH. eapply tally_nonneg; eassumption. }
  apply G. cbn. repeat split; try constructor. lra.
Qed.

Lemma safeDiv_nonneg (n d : Q) : 0 <= n -> 0 <= d -> 0 <= safeDiv n d.
Proof.
  intros Hn Hd. unfold safeDiv.
  destruct (Qeq_bool d 0) eqn:E; [lra|].
  apply Qeq_bool_neq in E. apply Qle_shift_div_l; lra.
Qed.

Lemma filter_all {A} (f : A -> bool) (l : list A) :
  Forall (fun x => f x = true) l -> filter f l = l.
Proof.
  induction 1 as [|x l Hx _ IH]; [reflexivity|].
  cbn [filter]. rewrite Hx, IH. reflexivity.
Qed.

Lemma calcStats_nonneg (arr : list Q) :
  Forall (fun w => 0 <= w) arr ->
  0 <= WaitStats.avg (calcStats arr)
  /\ 0 <= WaitStats.p90 (calcStats arr)
  /\ 0 <= WaitStats.max (calcStats arr).
Proof.
  intros H. unfold calcStats.
  destruct arr as [|a arr]; [cbn; repeat split; lra|].
  set (sorted := sortNumbers (a :: arr)).
  assert (Fs : Forall (fun w => 0 <= w) sorted)
    by (apply Forall_sort; exact H).
  assert (Nth : forall n, 0 <= nth n sorted 0).
  { intros n. destruct (nth_in_or_default n sorted 0) as [Hin| ->]; [|lra].
    rewrite Forall_forall in Fs. apply Fs. exact Hin. }
  cbn [WaitStats.avg WaitStats.p90 WaitStats.max].
  split; [|split].
  - assert (0 <= sumQ sorted) by (apply sumQ_nonneg; exact Fs).
    assert (0 <= inject_Z (Z.of_nat (length sorted)))
      by (change 0 with (inject_Z 0); rewrite <- Zle_Qle; lia).
    destruct (Qeq_dec (inject_Z (Z.of_nat (length sorted))) 0) as [Z0|NZ].
    + unfold Qdiv. rewrite Z0. unfold Qinv; cbn. lra.
    + apply Qle_shift_div_l; lra.
  - apply Nth.
  - assert (NE : sorted <> []).
    { intros E. unfold sorted, sortNumbers in E.
      pose proof (sort_permutation _ Qle_bool (a :: arr)) as Pm.
      rewrite E in Pm. apply Permutation_nil in Pm. discriminate Pm. }
    rewrite Forall_forall in Fs. apply Fs. apply last_In. exact NE.
Qed.

Lemma createHistogram_total (data : list Q) :
  totalCount (createHistogram data)
  = Z.of_nat (length (filter (fun v => Qle_bool 0 v) data)).
Proof.
  destruct data as [|a data]; [reflexivity|].
  unfold createHistogram.
  rewrite fold_countValue_total
    by (rewrite length_map, length_seq; reflexivity).
  rewrite initial_bins_total. lia.
Qed.

Section Waits.
Variable L : Q -> Q.
Hypothesis HL : log_bracket L.
Variable config : SimulationConfig.
Hypothesis mean_nonneg : 0 <= arrivalIntervalMean config.
Hypothesis seed_nonneg : (0 <= seed config)%Z.

Lemma reachable_staged (s : SimState) : Reachable L config s -> Staged s.
Proof.
  induction 1 as [|s s' R IH _ Hs].
  - apply initialState_staged.
  - eapply step_staged; [|exact IH|exact Hs].
    apply (reachable_timed L HL config mean_nonneg seed_nonneg). exact R.
Qed.

(** X19. On a valid configuration (a logarithm inside its bracket, a
    non-negative arrival mean and seed), in every state the loop reaches
    the stamps of every job are in the order of its stages and none lies
    after the clock; so the statistics computed from the state report no
    negative wait at any stage, no negative average, 90th percentile or
    maximum wait, and no negative lead time, and the histogram of the
    dashboard shows every wait of a stage (the counts of its bins add up
    to the number of waits). *)
Theorem waits_are_never_negative (s : SimState) :
  Reachable L config s ->
  let stats := statistics config s in
  Forall (Ordered (currentTime s)) (jobs s)
  /\ (forall key,
        Forall (fun w => 0 <= w) (stageOf key (waitTimes stats))
        /\ 0 <= WaitStats.avg (stageOf key (waitStats stats))
        /\ 0 <= WaitStats.p90 (stageOf key (waitStats stats))
        /\ 0 <= WaitStats.max (stageOf key (waitStats stats))
        /\ totalCount (createHistogram (stageOf key (waitTimes stats)))
           = Z.of_nat (length (stageOf key (waitTimes stats))))
  /\ 0 <= avgLeadTime stats.
Proof.
  intros R stats.
  destruct (reachable_staged s R) as [J _ _ _ _ _ _ _ _ _ _].
  destruct (tallyJobs_nonneg config _ _ J) as (Hm & Hi & Hp & Hl).
  split; [exact J|].
  assert (G : forall arr,
            Forall (fun w => 0 <= w) arr ->
            Forall (fun w => 0 <= w) (sortNumbers arr)
            /\ 0 <= WaitStats.avg (calcStats arr)
            /\ 0 <= WaitStats.p90 (calcStats arr)
            /\ 0 <= WaitStats.max (calcStats arr)
            /\ totalCount (createHistogram (sortNumbers arr))
               = Z.of_nat (length (sortNumbers arr))).
  { intros arr Ha.
    assert (Hs : Forall (fun w => 0 <= w) (sortNumbers arr))
      by (apply Forall_sort; exact Ha).
    split; [exact Hs|].
    destruct (calcStats_nonneg arr Ha) as (A & B & C).
    split; [exact A|]. split; [exact B|]. split; [exact C|].
    rewrite createHistogram_total, filter_all; [reflexivity|].
    eapply Forall_impl; [|exact Hs].
    intros w Hw. apply Qle_bool_iff. exact Hw. }
  split.
  - intros key.
    destruct key; cbn [stats statistics waitTimes waitStats stageOf
                       moulding inspection packaging];
      apply G; assumption.
  - cbn [stats statistics avgLeadTime]. apply safeDiv_nonneg; [exact Hl|].
    change 0 with (inject_Z 0). rewrite <- Zle_Qle. lia.
Qed.

End Waits.

Lemma waits_are_never_negative_witness :
  log_bracket ln_pade
  /\ 0 <= arrivalIntervalMean shiftConfig
  /\ (0 <= seed shiftConfig)%Z
  /\ Reachable ln_pade shiftConfig
       (advance ln_pade shiftConfig 12 (initialState ln_pade shiftConfig))
  /\ (let s := advance ln_pade shiftConfig 12
                 (initialState ln_pade shiftConfig) in
      Forall (fun w => 0 <= w)
        (inspection (waitTimes (statistics shiftConfig s)))
      /\ 0 <= avgLeadTime (statistics shiftConfig s)).
Proof.
  split; [exact ln_pade_bracket|].
  split; [discriminate|].
  split; [simpl; lia|].
  split; [apply advance_reachable; apply reach_initial|].
  intros s.
  destruct (waits_are_never_negative ln_pade ln_pade_bracket shiftConfig
              ltac:(discriminate) ltac:(simpl; lia) s
              ltac:(apply advance_reachable; apply reach_initial))
    as (_ & W & Ld).
  split; [exact (proj1 (W Inspection))|exact Ld].
Defined.
